(** * DreamBerd: a shallow embedding of the lexer, the parser and the
      tree-walking interpreter, and the properties of the specification
      checked against them.

    Source files embedded here:
    - [dreamberd_lexer.py]        (module [Lexer])
    - [dreamberd_ast.py]          (the type [node])
    - [dreamberd_parser.py]       (module [Parser])
    - [dreamberd_interpreter.py]  (module [Interpreter])

    Conventions.  A Python [str] is a [string]; a character is a code point
    below 256, so that the inverted exclamation mark is the character 161.
    Python's [int] is [Z], Python's [float] is an IEEE 754 binary64 number
    ([spec_float] with precision 53 and maximal exponent 1024). *)

From Stdlib Require Import List String Ascii ZArith Bool Arith Lia.
From Stdlib Require Import SpecFloat DecimalString.
Import ListNotations.
Local Open Scope string_scope.
Local Open Scope list_scope.
Set Warnings "-register-all,-non-full-mutual".

(** ** Characters and strings, as Python's [str] methods see them *)

Definition ord (c : ascii) : nat := nat_of_ascii c.

Definition between (lo n hi : nat) : bool := (lo <=? n)%nat && (n <=? hi)%nat.

(** [str.isdigit] on the code points below 256: the decimal digits and the
    superscripts one, two and three. *)
Definition isdigit (c : ascii) : bool :=
  let n := ord c in
  between 48 n 57 || (n =? 178)%nat || (n =? 179)%nat || (n =? 185)%nat.

(** The ASCII decimal digits, which are all that [int] and [float] accept
    among the code points below 256. *)
Definition isdecimal (c : ascii) : bool := between 48 (ord c) 57.

(** [str.isalpha] on the code points below 256. *)
Definition isalpha (c : ascii) : bool :=
  let n := ord c in
  between 65 n 90 || between 97 n 122 || (n =? 170)%nat || (n =? 181)%nat
  || (n =? 186)%nat || between 192 n 214 || between 216 n 246 || between 248 n 255.

(** [str.isalnum]: alphabetic, digit, or numeric (the vulgar fractions). *)
Definition isalnum (c : ascii) : bool :=
  isalpha c || isdigit c || between 188 (ord c) 190.

Definition lower_char (c : ascii) : ascii :=
  let n := ord c in
  if between 65 n 90 || (between 192 n 222 && negb (n =? 215)%nat)
  then ascii_of_nat (n + 32) else c.

Fixpoint lower (s : string) : string :=
  match s with
  | EmptyString => EmptyString
  | String c s' => String (lower_char c) (lower s')
  end.

Definition char_in (c : ascii) (s : string) : bool :=
  existsb (Ascii.eqb c) (list_ascii_of_string s).

Definition str1 (c : ascii) : string := String c EmptyString.

Fixpoint repeat_char (c : ascii) (n : nat) : string :=
  match n with
  | O => EmptyString
  | S n' => String c (repeat_char c n')
  end.

(** The longest prefix of [s] whose characters satisfy [p]. *)
Fixpoint take_while (p : ascii -> bool) (s : string) : string :=
  match s with
  | String c s' => if p c then String c (take_while p s') else EmptyString
  | EmptyString => EmptyString
  end.

(** The number of leading occurrences of [c] in [s]. *)
Fixpoint count_run (c : ascii) (s : string) : nat :=
  match s with
  | String c' s' => if Ascii.eqb c' c then S (count_run c s') else O
  | EmptyString => O
  end.

Fixpoint assoc {A : Type} (k : string) (l : list (string * A)) : option A :=
  match l with
  | [] => None
  | (k', v) :: l' => if String.eqb k k' then Some v else assoc k l'
  end.

Definition quote_double : ascii := ascii_of_nat 34.
Definition quote_single : ascii := ascii_of_nat 39.
Definition newline : ascii := ascii_of_nat 10.
Definition tab : ascii := ascii_of_nat 9.

(** ** dreamberd_lexer.py *)

Module Lexer.

Inductive TokenType :=
| T_NUMBER | T_STRING | T_BOOLEAN | T_MAYBE
| T_IDENTIFIER
| T_CONST | T_CONST_CONST_CONST | T_VAR | T_FUNCTION | T_FUNC | T_FUN | T_FN
| T_FUNCTI | T_F | T_UNION | T_CLASS | T_CLASSNAME | T_IF | T_ELSE | T_WHEN
| T_RETURN | T_PRINT | T_DELETE | T_IMPORT | T_EXPORT | T_TO | T_REVERSE
| T_PREVIOUS | T_NEXT | T_CURRENT | T_ASYNC | T_NOOP | T_USE | T_NEW | T_AWAIT
| T_PLUS | T_MINUS | T_MULTIPLY | T_DIVIDE | T_POWER | T_MODULO
| T_INCREMENT | T_DECREMENT
| T_ASSIGN | T_LOOSE_EQUAL | T_STRICT_EQUAL | T_SUPER_STRICT_EQUAL
| T_VERY_LOOSE_EQUAL | T_NOT_EQUAL | T_LESS_THAN | T_GREATER_THAN
| T_LESS_EQUAL | T_GREATER_EQUAL
| T_AND | T_OR | T_NOT
| T_SEMICOLON | T_COMMA | T_DOT | T_COLON | T_ARROW
| T_LPAREN | T_RPAREN | T_LBRACE | T_RBRACE | T_LBRACKET | T_RBRACKET
| T_ANGLE_LEFT | T_ANGLE_RIGHT
| T_EXCLAMATION | T_INVERTED_EXCLAMATION | T_QUESTION
| T_NEWLINE | T_INDENT | T_DEDENT | T_EOF
| T_DOLLAR | T_POUND | T_YEN | T_EURO
| T_FILE_SEPARATOR.

Definition TokenType_eq_dec (a b : TokenType) : {a = b} + {a <> b}.
Proof. decide equality. Defined.

Definition TokenType_eqb (a b : TokenType) : bool :=
  if TokenType_eq_dec a b then true else false.

(** [Token]: the dataclass of the lexer; [priority] defaults to 0. *)
Record Token := mkToken {
  tok_type : TokenType;
  tok_value : string;
  tok_line : nat;
  tok_column : nat;
  tok_priority : Z }.

Definition Token4 (t : TokenType) (v : string) (l c : nat) : Token :=
  mkToken t v l c 0%Z.

(** The lexer object.  [rest] is [self.source[self.pos:]], the text not yet
    consumed; [pos] counts the characters consumed so far. *)
Record DreamBerdLexer := mkLexer {
  rest : string;
  pos : nat;
  line : nat;
  column : nat;
  tokens : list Token }.

Definition new (source : string) : DreamBerdLexer := mkLexer source 0 1 1 [].

(** [self.keywords].  The lookup key is lower-cased by its only caller, so
    the entries [className], [True] and [False] can never be hit. *)
Definition keywords : list (string * TokenType) :=
  [ ("const", T_CONST); ("var", T_VAR); ("function", T_FUNCTION);
    ("func", T_FUNC); ("fun", T_FUN); ("fn", T_FN); ("functi", T_FUNCTI);
    ("f", T_F); ("union", T_UNION); ("class", T_CLASS);
    ("className", T_CLASSNAME); ("if", T_IF); ("else", T_ELSE);
    ("when", T_WHEN); ("return", T_RETURN); ("print", T_PRINT);
    ("delete", T_DELETE); ("import", T_IMPORT); ("export", T_EXPORT);
    ("to", T_TO); ("reverse", T_REVERSE); ("previous", T_PREVIOUS);
    ("next", T_NEXT); ("current", T_CURRENT); ("async", T_ASYNC);
    ("noop", T_NOOP); ("use", T_USE); ("new", T_NEW); ("await", T_AWAIT);
    ("true", T_BOOLEAN); ("false", T_BOOLEAN); ("maybe", T_MAYBE);
    ("True", T_BOOLEAN); ("False", T_BOOLEAN);
    ("undefined", T_IDENTIFIER); ("null", T_IDENTIFIER) ].

Definition current_char (lx : DreamBerdLexer) : option ascii :=
  match rest lx with
  | String c _ => Some c
  | EmptyString => None
  end.

Definition peek_char (lx : DreamBerdLexer) (offset : nat) : option ascii :=
  String.get offset (rest lx).

Definition advance (lx : DreamBerdLexer) : DreamBerdLexer :=
  match rest lx with
  | String c r =>
      if Ascii.eqb c newline
      then mkLexer r (S (pos lx)) (S (line lx)) 1 (tokens lx)
      else mkLexer r (S (pos lx)) (line lx) (S (column lx)) (tokens lx)
  | EmptyString =>
      mkLexer EmptyString (S (pos lx)) (line lx) (S (column lx)) (tokens lx)
  end.

Definition push_token (t : Token) (lx : DreamBerdLexer) : DreamBerdLexer :=
  mkLexer (rest lx) (pos lx) (line lx) (column lx) (tokens lx ++ [t]).

(** [while self.current_char() and p(self.current_char()):
       value += self.current_char(); self.advance()].
    Every iteration consumes one character of [rest], so a fuel of
    [String.length (rest lx)] is never exhausted. *)
Fixpoint while_char (fuel : nat) (p : ascii -> bool) (lx : DreamBerdLexer)
  (value : string) : DreamBerdLexer * string :=
  match fuel with
  | O => (lx, value)
  | S fuel' =>
      match current_char lx with
      | Some c =>
          if p c then while_char fuel' p (advance lx) (value ++ str1 c)
          else (lx, value)
      | None => (lx, value)
      end
  end.

Definition consume_while (p : ascii -> bool) (lx : DreamBerdLexer)
  (value : string) : DreamBerdLexer * string :=
  while_char (String.length (rest lx)) p lx value.

Definition is_blank (c : ascii) : bool := char_in c (String " " (str1 tab)).

Definition skip_whitespace (lx : DreamBerdLexer) : DreamBerdLexer :=
  fst (consume_while is_blank lx EmptyString).

Definition number_names : list (string * string) :=
  [ ("zero", "0"); ("one", "1"); ("two", "2"); ("three", "3"); ("four", "4");
    ("five", "5"); ("six", "6"); ("seven", "7"); ("eight", "8"); ("nine", "9");
    ("ten", "10"); ("eleven", "11"); ("twelve", "12") ].

Definition is_char (c : ascii) (o : option ascii) : bool :=
  match o with Some c' => Ascii.eqb c' c | None => false end.

Definition opt_test (p : ascii -> bool) (o : option ascii) : bool :=
  match o with Some c => p c | None => false end.

(** [read_number]: returns the lexer after the token and the token. *)
Definition read_number (lx : DreamBerdLexer) : DreamBerdLexer * Token :=
  let start_line := line lx in
  let start_column := column lx in
  let word := take_while isalpha (rest lx) in
  match assoc (lower word) number_names with
  | Some value =>
      let lx1 := fst (consume_while isalpha lx EmptyString) in
      (lx1, Token4 T_NUMBER value start_line start_column)
  | None =>
      let '(lx1, value1) :=
        consume_while (fun c => isdigit c || Ascii.eqb c ".") lx EmptyString in
      let '(lx2, value2) :=
        if is_char "/" (current_char lx1) && opt_test isdigit (peek_char lx1 1)
        then consume_while isdigit (advance lx1) (value1 ++ "/")
        else (lx1, value1) in
      (lx2, Token4 T_NUMBER value2 start_line start_column)
  end.

(** The body loop of [read_string]. *)
Fixpoint read_string_loop (fuel : nat) (quote_char : ascii) (quote_count : nat)
  (lx : DreamBerdLexer) (value : string) : DreamBerdLexer * string :=
  match fuel with
  | O => (lx, value)
  | S fuel' =>
      match current_char lx with
      | None => (lx, value)
      | Some c =>
          if Ascii.eqb c quote_char then
            let closing_quotes := count_run quote_char (rest lx) in
            if (quote_count <=? closing_quotes)%nat
            then (Nat.iter quote_count advance lx, value)
            else read_string_loop fuel' quote_char quote_count (advance lx)
                   (value ++ str1 c)
          else read_string_loop fuel' quote_char quote_count (advance lx)
                 (value ++ str1 c)
      end
  end.

Definition read_string (quote_char : ascii) (lx : DreamBerdLexer)
  : DreamBerdLexer * Token :=
  let start_line := line lx in
  let start_column := column lx in
  let lx1 := advance lx in
  let '(lx2, more) := consume_while (Ascii.eqb quote_char) lx1 EmptyString in
  let quote_count := S (String.length more) in
  let '(lx3, value) :=
    read_string_loop (String.length (rest lx2)) quote_char quote_count lx2
      EmptyString in
  (lx3, Token4 T_STRING value start_line start_column).

(** The characters an identifier continues with.  Of the literal
    ['_$...'] of the source only the underscore and the dollar sign are code
    points below 256 that are not alphanumeric already. *)
Definition is_identifier_char (c : ascii) : bool :=
  isalnum c || char_in c "_$".

(** The look-ahead of [read_identifier] after a first [const]: the lexer
    after three [const] when they are there. *)
Definition const_const_const (lx : DreamBerdLexer) : option DreamBerdLexer :=
  let lx1 := skip_whitespace lx in
  if opt_test isalpha (current_char lx1) then
    let next_word := take_while isalpha (rest lx1) in
    if String.eqb (lower next_word) "const" then
      let lx2 := Nat.iter (String.length next_word) advance lx1 in
      let lx3 := skip_whitespace lx2 in
      if opt_test isalpha (current_char lx3) then
        let third_word := take_while isalpha (rest lx3) in
        if String.eqb (lower third_word) "const"
        then Some (Nat.iter (String.length third_word) advance lx3)
        else None
      else None
    else None
  else None.

Definition read_identifier (lx : DreamBerdLexer) : DreamBerdLexer * Token :=
  let start_line := line lx in
  let start_column := column lx in
  let '(lx1, value) := consume_while is_identifier_char lx EmptyString in
  let keyword_token :=
    let token_type :=
      match assoc (lower value) keywords with
      | Some t => t
      | None => T_IDENTIFIER
      end in
    (lx1, Token4 token_type value start_line start_column) in
  if String.eqb (lower value) "const" then
    match const_const_const lx1 with
    | Some lx2 =>
        (lx2, Token4 T_CONST_CONST_CONST "const const const" start_line
                start_column)
    | None => keyword_token
    end
  else keyword_token.

Definition read_exclamation_marks (lx : DreamBerdLexer)
  : DreamBerdLexer * Token :=
  let start_line := line lx in
  let start_column := column lx in
  let '(lx1, marks) := consume_while (Ascii.eqb "!") lx EmptyString in
  let count := String.length marks in
  (lx1, mkToken T_EXCLAMATION (repeat_char "!" count) start_line start_column
          (Z.of_nat count)).

Definition emit (r : DreamBerdLexer * Token) : DreamBerdLexer :=
  push_token (snd r) (fst r).

(** One character, one token: [self.tokens.append(Token(t, char, ...));
    self.advance()]. *)
Definition single (t : TokenType) (c : ascii) (lx : DreamBerdLexer)
  : DreamBerdLexer :=
  advance (push_token (Token4 t (str1 c) (line lx) (column lx)) lx).

(** Two characters, one token: [self.advance(); self.advance();
    self.tokens.append(Token(t, text, start_line, start_column))]. *)
Definition double (t : TokenType) (text : string) (lx : DreamBerdLexer)
  : DreamBerdLexer :=
  push_token (Token4 t text (line lx) (column lx)) (advance (advance lx)).

(** The token of a run of [equals_count] equals signs. *)
Definition equals_run (equals_count : nat) (lx : DreamBerdLexer)
  : DreamBerdLexer :=
  let start_line := line lx in
  let start_column := column lx in
  if (5 <=? equals_count)%nat then
    push_token
      (Token4 T_FILE_SEPARATOR (repeat_char "=" equals_count) start_line
         start_column)
      (Nat.iter equals_count advance lx)
  else if (equals_count =? 4)%nat then
    push_token (Token4 T_SUPER_STRICT_EQUAL "====" start_line start_column)
      (Nat.iter 4 advance lx)
  else if (equals_count =? 3)%nat then
    push_token (Token4 T_STRICT_EQUAL "===" start_line start_column)
      (Nat.iter 3 advance lx)
  else if (equals_count =? 2)%nat then
    push_token (Token4 T_LOOSE_EQUAL "==" start_line start_column)
      (Nat.iter 2 advance lx)
  else
    push_token (Token4 T_ASSIGN "=" start_line start_column) (advance lx).

(** The chain of [if]/[elif] of the main loop of [tokenize], at the
    character [char] the lexer stands on. *)
Definition scan_char (char : ascii) (lx : DreamBerdLexer) : DreamBerdLexer :=
  let next := peek_char lx 1 in
  if Ascii.eqb char newline then single T_NEWLINE char lx
  else if Ascii.eqb char "/" && is_char "/" next then
    fst (consume_while (fun c => negb (Ascii.eqb c newline)) lx EmptyString)
  else if isdigit char then emit (read_number lx)
  else if char_in char (String quote_double (str1 quote_single)) then
    emit (read_string char lx)
  else if isalpha char then emit (read_identifier lx)
  else if Ascii.eqb char "=" && is_char ">" next then double T_ARROW "=>" lx
  else if Ascii.eqb char "=" then equals_run (count_run "=" (rest lx)) lx
  else if Ascii.eqb char "!" then emit (read_exclamation_marks lx)
  else if Ascii.eqb char (ascii_of_nat 161) then
    advance
      (push_token
         (mkToken T_INVERTED_EXCLAMATION (str1 char) (line lx) (column lx)
            (-1)%Z) lx)
  else if Ascii.eqb char "?" then single T_QUESTION char lx
  else if Ascii.eqb char ";" then single T_NOT char lx
  else if Ascii.eqb char "+" then
    if is_char "+" next then double T_INCREMENT "++" lx
    else single T_PLUS char lx
  else if Ascii.eqb char "-" then
    if is_char "-" next then double T_DECREMENT "--" lx
    else single T_MINUS char lx
  else if Ascii.eqb char "*" then single T_MULTIPLY char lx
  else if Ascii.eqb char "/" then single T_DIVIDE char lx
  else if Ascii.eqb char "^" then single T_POWER char lx
  else if Ascii.eqb char "%" then single T_MODULO char lx
  else if Ascii.eqb char "<" then
    if is_char "=" next then double T_LESS_EQUAL "<=" lx
    else single T_LESS_THAN char lx
  else if Ascii.eqb char ">" then
    if is_char "=" next then double T_GREATER_EQUAL ">=" lx
    else single T_GREATER_THAN char lx
  else if Ascii.eqb char "," then single T_COMMA char lx
  else if Ascii.eqb char "." then single T_DOT char lx
  else if Ascii.eqb char ":" then single T_COLON char lx
  else if Ascii.eqb char "(" then single T_LPAREN char lx
  else if Ascii.eqb char ")" then single T_RPAREN char lx
  else if Ascii.eqb char "{" then single T_LBRACE char lx
  else if Ascii.eqb char "}" then single T_RBRACE char lx
  else if Ascii.eqb char "[" then single T_LBRACKET char lx
  else if Ascii.eqb char "]" then single T_RBRACKET char lx
  else if Ascii.eqb char "$" then single T_DOLLAR char lx
  else if Ascii.eqb char (ascii_of_nat 163) then single T_POUND char lx
  else if Ascii.eqb char (ascii_of_nat 165) then single T_YEN char lx
  else advance lx.

(** One iteration of the main loop of [tokenize]; the boolean is [false]
    when the iteration ends in [break]. *)
Definition scan_token (lx : DreamBerdLexer) : DreamBerdLexer * bool :=
  let lx1 := skip_whitespace lx in
  match current_char lx1 with
  | None => (lx1, false)
  | Some char => (scan_char char lx1, true)
  end.

(** [while self.pos < len(self.source): ...].  Every iteration that does not
    break consumes at least one character. *)
Fixpoint tokenize_loop (fuel : nat) (lx : DreamBerdLexer) : DreamBerdLexer :=
  match fuel with
  | O => lx
  | S fuel' =>
      match rest lx with
      | EmptyString => lx
      | String _ _ =>
          let '(lx', continue) := scan_token lx in
          if continue then tokenize_loop fuel' lx' else lx'
      end
  end.

Definition tokenize (lx : DreamBerdLexer) : list Token :=
  let lx1 := tokenize_loop (String.length (rest lx)) lx in
  tokens (push_token (Token4 T_EOF EmptyString (line lx1) (column lx1)) lx1).

End Lexer.

(** ** Numbers

    [float] is binary64.  The operations of [SpecFloat] round to nearest,
    ties to even, as the host's floating-point unit does. *)

Definition float := spec_float.
Definition prec : Z := 53.
Definition emax : Z := 1024.

Definition float_eq_dec (a b : float) : {a = b} + {a <> b}.
Proof.
  decide equality; try apply Z.eq_dec; try apply Pos.eq_dec;
    apply Bool.bool_dec.
Defined.

(** [float(z)] for an [int] [z]: the nearest float, or [None] where Python
    raises [OverflowError]. *)
Definition float_of_Z (z : Z) : option float :=
  match binary_normalize prec emax z 0 false with
  | S754_infinity _ => None
  | f => Some f
  end.

Definition float_is_zero (f : float) : bool :=
  match f with S754_zero _ => true | _ => false end.

Definition float_is_nan (f : float) : bool :=
  match f with S754_nan => true | _ => false end.

(** The value of the decimal numeral [digits / 10 ^ scale], rounded once. *)
Definition float_of_decimal (digits : Z) (scale : nat) : float :=
  match digits with
  | Zpos m =>
      SFdiv prec emax (S754_finite false m 0)
        (S754_finite false (Pos.pow 10 (Pos.of_nat scale)) 0)
  | _ => S754_zero false
  end.

Definition digit_value (c : ascii) : Z := Z.of_nat (ord c - 48).

Fixpoint digits_value (acc : Z) (s : string) : Z :=
  match s with
  | EmptyString => acc
  | String c s' => digits_value (10 * acc + digit_value c) s'
  end.

Definition all_decimal (s : string) : bool :=
  forallb isdecimal (list_ascii_of_string s).

(** [int(s)] for a text made of digits: the number, or [None] for Python's
    [ValueError] (an empty text, or a digit that is not an ASCII digit). *)
Definition int_of_digits (s : string) : option Z :=
  if all_decimal s && negb (String.eqb s EmptyString)
  then Some (digits_value 0 s) else None.

(** The text before the first [c], and the text after it when there is one. *)
Fixpoint split_at (c : ascii) (s : string) : string * option string :=
  match s with
  | EmptyString => (EmptyString, None)
  | String c' s' =>
      if Ascii.eqb c' c then (EmptyString, Some s')
      else let '(a, b) := split_at c s' in (String c' a, b)
  end.

(** [float(s)] for a text made of digits and decimal points: the float, or
    [None] for Python's [ValueError]. *)
Definition float_of_digits (s : string) : option float :=
  let '(int_part, frac) := split_at "." s in
  let frac_part := match frac with Some t => t | None => EmptyString end in
  if all_decimal int_part && all_decimal frac_part
     && negb (String.eqb (int_part ++ frac_part) EmptyString)
  then
    Some
      (if (String.length frac_part =? 0)%nat
       then binary_normalize prec emax (digits_value 0 int_part) 0 false
       else float_of_decimal (digits_value 0 (int_part ++ frac_part))
              (String.length frac_part))
  else None.

(** ** Object identity

    The operator [====] of the language is Python's [is].  An immutable
    object is therefore modelled with the identity it was created with:
    - [Cached]: an object the host shares between all uses of its value
      (the integers from -5 to 256);
    - [Object n]: the [n]-th object allocated by the run, distinct from
      every other object;
    - [Unknown]: an object whose sharing the embedding leaves open. *)
Inductive ident := Cached | Object (n : nat) | Unknown.

Definition ident_eq_dec (a b : ident) : {a = b} + {a <> b}.
Proof. decide equality; apply Nat.eq_dec. Defined.

Definition is_small_int (z : Z) : bool := ((-5 <=? z) && (z <=? 256))%Z.

(** ** dreamberd_ast.py *)

(** The value carried by a [NumberLiteral]: an [int], a [float], or the
    text of the token (a fraction, or a text that is no number). *)
Inductive literal :=
| LInt (z : Z) (i : ident)
| LFloat (f : float) (i : ident)
| LStr (s : string) (i : ident).

Inductive node :=
| NumberLiteral (value : literal)
| StringLiteral (value : string) (i : ident)
| BooleanLiteral (value : bool)
| MaybeLiteral
| UndefinedLiteral
| NullLiteral
| Identifier (name : string)
| ArrayLiteral (elements : list node)
| ArrayAccess (array index : node)
| BinaryOperation (left : node) (operator : string) (right : node)
| UnaryOperation (operator : string) (operand : node)
| Assignment (target value : node)
| IncrementExpression (target : node) (is_prefix : bool)
| DecrementExpression (target : node) (is_prefix : bool)
| FunctionCall (function : node) (arguments : list node)
| MemberAccess (object : node) (property : string)
| MethodCall (object : node) (method_name : string) (arguments : list node)
| VariableDeclaration (const_count var_count : nat) (name : string)
    (value : option node) (lifetime : option string) (priority : Z)
    (type_annotation : option string)
| FunctionDeclaration (keyword name : string) (parameters : list string)
    (body : node + list node) (is_async : bool)
| ClassDeclaration (keyword name : string) (body : list node)
| IfStatement (condition : node) (then_body : list node)
    (else_body : option (list node))
| WhenStatement (condition : node) (body : list node)
| ReturnStatement (value : option node)
| PrintStatement (value : node) (is_debug : bool)
| DeleteStatement (target : node)
| ImportStatement (name : string)
| ExportStatement (name target_file : string)
| PreviousExpression (target : node)
| NextExpression (target : node)
| CurrentExpression (target : node)
| ReverseStatement
| UseExpression (initial_value : node)
| SignalCall (signal : node) (arguments : list node)
| NewExpression (class_name : string) (arguments : list node)
| AwaitExpression (expression : node)
| FileBlock (name : option string) (body : list node)
| Program (body : list node)
| GlobalConstantDeclaration (name : string) (value : node) (priority : Z)
| StringInterpolation (template : string) (expressions : list node)
    (currency_symbol : string)
| NoopStatement (content : string)
| ExpressionStatement (expression : node) (priority : Z) (is_debug : bool)
| DBXElement (tag : string) (attributes : list (string * string))
    (children : list (node + string))
| RichTextElement (tag content : string)
    (attributes : option (list (string * string))).

(** [type(node).__name__] *)
Definition class_name_of (n : node) : string :=
  match n with
  | NumberLiteral _ => "NumberLiteral"
  | StringLiteral _ _ => "StringLiteral"
  | BooleanLiteral _ => "BooleanLiteral"
  | MaybeLiteral => "MaybeLiteral"
  | UndefinedLiteral => "UndefinedLiteral"
  | NullLiteral => "NullLiteral"
  | Identifier _ => "Identifier"
  | ArrayLiteral _ => "ArrayLiteral"
  | ArrayAccess _ _ => "ArrayAccess"
  | BinaryOperation _ _ _ => "BinaryOperation"
  | UnaryOperation _ _ => "UnaryOperation"
  | Assignment _ _ => "Assignment"
  | IncrementExpression _ _ => "IncrementExpression"
  | DecrementExpression _ _ => "DecrementExpression"
  | FunctionCall _ _ => "FunctionCall"
  | MemberAccess _ _ => "MemberAccess"
  | MethodCall _ _ _ => "MethodCall"
  | VariableDeclaration _ _ _ _ _ _ _ => "VariableDeclaration"
  | FunctionDeclaration _ _ _ _ _ => "FunctionDeclaration"
  | ClassDeclaration _ _ _ => "ClassDeclaration"
  | IfStatement _ _ _ => "IfStatement"
  | WhenStatement _ _ => "WhenStatement"
  | ReturnStatement _ => "ReturnStatement"
  | PrintStatement _ _ => "PrintStatement"
  | DeleteStatement _ => "DeleteStatement"
  | ImportStatement _ => "ImportStatement"
  | ExportStatement _ _ => "ExportStatement"
  | PreviousExpression _ => "PreviousExpression"
  | NextExpression _ => "NextExpression"
  | CurrentExpression _ => "CurrentExpression"
  | ReverseStatement => "ReverseStatement"
  | UseExpression _ => "UseExpression"
  | SignalCall _ _ => "SignalCall"
  | NewExpression _ _ => "NewExpression"
  | AwaitExpression _ => "AwaitExpression"
  | FileBlock _ _ => "FileBlock"
  | Program _ => "Program"
  | GlobalConstantDeclaration _ _ _ => "GlobalConstantDeclaration"
  | StringInterpolation _ _ _ => "StringInterpolation"
  | NoopStatement _ => "NoopStatement"
  | ExpressionStatement _ _ _ => "ExpressionStatement"
  | DBXElement _ _ _ => "DBXElement"
  | RichTextElement _ _ _ => "RichTextElement"
  end.

(** ** dreamberd_parser.py *)

Module Parser.

Import Lexer.

(** [str(TokenType.X)] *)
Definition TokenType_name (t : TokenType) : string :=
  match t with
  | T_NUMBER => "NUMBER" | T_STRING => "STRING" | T_BOOLEAN => "BOOLEAN"
  | T_MAYBE => "MAYBE" | T_IDENTIFIER => "IDENTIFIER" | T_CONST => "CONST"
  | T_CONST_CONST_CONST => "CONST_CONST_CONST" | T_VAR => "VAR"
  | T_FUNCTION => "FUNCTION" | T_FUNC => "FUNC" | T_FUN => "FUN"
  | T_FN => "FN" | T_FUNCTI => "FUNCTI" | T_F => "F" | T_UNION => "UNION"
  | T_CLASS => "CLASS" | T_CLASSNAME => "CLASSNAME" | T_IF => "IF"
  | T_ELSE => "ELSE" | T_WHEN => "WHEN" | T_RETURN => "RETURN"
  | T_PRINT => "PRINT" | T_DELETE => "DELETE" | T_IMPORT => "IMPORT"
  | T_EXPORT => "EXPORT" | T_TO => "TO" | T_REVERSE => "REVERSE"
  | T_PREVIOUS => "PREVIOUS" | T_NEXT => "NEXT" | T_CURRENT => "CURRENT"
  | T_ASYNC => "ASYNC" | T_NOOP => "NOOP" | T_USE => "USE" | T_NEW => "NEW"
  | T_AWAIT => "AWAIT" | T_PLUS => "PLUS" | T_MINUS => "MINUS"
  | T_MULTIPLY => "MULTIPLY" | T_DIVIDE => "DIVIDE" | T_POWER => "POWER"
  | T_MODULO => "MODULO" | T_INCREMENT => "INCREMENT"
  | T_DECREMENT => "DECREMENT" | T_ASSIGN => "ASSIGN"
  | T_LOOSE_EQUAL => "LOOSE_EQUAL" | T_STRICT_EQUAL => "STRICT_EQUAL"
  | T_SUPER_STRICT_EQUAL => "SUPER_STRICT_EQUAL"
  | T_VERY_LOOSE_EQUAL => "VERY_LOOSE_EQUAL" | T_NOT_EQUAL => "NOT_EQUAL"
  | T_LESS_THAN => "LESS_THAN" | T_GREATER_THAN => "GREATER_THAN"
  | T_LESS_EQUAL => "LESS_EQUAL" | T_GREATER_EQUAL => "GREATER_EQUAL"
  | T_AND => "AND" | T_OR => "OR" | T_NOT => "NOT"
  | T_SEMICOLON => "SEMICOLON" | T_COMMA => "COMMA" | T_DOT => "DOT"
  | T_COLON => "COLON" | T_ARROW => "ARROW" | T_LPAREN => "LPAREN"
  | T_RPAREN => "RPAREN" | T_LBRACE => "LBRACE" | T_RBRACE => "RBRACE"
  | T_LBRACKET => "LBRACKET" | T_RBRACKET => "RBRACKET"
  | T_ANGLE_LEFT => "ANGLE_LEFT" | T_ANGLE_RIGHT => "ANGLE_RIGHT"
  | T_EXCLAMATION => "EXCLAMATION"
  | T_INVERTED_EXCLAMATION => "INVERTED_EXCLAMATION"
  | T_QUESTION => "QUESTION" | T_NEWLINE => "NEWLINE" | T_INDENT => "INDENT"
  | T_DEDENT => "DEDENT" | T_EOF => "EOF" | T_DOLLAR => "DOLLAR"
  | T_POUND => "POUND" | T_YEN => "YEN" | T_EURO => "EURO"
  | T_FILE_SEPARATOR => "FILE_SEPARATOR"
  end.

Definition TokenType_str (t : TokenType) : string :=
  "TokenType." ++ TokenType_name t.

(** [ParseError(message, token)] *)
Record ParseError := mkParseError {
  message : string;
  token : Token }.

(** The parser object: [current_token] and the tokens after it
    ([self.tokens[self.pos + 1:]]).  [next_object] numbers the literal
    objects the parser creates. *)
Record DreamBerdParser := mkParser {
  current_token : Token;
  ahead : list Token;
  next_object : nat }.

(** [DreamBerdParser(tokens)].  The lexer always ends its output with an
    [EOF] token; an empty list, which the lexer never returns, is read as
    that token alone. *)
Definition new (tokens : list Token) (first_object : nat) : DreamBerdParser :=
  match tokens with
  | t :: l => mkParser t l first_object
  | [] => mkParser (Token4 T_EOF EmptyString 0 0) [] first_object
  end.

(** What a parsing method does: it returns, it raises [ParseError], or it
    does neither within the fuel it is given (the loops of the source can
    run for ever); [PUnmodelled] where the outcome depends on the version
    of the host. *)
Inductive presult (A : Type) :=
| POk (a : A) (p : DreamBerdParser)
| PRaise (e : ParseError)
| PTimeout
| PUnmodelled.
Arguments POk {A}.
Arguments PRaise {A}.
Arguments PTimeout {A}.
Arguments PUnmodelled {A}.

Definition M (A : Type) := DreamBerdParser -> presult A.

Definition ret {A} (a : A) : M A := fun p => POk a p.

Definition bind {A B} (m : M A) (k : A -> M B) : M B :=
  fun p =>
    match m p with
    | POk a p' => k a p'
    | PRaise e => PRaise e
    | PTimeout => PTimeout
    | PUnmodelled => PUnmodelled
    end.

Notation "x <- m ;; k" := (bind m (fun x => k))
  (at level 61, m at next level, right associativity).
Notation "m ;;; k" := (bind m (fun _ => k))
  (at level 61, right associativity).

Definition raise {A} (msg : string) : M A :=
  fun p => PRaise (mkParseError msg (current_token p)).

Definition timeout {A} : M A := fun _ => PTimeout.

Definition advance : M unit :=
  fun p =>
    match ahead p with
    | t :: l => POk tt (mkParser t l (next_object p))
    | [] => POk tt p
    end.

Definition current : M Token := fun p => POk (current_token p) p.

Definition type_in (t : TokenType) (types : list TokenType) : bool :=
  existsb (TokenType_eqb t) types.

Definition match_ (types : list TokenType) : M bool :=
  fun p => POk (type_in (tok_type (current_token p)) types) p.

Definition consume (token_type : TokenType) (message : string) : M Token :=
  tok <- current ;;
  if TokenType_eqb (tok_type tok) token_type
  then advance ;;; ret tok
  else raise message.

(** The number of iterations a loop can make when each of them consumes a
    token or raises: the tokens that are left, and the last one, on which
    [advance] stays. *)
Definition tokens_left : M nat := fun p => POk (S (S (List.length (ahead p)))) p.

(** [while self.match(t): self.advance()].  On a last token of type [t],
    [advance] does not move and the loop of the source never ends. *)
Fixpoint skip_from (t : TokenType) (cur : Token) (rest : list Token)
  : option (Token * list Token) :=
  if TokenType_eqb (tok_type cur) t then
    match rest with
    | [] => None
    | t' :: l => skip_from t t' l
    end
  else Some (cur, rest).

Definition skip (t : TokenType) : M unit :=
  fun p =>
    match skip_from t (current_token p) (ahead p) with
    | Some (t', l) => POk tt (mkParser t' l (next_object p))
    | None => PTimeout
    end.

Definition skip_newlines : M unit := skip T_NEWLINE.

Definition fresh : M ident :=
  fun p =>
    POk (Object (next_object p))
      (mkParser (current_token p) (ahead p) (S (next_object p))).

(** The identity of the object [int(value)] returns. *)
Definition new_int (z : Z) : M literal :=
  if is_small_int z then ret (LInt z Cached)
  else i <- fresh ;; ret (LInt z i).

Definition new_float (f : float) : M literal :=
  i <- fresh ;; ret (LFloat f i).

(** The identity of the text of a token, which the lexer built one
    character at a time. *)
Definition text_ident (s : string) : M ident :=
  if (2 <=? String.length s)%nat then fresh else ret Unknown.

(** [consume_statement_terminator]: the priority and the debug flag. *)
Definition consume_statement_terminator : M (Z * bool) :=
  tok <- current ;;
  if type_in (tok_type tok) [T_EXCLAMATION] then
    advance ;;; ret (tok_priority tok, false)
  else if type_in (tok_type tok) [T_INVERTED_EXCLAMATION] then
    advance ;;; ret (tok_priority tok, false)
  else if type_in (tok_type tok) [T_QUESTION] then
    advance ;;; skip T_QUESTION ;;; ret (0%Z, true)
  else ret (0%Z, false).

Definition function_keywords : list TokenType :=
  [T_FUNCTION; T_FUNC; T_FUN; T_FN; T_FUNCTI; T_F; T_UNION].

(** The loop of [parse_variable_declaration] that counts the leading
    [const] and [var]. *)
Fixpoint count_const_var (fuel : nat) (const_count var_count : nat)
  : M (nat * nat) :=
  match fuel with
  | O => timeout
  | S fuel' =>
      more <- match_ [T_CONST; T_VAR] ;;
      if more then
        is_const <- match_ [T_CONST] ;;
        advance ;;;
        if is_const then count_const_var fuel' (S const_count) var_count
        else count_const_var fuel' const_count (S var_count)
      else ret (const_count, var_count)
  end.

(** The parameter loop of [parse_function_declaration]. *)
Fixpoint parse_parameters (fuel : nat) (parameters : list string)
  : M (list string) :=
  match fuel with
  | O => timeout
  | S fuel' =>
      closing <- match_ [T_RPAREN] ;;
      if closing then ret parameters
      else
        (match parameters with
         | [] => ret tt
         | _ :: _ =>
             consume T_COMMA "Expected ',' between parameters" ;;; ret tt
         end) ;;;
        param_token <- consume T_IDENTIFIER "Expected parameter name" ;;
        parse_parameters fuel' (parameters ++ [tok_value param_token])
  end.

(** [while self.match(types): operator = self.current_token.value;
     self.advance(); right = operand();
     expr = BinaryOperation(expr, operator, right)] *)
Fixpoint binary_loop (fuel : nat) (types : list TokenType) (operand : M node)
  (expr : node) : M node :=
  match fuel with
  | O => timeout
  | S fuel' =>
      more <- match_ types ;;
      if more then
        tok <- current ;;
        advance ;;;
        right <- operand ;;
        binary_loop fuel' types operand
          (BinaryOperation expr (tok_value tok) right)
      else ret expr
  end.

Definition binary_level (types : list TokenType) (operand : M node) : M node :=
  expr <- operand ;;
  n <- tokens_left ;;
  binary_loop n types operand expr.

(** The number literal of [parse_primary], from the text of the token.
    Since Python 3.11 [int] refuses a text of more than 4300 digits. *)
Definition number_literal (value : string) : M node :=
  if char_in "/" value then
    i <- text_ident value ;; ret (NumberLiteral (LStr value i))
  else if char_in "." value then
    match float_of_digits value with
    | Some f => l <- new_float f ;; ret (NumberLiteral l)
    | None => i <- text_ident value ;; ret (NumberLiteral (LStr value i))
    end
  else
    match int_of_digits value with
    | Some z =>
        if (4300 <? String.length value)%nat then fun _ => PUnmodelled
        else l <- new_int z ;; ret (NumberLiteral l)
    | None => i <- text_ident value ;; ret (NumberLiteral (LStr value i))
    end.

(** The methods through which the parser calls itself.  A method of the
    parser below takes [self]: its calls [self.parse_expression()], ... go
    through these fields, which [methods_at] binds to the same methods with
    one unit of fuel less. *)
Record methods := mkMethods {
  self_parse_statement : M (option node);
  self_parse_block : list node -> M (list node);
  self_parse_expression : M node;
  self_parse_unary : M node;
  self_parse_primary : M node }.

(** [while not self.match(closing): if items: self.consume(COMMA, message);
     items.append(self.parse_expression())] *)
Fixpoint parse_sequence (fuel : nat) (self : methods) (closing : TokenType)
  (message : string) (items : list node) : M (list node) :=
  match fuel with
  | O => timeout
  | S fuel' =>
      done <- match_ [closing] ;;
      if done then ret items
      else
        (match items with
         | [] => ret tt
         | _ :: _ => consume T_COMMA message ;;; ret tt
         end) ;;;
        item <- self_parse_expression self ;;
        parse_sequence fuel' self closing message (items ++ [item])
  end.

Definition parse_primary (self : methods) : M node :=
  tok <- current ;;
  let t := tok_type tok in
  let value := tok_value tok in
  if type_in t [T_NUMBER] then advance ;;; number_literal value
  else if type_in t [T_STRING] then
    advance ;;; i <- text_ident value ;; ret (StringLiteral value i)
  else if type_in t [T_BOOLEAN] then
    advance ;;; ret (BooleanLiteral (String.eqb (lower value) "true"))
  else if type_in t [T_MAYBE] then advance ;;; ret MaybeLiteral
  else if type_in t [T_IDENTIFIER] then
    advance ;;;
    if String.eqb value "undefined" then ret UndefinedLiteral
    else if String.eqb value "null" then ret NullLiteral
    else ret (Identifier value)
  else if type_in t [T_LBRACKET] then
    advance ;;;
    n <- tokens_left ;;
    elements <-
      parse_sequence n self T_RBRACKET "Expected ',' between array elements"
        [] ;;
    consume T_RBRACKET "Expected ']' after array elements" ;;;
    ret (ArrayLiteral elements)
  else if type_in t [T_LPAREN] then
    advance ;;;
    expr <- self_parse_expression self ;;
    consume T_RPAREN "Expected ')' after expression" ;;;
    ret expr
  else if type_in t [T_USE] then
    advance ;;;
    consume T_LPAREN "Expected '(' after 'use'" ;;;
    initial_value <- self_parse_expression self ;;
    consume T_RPAREN "Expected ')' after use argument" ;;;
    ret (UseExpression initial_value)
  else if type_in t [T_NEW] then
    advance ;;;
    class_name_token <-
      consume T_IDENTIFIER "Expected class name after 'new'" ;;
    consume T_LPAREN "Expected '(' after class name" ;;;
    n <- tokens_left ;;
    arguments <-
      parse_sequence n self T_RPAREN "Expected ',' between arguments" [] ;;
    consume T_RPAREN "Expected ')' after new arguments" ;;;
    ret (NewExpression (tok_value class_name_token) arguments)
  else if type_in t [T_PRINT] then advance ;;; ret (Identifier "print")
  else if type_in t [T_INCREMENT] then
    advance ;;;
    target <- self_parse_primary self ;;
    ret (IncrementExpression target true)
  else if type_in t [T_DECREMENT] then
    advance ;;;
    target <- self_parse_primary self ;;
    ret (DecrementExpression target true)
  else raise ("Unexpected token " ++ TokenType_str t).

(** The [while True] loop of [parse_postfix]. *)
Fixpoint postfix_loop (fuel : nat) (self : methods) (expr : node) : M node :=
  match fuel with
  | O => timeout
  | S fuel' =>
      tok <- current ;;
      let t := tok_type tok in
      if type_in t [T_DOT] then
        advance ;;;
        prop_token <-
          consume T_IDENTIFIER "Expected property name after '.'" ;;
        postfix_loop fuel' self (MemberAccess expr (tok_value prop_token))
      else if type_in t [T_LBRACKET] then
        advance ;;;
        index <- self_parse_expression self ;;
        consume T_RBRACKET "Expected ']' after array index" ;;;
        postfix_loop fuel' self (ArrayAccess expr index)
      else if type_in t [T_LPAREN] then
        advance ;;;
        n <- tokens_left ;;
        arguments <-
          parse_sequence n self T_RPAREN "Expected ',' between arguments" [] ;;
        consume T_RPAREN "Expected ')' after function arguments" ;;;
        postfix_loop fuel' self (FunctionCall expr arguments)
      else ret expr
  end.

Definition parse_postfix (self : methods) : M node :=
  expr <- parse_primary self ;;
  n <- tokens_left ;;
  postfix_loop n self expr.

Definition parse_unary (self : methods) : M node :=
  tok <- current ;;
  let t := tok_type tok in
  if type_in t [T_NOT; T_MINUS; T_PLUS] then
    advance ;;;
    operand <- self_parse_unary self ;;
    ret (UnaryOperation (tok_value tok) operand)
  else if type_in t [T_PREVIOUS] then
    advance ;;; target <- self_parse_unary self ;;
    ret (PreviousExpression target)
  else if type_in t [T_NEXT] then
    advance ;;; target <- self_parse_unary self ;;
    ret (NextExpression target)
  else if type_in t [T_CURRENT] then
    advance ;;; target <- self_parse_unary self ;;
    ret (CurrentExpression target)
  else if type_in t [T_AWAIT] then
    advance ;;; expr <- self_parse_unary self ;;
    ret (AwaitExpression expr)
  else parse_postfix self.

Definition parse_power (self : methods) : M node :=
  binary_level [T_POWER] (parse_unary self).

Definition parse_multiplication (self : methods) : M node :=
  binary_level [T_MULTIPLY; T_DIVIDE; T_MODULO] (parse_power self).

Definition parse_addition (self : methods) : M node :=
  binary_level [T_PLUS; T_MINUS] (parse_multiplication self).

Definition parse_comparison (self : methods) : M node :=
  binary_level [T_LESS_THAN; T_GREATER_THAN; T_LESS_EQUAL; T_GREATER_EQUAL]
    (parse_addition self).

Definition parse_equality (self : methods) : M node :=
  binary_level
    [T_ASSIGN; T_LOOSE_EQUAL; T_STRICT_EQUAL; T_SUPER_STRICT_EQUAL;
     T_VERY_LOOSE_EQUAL; T_NOT_EQUAL]
    (parse_comparison self).

Definition parse_and (self : methods) : M node :=
  binary_level [T_AND] (parse_equality self).

Definition parse_or (self : methods) : M node :=
  binary_level [T_OR] (parse_and self).

(** Only [parse_or]: a single [=] is an operator of [parse_equality]. *)
Definition parse_assignment (self : methods) : M node := parse_or self.

Definition parse_expression (self : methods) : M node := parse_assignment self.

(** A body in braces, after its opening brace:
    [while not self.match(RBRACE): self.skip_newlines();
     if self.match(RBRACE): break; stmt = self.parse_statement();
     if stmt: body.append(stmt)].  At the end of the input
    [parse_statement] returns [None] and the loop of the source goes on for
    ever. *)
Definition parse_block (self : methods) (body : list node) : M (list node) :=
  closing <- match_ [T_RBRACE] ;;
  if closing then ret body
  else
    skip_newlines ;;;
    closing <- match_ [T_RBRACE] ;;
    if closing then ret body
    else
      stmt <- self_parse_statement self ;;
      match stmt with
      | Some s => self_parse_block self (body ++ [s])
      | None => self_parse_block self body
      end.

Definition parse_variable_declaration (self : methods) : M node :=
  global <- match_ [T_CONST_CONST_CONST] ;;
  if global then
    advance ;;;
    name_token <- consume T_IDENTIFIER "Expected variable name" ;;
    consume T_ASSIGN "Expected '=' in const const const declaration" ;;;
    value <- parse_expression self ;;
    pd <- consume_statement_terminator ;;
    ret (GlobalConstantDeclaration (tok_value name_token) value (fst pd))
  else
    n <- tokens_left ;;
    counts <- count_const_var n 0 0 ;;
    name_token <- consume T_IDENTIFIER "Expected variable name" ;;
    has_lifetime <- match_ [T_LESS_THAN] ;;
    lifetime <-
      (if has_lifetime then
         advance ;;;
         lifetime_token <- consume T_IDENTIFIER "Expected lifetime" ;;
         consume T_GREATER_THAN "Expected '>' after lifetime" ;;;
         ret (Some (tok_value lifetime_token))
       else ret None) ;;
    has_type <- match_ [T_COLON] ;;
    type_annotation <-
      (if has_type then
         advance ;;;
         type_token <- consume T_IDENTIFIER "Expected type name" ;;
         ret (Some (tok_value type_token))
       else ret None) ;;
    has_value <- match_ [T_ASSIGN] ;;
    value <-
      (if has_value then
         advance ;;; v <- parse_expression self ;; ret (Some v)
       else ret None) ;;
    pd <- consume_statement_terminator ;;
    ret (VariableDeclaration (fst counts) (snd counts) (tok_value name_token)
           value lifetime (fst pd) type_annotation).

(** [parse_function_declaration]; [is_async] is the flag its caller sets on
    the node it returns. *)
Definition parse_function_declaration (self : methods) (is_async : bool)
  : M node :=
  keyword_token <- current ;;
  advance ;;;
  name_token <- consume T_IDENTIFIER "Expected function name" ;;
  has_parameters <- match_ [T_LPAREN] ;;
  parameters <-
    (if has_parameters then
       advance ;;;
       n <- tokens_left ;;
       ps <- parse_parameters n [] ;;
       consume T_RPAREN "Expected ')' after parameters" ;;;
       ret ps
     else ret []) ;;
  consume T_ARROW "Expected '=>' after function signature" ;;;
  block <- match_ [T_LBRACE] ;;
  body <-
    (if block then
       advance ;;;
       stmts <- parse_block self [] ;;
       consume T_RBRACE "Expected '}' after function body" ;;;
       ret (inr stmts)
     else e <- parse_expression self ;; ret (inl e)) ;;
  consume_statement_terminator ;;;
  ret (FunctionDeclaration (tok_value keyword_token) (tok_value name_token)
         parameters body is_async).

Definition parse_class_declaration (self : methods) : M node :=
  keyword_token <- current ;;
  advance ;;;
  name_token <- consume T_IDENTIFIER "Expected class name" ;;
  consume T_LBRACE "Expected '{' after class name" ;;;
  body <- parse_block self [] ;;
  consume T_RBRACE "Expected '}' after class body" ;;;
  ret (ClassDeclaration (tok_value keyword_token) (tok_value name_token) body).

Definition parse_if_statement (self : methods) : M node :=
  advance ;;;
  consume T_LPAREN "Expected '(' after 'if'" ;;;
  condition <- parse_expression self ;;
  consume T_RPAREN "Expected ')' after if condition" ;;;
  consume T_LBRACE "Expected '{' after if condition" ;;;
  then_body <- parse_block self [] ;;
  consume T_RBRACE "Expected '}' after if body" ;;;
  has_else <- match_ [T_ELSE] ;;
  else_body <-
    (if has_else then
       advance ;;;
       consume T_LBRACE "Expected '{' after 'else'" ;;;
       stmts <- parse_block self [] ;;
       consume T_RBRACE "Expected '}' after else body" ;;;
       ret (Some stmts)
     else ret None) ;;
  ret (IfStatement condition then_body else_body).

Definition parse_when_statement (self : methods) : M node :=
  advance ;;;
  consume T_LPAREN "Expected '(' after 'when'" ;;;
  condition <- parse_expression self ;;
  consume T_RPAREN "Expected ')' after when condition" ;;;
  consume T_LBRACE "Expected '{' after when condition" ;;;
  body <- parse_block self [] ;;
  consume T_RBRACE "Expected '}' after when body" ;;;
  ret (WhenStatement condition body).

Definition parse_return_statement (self : methods) : M node :=
  advance ;;;
  bare <- match_ [T_EXCLAMATION; T_QUESTION; T_NEWLINE; T_EOF] ;;
  value <-
    (if bare then ret None
     else v <- parse_expression self ;; ret (Some v)) ;;
  consume_statement_terminator ;;;
  ret (ReturnStatement value).

Definition parse_delete_statement (self : methods) : M node :=
  advance ;;;
  target <- parse_expression self ;;
  consume_statement_terminator ;;;
  ret (DeleteStatement target).

Definition parse_import_statement : M node :=
  advance ;;;
  name_token <- consume T_IDENTIFIER "Expected import name" ;;
  consume_statement_terminator ;;;
  ret (ImportStatement (tok_value name_token)).

Definition parse_export_statement : M node :=
  advance ;;;
  name_token <- consume T_IDENTIFIER "Expected export name" ;;
  consume T_TO "Expected 'to' after export name" ;;;
  target_token <- consume T_STRING "Expected target file name" ;;
  consume_statement_terminator ;;;
  ret (ExportStatement (tok_value name_token) (tok_value target_token)).

(** [parse_statement] from its test for a class declaration on: where the
    method arrives when no declaration of a variable or function starts
    the statement, also after an [async] that no function keyword
    follows. *)
Definition parse_other_statement (self : methods) : M (option node) :=
  tok <- current ;;
  let t := tok_type tok in
  if type_in t [T_CLASS; T_CLASSNAME] then
    d <- parse_class_declaration self ;; ret (Some d)
  else if type_in t [T_IF] then
    d <- parse_if_statement self ;; ret (Some d)
  else if type_in t [T_WHEN] then
    d <- parse_when_statement self ;; ret (Some d)
  else if type_in t [T_RETURN] then
    d <- parse_return_statement self ;; ret (Some d)
  else if type_in t [T_DELETE] then
    d <- parse_delete_statement self ;; ret (Some d)
  else if type_in t [T_IMPORT] then
    d <- parse_import_statement ;; ret (Some d)
  else if type_in t [T_EXPORT] then
    d <- parse_export_statement ;; ret (Some d)
  else if type_in t [T_REVERSE] then
    advance ;;;
    consume_statement_terminator ;;;
    ret (Some ReverseStatement)
  else if type_in t [T_STRING] then
    advance ;;;
    consume_statement_terminator ;;;
    ret (Some (NoopStatement (tok_value tok)))
  else
    expr <- parse_expression self ;;
    pd <- consume_statement_terminator ;;
    ret (Some (ExpressionStatement expr (fst pd) (snd pd))).

Definition parse_statement (self : methods) : M (option node) :=
  skip_newlines ;;;
  tok <- current ;;
  let t := tok_type tok in
  if type_in t [T_EOF] then ret None
  else if type_in t [T_CONST; T_VAR; T_CONST_CONST_CONST] then
    d <- parse_variable_declaration self ;; ret (Some d)
  else if type_in t function_keywords then
    d <- parse_function_declaration self false ;; ret (Some d)
  else if type_in t [T_ASYNC] then
    advance ;;;
    is_function <- match_ function_keywords ;;
    if is_function then
      d <- parse_function_declaration self true ;; ret (Some d)
    else parse_other_statement self
  else parse_other_statement self.

(** The parser whose calls to itself can nest [fuel] deep. *)
Fixpoint methods_at (fuel : nat) : methods :=
  match fuel with
  | O => mkMethods timeout (fun _ => timeout) timeout timeout timeout
  | S fuel' =>
      let self := methods_at fuel' in
      mkMethods (parse_statement self) (parse_block self)
        (parse_expression self) (parse_unary self) (parse_primary self)
  end.

(** The body of a file block of [parse]:
    [while not self.match(FILE_SEPARATOR, EOF): self.skip_newlines();
     if not self.match(FILE_SEPARATOR, EOF): stmt = self.parse_statement();
     if stmt: file_body.append(stmt)] *)
Fixpoint parse_file_body (fuel : nat) (self : methods) (file_body : list node)
  : M (list node) :=
  match fuel with
  | O => timeout
  | S fuel' =>
      done <- match_ [T_FILE_SEPARATOR; T_EOF] ;;
      if done then ret file_body
      else
        skip_newlines ;;;
        done <- match_ [T_FILE_SEPARATOR; T_EOF] ;;
        if done then parse_file_body fuel' self file_body
        else
          stmt <- parse_statement self ;;
          match stmt with
          | Some s => parse_file_body fuel' self (file_body ++ [s])
          | None => parse_file_body fuel' self file_body
          end
  end.

(** The main loop of [parse]. *)
Fixpoint parse_loop (fuel : nat) (self : methods) (statements : list node)
  : M (list node) :=
  match fuel with
  | O => timeout
  | S fuel' =>
      done <- match_ [T_EOF] ;;
      if done then ret statements
      else
        skip_newlines ;;;
        done <- match_ [T_EOF] ;;
        if done then ret statements
        else
          separator <- match_ [T_FILE_SEPARATOR] ;;
          if separator then
            advance ;;;
            tok <- current ;;
            file_name <-
              (if type_in (tok_type tok) [T_IDENTIFIER]
               then advance ;;; ret (Some (tok_value tok))
               else ret None) ;;
            file_body <- parse_file_body fuel' self [] ;;
            parse_loop fuel' self
              (statements ++ [FileBlock file_name file_body])
          else
            stmt <- parse_statement self ;;
            match stmt with
            | Some s => parse_loop fuel' self (statements ++ [s])
            | None => parse_loop fuel' self statements
            end
  end.

(** [parse], for a parser whose methods can nest [fuel] deep and whose
    loops over the statements of the program can make [fuel] iterations. *)
Definition parse (fuel : nat) : M node :=
  statements <- parse_loop fuel (methods_at fuel) [] ;;
  ret (Program statements).

(** The fuel [parse_dreamberd] gives the parser.  A parse that returns makes
    no more nested calls and no more iterations than there are tokens. *)
Definition parse_fuel (tokens : list Token) : nat :=
  S (S (List.length tokens)).

(** [parse_dreamberd(source)], with the number of the first object the
    parser may allocate. *)
Definition parse_dreamberd (source : string) (first_object : nat)
  : presult node :=
  let tokens := Lexer.tokenize (Lexer.new source) in
  parse (parse_fuel tokens) (new tokens first_object).

End Parser.

(** ** dreamberd_interpreter.py *)

Module Interpreter.

(** *** Values

    The objects a DreamBerd expression evaluates to.  Immutable numbers and
    texts carry their identity; a list, a signal, an instance and a
    [Maybe] are known by their reference. *)
Inductive value :=
| VInt (z : Z) (i : ident)
| VFloat (f : float) (i : ident)
| VStr (s : string) (i : ident)
| VBool (b : bool)
| VNone
| VMaybe (a : nat)
| VList (a : nat)
| VPrint
| VDate
| VFunction (decl : node)
| VSignal (a : nat)
| VInstance (a : nat).

(** The exceptions of the host that the embedding tells apart. *)
Inductive py_exception :=
| ZeroDivisionError | TypeError | ValueError | OverflowError
| AttributeError | RecursionError.

(** What is raised: [DreamBerdError(message)], the parser's [ParseError],
    an exception of the host, and the [DreamBerdError] in which [interpret]
    wraps whatever its body raised. *)
Inductive exn :=
| DreamBerdError (message : string)
| ParseError (e : Parser.ParseError)
| PyError (e : py_exception)
| InterpretationError (cause : exn).

Definition is_DreamBerdError (e : exn) : bool :=
  match e with
  | DreamBerdError _ | InterpretationError _ => true
  | _ => false
  end.

(** [DreamBerdValue]: the wrapper of a binding.  [priority] is the
    attribute [visit_VariableDeclaration] adds to the wrappers it makes. *)
Record DreamBerdValue := mkValue {
  value_ : value;
  deleted : bool;
  lifetime : option float;
  history : list value;
  priority : option Z }.

(** [DreamBerdValue(value, lifetime=lifetime)] *)
Definition new_value (v : value) (lifetime : option float) : DreamBerdValue :=
  mkValue v false lifetime [v] None.

(** [set_value] *)
Definition set_value (new_value : value) (w : DreamBerdValue)
  : DreamBerdValue :=
  mkValue new_value (deleted w) (lifetime w) (history w ++ [new_value])
    (priority w).

(** [get_previous]: [self.history[-2]] when there are two entries. *)
Definition get_previous (w : DreamBerdValue) : value :=
  match rev (history w) with
  | _ :: previous :: _ => previous
  | _ => value_ w
  end.

Definition get_current (w : DreamBerdValue) : value := value_ w.

Definition set_deleted (w : DreamBerdValue) : DreamBerdValue :=
  mkValue (value_ w) true (lifetime w) (history w) (priority w).

Definition set_priority (p : Z) (w : DreamBerdValue) : DreamBerdValue :=
  mkValue (value_ w) (deleted w) (lifetime w) (history w) (Some p).

(** A Python [dict] with text keys: the items in insertion order. *)
Definition dict (A : Type) := list (string * A).

Definition dict_get {A} (k : string) (d : dict A) : option A := assoc k d.

Definition dict_mem {A} (k : string) (d : dict A) : bool :=
  match assoc k d with Some _ => true | None => false end.

Fixpoint dict_set {A} (k : string) (v : A) (d : dict A) : dict A :=
  match d with
  | [] => [(k, v)]
  | (k', v') :: d' =>
      if String.eqb k k' then (k, v) :: d' else (k', v') :: dict_set k v d'
  end.

Fixpoint dict_del {A} (k : string) (d : dict A) : dict A :=
  match d with
  | [] => []
  | (k', v') :: d' =>
      if String.eqb k k' then d' else (k', v') :: dict_del k d'
  end.

(** A scope maps a name to the reference of its [DreamBerdValue]. *)
Definition scope := dict nat.

(** The interpreter object, and the objects it refers to.
    - [scope_stack] has the innermost scope first; its last element is
      [self.global_scope].
    - [wrappers], [lists], [signals] and [instances] are the stores of the
      mutable objects, addressed by position: the [DreamBerdValue]
      wrappers, the Python lists, the [value] attribute of each signal
      function, and the instance dictionaries.
    - [next_object] numbers the immutable objects, [next_maybe] the
      [Maybe] objects.
    - [clock] is the host's clock: [clock n] is what the [n]-th call of
      [time.time()] of the run returns; [clock_reads] counts the calls. *)
Record DreamBerdInterpreter := mkInterp {
  scope_stack : list scope;
  wrappers : list DreamBerdValue;
  lists : list (list value);
  signals : list value;
  instances : list (dict value);
  functions : dict node;
  classes : dict node;
  class_instances : dict value;
  deleted_values : list value;
  reversed : bool;
  output : list string;
  immutable_globals : list string;
  next_object : nat;
  next_maybe : nat;
  clock : nat -> float;
  clock_reads : nat }.

Definition with_scope_stack (x : list scope) (s : DreamBerdInterpreter) :=
  mkInterp x (wrappers s) (lists s) (signals s) (instances s) (functions s)
    (classes s) (class_instances s) (deleted_values s) (reversed s)
    (output s) (immutable_globals s) (next_object s) (next_maybe s) (clock s)
    (clock_reads s).

Definition with_wrappers (x : list DreamBerdValue) (s : DreamBerdInterpreter) :=
  mkInterp (scope_stack s) x (lists s) (signals s) (instances s) (functions s)
    (classes s) (class_instances s) (deleted_values s) (reversed s)
    (output s) (immutable_globals s) (next_object s) (next_maybe s) (clock s)
    (clock_reads s).

Definition with_lists (x : list (list value)) (s : DreamBerdInterpreter) :=
  mkInterp (scope_stack s) (wrappers s) x (signals s) (instances s)
    (functions s) (classes s) (class_instances s) (deleted_values s)
    (reversed s) (output s) (immutable_globals s) (next_object s)
    (next_maybe s) (clock s) (clock_reads s).

Definition with_signals (x : list value) (s : DreamBerdInterpreter) :=
  mkInterp (scope_stack s) (wrappers s) (lists s) x (instances s)
    (functions s) (classes s) (class_instances s) (deleted_values s)
    (reversed s) (output s) (immutable_globals s) (next_object s)
    (next_maybe s) (clock s) (clock_reads s).

Definition with_instances (x : list (dict value)) (s : DreamBerdInterpreter) :=
  mkInterp (scope_stack s) (wrappers s) (lists s) (signals s) x (functions s)
    (classes s) (class_instances s) (deleted_values s) (reversed s)
    (output s) (immutable_globals s) (next_object s) (next_maybe s) (clock s)
    (clock_reads s).

Definition with_functions (x : dict node) (s : DreamBerdInterpreter) :=
  mkInterp (scope_stack s) (wrappers s) (lists s) (signals s) (instances s) x
    (classes s) (class_instances s) (deleted_values s) (reversed s)
    (output s) (immutable_globals s) (next_object s) (next_maybe s) (clock s)
    (clock_reads s).

Definition with_classes (x : dict node) (s : DreamBerdInterpreter) :=
  mkInterp (scope_stack s) (wrappers s) (lists s) (signals s) (instances s)
    (functions s) x (class_instances s) (deleted_values s) (reversed s)
    (output s) (immutable_globals s) (next_object s) (next_maybe s) (clock s)
    (clock_reads s).

Definition with_class_instances (x : dict value) (s : DreamBerdInterpreter) :=
  mkInterp (scope_stack s) (wrappers s) (lists s) (signals s) (instances s)
    (functions s) (classes s) x (deleted_values s) (reversed s) (output s)
    (immutable_globals s) (next_object s) (next_maybe s) (clock s)
    (clock_reads s).

Definition with_deleted_values (x : list value) (s : DreamBerdInterpreter) :=
  mkInterp (scope_stack s) (wrappers s) (lists s) (signals s) (instances s)
    (functions s) (classes s) (class_instances s) x (reversed s) (output s)
    (immutable_globals s) (next_object s) (next_maybe s) (clock s)
    (clock_reads s).

Definition with_reversed (x : bool) (s : DreamBerdInterpreter) :=
  mkInterp (scope_stack s) (wrappers s) (lists s) (signals s) (instances s)
    (functions s) (classes s) (class_instances s) (deleted_values s) x
    (output s) (immutable_globals s) (next_object s) (next_maybe s) (clock s)
    (clock_reads s).

Definition with_output (x : list string) (s : DreamBerdInterpreter) :=
  mkInterp (scope_stack s) (wrappers s) (lists s) (signals s) (instances s)
    (functions s) (classes s) (class_instances s) (deleted_values s)
    (reversed s) x (immutable_globals s) (next_object s) (next_maybe s)
    (clock s) (clock_reads s).

Definition with_immutable_globals (x : list string) (s : DreamBerdInterpreter) :=
  mkInterp (scope_stack s) (wrappers s) (lists s) (signals s) (instances s)
    (functions s) (classes s) (class_instances s) (deleted_values s)
    (reversed s) (output s) x (next_object s) (next_maybe s) (clock s)
    (clock_reads s).

Definition with_next_object (x : nat) (s : DreamBerdInterpreter) :=
  mkInterp (scope_stack s) (wrappers s) (lists s) (signals s) (instances s)
    (functions s) (classes s) (class_instances s) (deleted_values s)
    (reversed s) (output s) (immutable_globals s) x (next_maybe s) (clock s)
    (clock_reads s).

Definition with_next_maybe (x : nat) (s : DreamBerdInterpreter) :=
  mkInterp (scope_stack s) (wrappers s) (lists s) (signals s) (instances s)
    (functions s) (classes s) (class_instances s) (deleted_values s)
    (reversed s) (output s) (immutable_globals s) (next_object s) x (clock s)
    (clock_reads s).

Definition with_clock_reads (x : nat) (s : DreamBerdInterpreter) :=
  mkInterp (scope_stack s) (wrappers s) (lists s) (signals s) (instances s)
    (functions s) (classes s) (class_instances s) (deleted_values s)
    (reversed s) (output s) (immutable_globals s) (next_object s)
    (next_maybe s) (clock s) x.

(** *** The monad of the interpreter

    A method returns, raises, does neither within its fuel ([Timeout]), or
    does what the embedding leaves to the host ([Unmodelled]: an attribute
    of a host object, the text of a float, the coin of [Maybe], ...).  The
    state is returned in every case: what a method did before it raised
    stays done. *)
Inductive result (A : Type) :=
| Ok (a : A)
| Raise (e : exn)
| Timeout
| Unmodelled.
Arguments Ok {A}.
Arguments Raise {A}.
Arguments Timeout {A}.
Arguments Unmodelled {A}.

Definition M (A : Type) := DreamBerdInterpreter -> result A * DreamBerdInterpreter.

Definition ret {A} (a : A) : M A := fun s => (Ok a, s).

Definition bind {A B} (m : M A) (k : A -> M B) : M B :=
  fun s =>
    match m s with
    | (Ok a, s') => k a s'
    | (Raise e, s') => (Raise e, s')
    | (Timeout, s') => (Timeout, s')
    | (Unmodelled, s') => (Unmodelled, s')
    end.

Notation "x <- m ;; k" := (bind m (fun x => k))
  (at level 61, m at next level, right associativity).
Notation "m ;;; k" := (bind m (fun _ => k))
  (at level 61, right associativity).

Definition raise {A} (e : exn) : M A := fun s => (Raise e, s).
Definition error {A} (message : string) : M A := raise (DreamBerdError message).
Definition py_raise {A} (e : py_exception) : M A := raise (PyError e).
Definition timeout {A} : M A := fun s => (Timeout, s).
Definition unmodelled {A} : M A := fun s => (Unmodelled, s).

Definition get : M DreamBerdInterpreter := fun s => (Ok s, s).
Definition modify (f : DreamBerdInterpreter -> DreamBerdInterpreter) : M unit :=
  fun s => (Ok tt, f s).

(** A result that needs no state. *)
Definition lift {A} (r : result A) : M A := fun s => (r, s).

(** [try: m  except DreamBerdError: handler] *)
Definition try_except {A} (m : M A) (handler : exn -> M A) : M A :=
  fun s =>
    match m s with
    | (Raise e, s') => if is_DreamBerdError e then handler e s' else (Raise e, s')
    | r => r
    end.

(** [try: m  finally: cleanup] *)
Definition try_finally {A} (m : M A) (cleanup : M unit) : M A :=
  fun s =>
    match m s with
    | (Ok a, s') => (cleanup ;;; ret a) s'
    | (Raise e, s') => (cleanup ;;; raise e) s'
    | r => r
    end.

(** [for x in l: f(x)], the results collected. *)
Fixpoint for_each {A B} (f : A -> M B) (l : list A) : M (list B) :=
  match l with
  | [] => ret []
  | x :: l' => y <- f x ;; ys <- for_each f l' ;; ret (y :: ys)
  end.

(** *** The stores *)

Fixpoint update_nth {A} (n : nat) (f : A -> A) (l : list A) : list A :=
  match l, n with
  | [], _ => []
  | x :: l', O => f x :: l'
  | x :: l', S n' => x :: update_nth n' f l'
  end.

(** A new [DreamBerdValue] object; the result is its reference. *)
Definition alloc_wrapper (w : DreamBerdValue) : M nat :=
  fun s => (Ok (List.length (wrappers s)), with_wrappers (wrappers s ++ [w]) s).

Definition read_wrapper (ref : nat) : M DreamBerdValue :=
  fun s =>
    match nth_error (wrappers s) ref with
    | Some w => (Ok w, s)
    | None => (Unmodelled, s)
    end.

Definition update_wrapper (ref : nat) (f : DreamBerdValue -> DreamBerdValue)
  : M unit :=
  modify (fun s => with_wrappers (update_nth ref f (wrappers s)) s).

Definition alloc_list (l : list value) : M value :=
  fun s => (Ok (VList (List.length (lists s))), with_lists (lists s ++ [l]) s).

Definition read_list (a : nat) : M (list value) :=
  fun s =>
    match nth_error (lists s) a with
    | Some l => (Ok l, s)
    | None => (Unmodelled, s)
    end.

Definition fresh : M ident :=
  fun s => (Ok (Object (next_object s)), with_next_object (S (next_object s)) s).

(** The object of an [int] result: one of the shared small integers, or a
    new object. *)
Definition new_int (z : Z) : M value :=
  if is_small_int z then ret (VInt z Cached)
  else i <- fresh ;; ret (VInt z i).

(** The object of a [float] result: always a new one. *)
Definition new_float (f : float) : M value :=
  i <- fresh ;; ret (VFloat f i).

(** [time.time()] *)
Definition time_time : M float :=
  fun s => (Ok (clock s (clock_reads s)), with_clock_reads (S (clock_reads s)) s).

(** *** The host's operations on values *)

(** [int] and [bool] (a subclass of [int]) on one side, [float] on the
    other. *)
Inductive number := NInt (z : Z) | NFloat (f : float).

Definition as_number (v : value) : option number :=
  match v with
  | VInt z _ => Some (NInt z)
  | VBool b => Some (NInt (if b then 1 else 0)%Z)
  | VFloat f _ => Some (NFloat f)
  | _ => None
  end.

(** [isinstance(v, int)] *)
Definition is_int (v : value) : bool :=
  match v with VInt _ _ | VBool _ => true | _ => false end.

(** [isinstance(v, float)] *)
Definition is_float (v : value) : bool :=
  match v with VFloat _ _ => true | _ => false end.

Definition half : float := S754_finite false 4503599627370496 (-53).

(** The order of an [int] and a [float], which Python compares exactly. *)
Definition compare_Z_float (a : Z) (f : float) : option comparison :=
  match f with
  | S754_nan => None
  | S754_infinity s => Some (if s then Gt else Lt)
  | S754_zero _ => Some (a ?= 0)%Z
  | S754_finite s m e =>
      let sm := if s then Zneg m else Zpos m in
      Some (if (0 <=? e)%Z then (a ?= sm * 2 ^ e)%Z
            else (a * 2 ^ (- e) ?= sm)%Z)
  end.

Definition num_compare (a b : number) : option comparison :=
  match a, b with
  | NInt x, NInt y => Some (x ?= y)%Z
  | NFloat x, NFloat y => SFcompare x y
  | NInt x, NFloat y => compare_Z_float x y
  | NFloat x, NInt y => option_map CompOpp (compare_Z_float y x)
  end.

Definition num_eqb (a b : number) : bool :=
  match num_compare a b with Some Eq => true | _ => false end.

(** The [float] operand of a mixed operation; [None] is [OverflowError]. *)
Definition to_float (a : number) : option float :=
  match a with
  | NInt z => float_of_Z z
  | NFloat f => Some f
  end.

(** [int(f)]: truncation towards zero. *)
Definition int_of_float (f : float) : result Z :=
  match f with
  | S754_nan => Raise (PyError ValueError)
  | S754_infinity _ => Raise (PyError OverflowError)
  | S754_zero _ => Ok 0%Z
  | S754_finite s m e =>
      let magnitude :=
        if (0 <=? e)%Z then (Zpos m * 2 ^ e)%Z else (Zpos m / 2 ^ (- e))%Z in
      Ok (if s then (- magnitude)%Z else magnitude)
  end.

Definition sign_and_digits (s : string) : bool * string :=
  match s with
  | String "-" t => (true, t)
  | String "+" t => (false, t)
  | _ => (false, s)
  end.

Definition is_space (c : ascii) : bool :=
  let n := ord c in
  between 9 n 13 || between 28 n 32 || (n =? 133)%nat || (n =? 160)%nat.

(** [int(s)] for a text [s].  A sign and ASCII digits make a number; a text
    with a character that no numeral has raises [ValueError]; the
    embedding leaves out the numerals with blanks or underscores. *)
Definition py_int (s : string) : result Z :=
  let '(negative, digits) := sign_and_digits s in
  match int_of_digits digits with
  | Some z =>
      if (4300 <? String.length digits)%nat then Unmodelled
      else Ok (if negative then (- z)%Z else z)
  | None =>
      if existsb (fun c => is_space c || Ascii.eqb c "_") (list_ascii_of_string s)
      then Unmodelled else Raise (PyError ValueError)
  end.

(** [float(s)] for a text [s].  A sign, ASCII digits and one decimal point
    make a number; a text with a character that no numeral has raises
    [ValueError]; the embedding leaves out exponents, blanks, underscores,
    infinities and NaN. *)
Definition py_float (s : string) : result float :=
  let '(negative, digits) := sign_and_digits s in
  match float_of_digits digits with
  | Some f => Ok (if negative then SFopp f else f)
  | None =>
      if existsb
           (fun c => is_space c || char_in (lower_char c) "_einftya")
           (list_ascii_of_string s)
      then Unmodelled else Raise (PyError ValueError)
  end.

(** [text.split('/')]: the first two parts, when there are two. *)
Definition split_fraction (text : string) : option (string * string) :=
  match split_at "/" text with
  | (first, Some more) => Some (first, fst (split_at "/" more))
  | (_, None) => None
  end.

(** [float(parts[0]) / float(parts[1])] for the parts of a fraction. *)
Definition fraction_value (text : string) : result float :=
  match split_fraction text with
  | None => Unmodelled
  | Some (numerator, denominator) =>
      match py_float numerator with
      | Ok n =>
          match py_float denominator with
          | Ok d =>
              if float_is_zero d then Raise (PyError ZeroDivisionError)
              else Ok (SFdiv prec emax n d)
          | Raise e => Raise e
          | Timeout => Timeout
          | Unmodelled => Unmodelled
          end
      | Raise e => Raise e
      | Timeout => Timeout
      | Unmodelled => Unmodelled
      end
  end.

(** [type(v).__name__] *)
Definition type_name (v : value) : string :=
  match v with
  | VInt _ _ => "int"
  | VFloat _ _ => "float"
  | VStr _ _ => "str"
  | VBool _ => "bool"
  | VNone => "NoneType"
  | VMaybe _ => "Maybe"
  | VList _ => "list"
  | VPrint => "function"
  | VDate => "DateObject"
  | VFunction _ => "FunctionDeclaration"
  | VSignal _ => "function"
  | VInstance _ => "dict"
  end.

(** [type(a) == type(b)] *)
Definition same_type (a b : value) : bool :=
  String.eqb (type_name a) (type_name b).

(** Whether [hash(v)] is defined: lists, dictionaries and the instances of
    a dataclass with [eq] are unhashable. *)
Definition hashable (v : value) : bool :=
  match v with
  | VList _ | VInstance _ | VFunction _ => false
  | _ => true
  end.

Definition string_of_Z (z : Z) : string := NilZero.string_of_int (Z.to_int z).

(** [str(v)], with [repr] of the elements of a list.  The embedding leaves
    out the texts of floats, of function objects and of dictionaries,
    [repr] of a text, and the lists nested deeper than [depth]. *)
Fixpoint py_str (depth : nat) (heap : list (list value)) (top : bool)
  (v : value) : result string :=
  match v with
  | VInt z _ =>
      let text := string_of_Z z in
      if (4300 <? String.length text)%nat then Unmodelled else Ok text
  | VStr s _ => if top then Ok s else Unmodelled
  | VBool b => Ok (if b then "True" else "False")
  | VNone => Ok "None"
  | VMaybe _ => if top then Ok "maybe" else Unmodelled
  | VList a =>
      match depth, nth_error heap a with
      | S depth', Some l =>
          let fix join (l : list value) (first : bool) : result string :=
            match l with
            | [] => Ok EmptyString
            | x :: l' =>
                match py_str depth' heap false x, join l' false with
                | Ok sx, Ok sl =>
                    Ok ((if first then sx else ", " ++ sx) ++ sl)%string
                | Raise e, _ => Raise e
                | Timeout, _ => Timeout
                | Unmodelled, _ => Unmodelled
                | _, r => r
                end
            end in
          match join l true with
          | Ok body => Ok ("[" ++ body ++ "]")%string
          | r => r
          end
      | _, _ => Unmodelled
      end
  | _ => Unmodelled
  end.

(** [bool(v)].  [Maybe.__bool__] tosses a coin. *)
Definition truthy (v : value) : M bool :=
  match v with
  | VInt z _ => ret (negb (z =? 0)%Z)
  | VFloat f _ => ret (negb (float_is_zero f))
  | VStr s _ => ret (negb (String.eqb s EmptyString))
  | VBool b => ret b
  | VNone => ret false
  | VMaybe _ => unmodelled
  | VList a => l <- read_list a ;; ret (negb (Nat.eqb (List.length l) 0))
  | VInstance a =>
      s <- get ;;
      match nth_error (instances s) a with
      | Some d => ret (negb (Nat.eqb (List.length d) 0))
      | None => unmodelled
      end
  | VPrint | VDate | VFunction _ | VSignal _ => ret true
  end.

Definition same_ident (i j : ident) : option bool :=
  match i, j with
  | Cached, Cached => Some true
  | Object a, Object b => Some (Nat.eqb a b)
  | Cached, Object _ | Object _, Cached => Some false
  | _, _ => None
  end.

(** [a is b]; [None] where the embedding leaves the sharing open. *)
Definition py_is (a b : value) : option bool :=
  match a, b with
  | VInt x i, VInt y j => if (x =? y)%Z then same_ident i j else Some false
  | VFloat x i, VFloat y j =>
      if float_eq_dec x y then same_ident i j else Some false
  | VStr x i, VStr y j => if String.eqb x y then same_ident i j else Some false
  | VBool x, VBool y => Some (Bool.eqb x y)
  | VNone, VNone => Some true
  | VMaybe x, VMaybe y => Some (Nat.eqb x y)
  | VList x, VList y => Some (Nat.eqb x y)
  | VPrint, VPrint => Some true
  | VDate, VDate => Some true
  | VFunction _, VFunction _ => None
  | VSignal x, VSignal y => Some (Nat.eqb x y)
  | VInstance x, VInstance y => Some (Nat.eqb x y)
  | _, _ => Some false
  end.

Definition lift_option {A} (o : option A) : result A :=
  match o with Some a => Ok a | None => Unmodelled end.

(** [a == b].  The elements of two lists are compared as the host does:
    two elements are equal when they are the same object or [==] holds.
    The host gives up, with [RecursionError], on lists nested too deep;
    [depth] is the depth the comparison may reach. *)
Fixpoint py_eq (depth : nat) (heap : list (list value)) (a b : value)
  : result bool :=
  match as_number a, as_number b with
  | Some x, Some y => Ok (num_eqb x y)
  | _, _ =>
      match a, b with
      | VStr x _, VStr y _ => Ok (String.eqb x y)
      | VNone, VNone => Ok true
      | VMaybe x, VMaybe y => Ok (Nat.eqb x y)
      | VPrint, VPrint => Ok true
      | VDate, VDate => Ok true
      | VSignal x, VSignal y => Ok (Nat.eqb x y)
      | VFunction _, VFunction _ => Unmodelled
      | VInstance x, VInstance y => if Nat.eqb x y then Ok true else Unmodelled
      | VList x, VList y =>
          match depth, nth_error heap x, nth_error heap y with
          | S depth', Some lx, Some ly =>
              let fix all (lx ly : list value) : result bool :=
                match lx, ly with
                | [], [] => Ok true
                | ex :: lx', ey :: ly' =>
                    let same :=
                      match py_is ex ey with
                      | Some true => Ok true
                      | Some false => py_eq depth' heap ex ey
                      | None =>
                          match py_eq depth' heap ex ey with
                          | Ok true => Ok true
                          | Ok false => Unmodelled
                          | r => r
                          end
                      end in
                    match same with
                    | Ok true => all lx' ly'
                    | r => r
                    end
                | _, _ => Ok false
                end in
              if Nat.eqb (List.length lx) (List.length ly) then all lx ly
              else Ok false
          | O, Some _, Some _ => Raise (PyError RecursionError)
          | _, _, _ => Unmodelled
          end
      | _, _ => Ok false
      end
  end.

(** [v == 0] *)
Definition equals_zero (v : value) : bool :=
  match as_number v with
  | Some x => num_eqb x (NInt 0)
  | None => false
  end.

(** [v in self.deleted_values].  The set holds numbers and texts only. *)
Definition in_deleted (v : value) : M bool :=
  if hashable v then
    s <- get ;;
    ret (existsb
           (fun d =>
              match as_number v, as_number d with
              | Some x, Some y => num_eqb x y
              | _, _ =>
                  match v, d with
                  | VStr x _, VStr y _ => String.eqb x y
                  | _, _ => false
                  end
              end)
           (deleted_values s))
  else py_raise TypeError.

Fixpoint string_ltb (a b : string) : bool :=
  match a, b with
  | _, EmptyString => false
  | EmptyString, String _ _ => true
  | String x a', String y b' =>
      if (ord x <? ord y)%nat then true
      else if (ord y <? ord x)%nat then false
      else string_ltb a' b'
  end.

(** [a < b], [a > b], [a <= b], [a >= b]: [test] reads the order. *)
Definition py_order (test : comparison -> bool) (a b : value) : M bool :=
  match as_number a, as_number b with
  | Some x, Some y =>
      ret (match num_compare x y with Some c => test c | None => false end)
  | _, _ =>
      match a, b with
      | VStr x _, VStr y _ =>
          ret (test (if String.eqb x y then Eq
                     else if string_ltb x y then Lt else Gt))
      | VList _, VList _ => unmodelled
      | _, _ => py_raise TypeError
      end
  end.

(** A binary operation of the host on two numbers: [on_int] on two
    integers, [on_float] once an operand is a float. *)
Definition arith (on_int : Z -> Z -> Z) (on_float : float -> float -> float)
  (x y : number) : M value :=
  match x, y with
  | NInt a, NInt b => new_int (on_int a b)
  | _, _ =>
      match to_float x, to_float y with
      | Some a, Some b => new_float (on_float a b)
      | _, _ => py_raise OverflowError
      end
  end.

Definition py_add (a b : value) : M value :=
  match as_number a, as_number b with
  | Some x, Some y => arith Z.add (SFadd prec emax) x y
  | _, _ =>
      match a, b with
      | VStr x _, VStr y _ => ret (VStr (x ++ y) Unknown)
      | VList _, VList _ => unmodelled
      | _, _ => py_raise TypeError
      end
  end.

Definition py_sub (a b : value) : M value :=
  match as_number a, as_number b with
  | Some x, Some y => arith Z.sub (SFsub prec emax) x y
  | _, _ => py_raise TypeError
  end.

Fixpoint repeat_string (s : string) (n : nat) : string :=
  match n with
  | O => EmptyString
  | S n' => (s ++ repeat_string s n')%string
  end.

(** [text * count]; the embedding leaves out the long results. *)
Definition py_repeat (text : string) (count : Z) : M value :=
  if (count <=? 0)%Z then ret (VStr EmptyString Unknown)
  else if (Z.of_nat (String.length text) * count <=? 65536)%Z
  then ret (VStr (repeat_string text (Z.to_nat count)) Unknown)
  else unmodelled.

Definition py_mul (a b : value) : M value :=
  match as_number a, as_number b with
  | Some x, Some y => arith Z.mul (SFmul prec emax) x y
  | _, _ =>
      match a, as_number b, as_number a, b with
      | VStr text _, Some (NInt n), _, _ => py_repeat text n
      | _, _, Some (NInt n), VStr text _ => py_repeat text n
      | VList _, Some (NInt _), _, _ => unmodelled
      | _, _, Some (NInt _), VList _ => unmodelled
      | _, _, _, _ => py_raise TypeError
      end
  end.

(** [a / b]: true division.  The quotient of two integers is rounded once,
    as the host does. *)
Definition py_div (a b : value) : M value :=
  match as_number a, as_number b with
  | Some x, Some y =>
      if num_eqb y (NInt 0) then py_raise ZeroDivisionError
      else
        match x, y with
        | NInt p, NInt q =>
            let mag (z : Z) :=
              match z with
              | Zpos m => S754_finite false m 0
              | Zneg m => S754_finite true m 0
              | Z0 => S754_zero false
              end in
            match SFdiv prec emax (mag p) (mag q) with
            | S754_infinity _ => py_raise OverflowError
            | f => new_float f
            end
        | _, _ =>
            match to_float x, to_float y with
            | Some p, Some q => new_float (SFdiv prec emax p q)
            | _, _ => py_raise OverflowError
            end
        end
  | _, _ => py_raise TypeError
  end.

(** [a ** b].  The embedding leaves out the powers the host computes in
    floating point. *)
Definition py_pow (a b : value) : M value :=
  match as_number a, as_number b with
  | Some (NInt x), Some (NInt y) =>
      if (0 <=? y)%Z then
        let r := (x ^ y)%Z in
        ret (VInt r (if is_small_int r then Cached else Unknown))
      else if (x =? 0)%Z then py_raise ZeroDivisionError
      else unmodelled
  | Some _, Some _ => unmodelled
  | _, _ => py_raise TypeError
  end.

(** [a % b].  The embedding leaves out the remainder of floats and the
    formatting operator of texts. *)
Definition py_mod (a b : value) : M value :=
  match as_number a, as_number b with
  | Some x, Some y =>
      if num_eqb y (NInt 0) then py_raise ZeroDivisionError
      else
        match x, y with
        | NInt p, NInt q => new_int (p mod q)%Z
        | _, _ => unmodelled
        end
  | _, _ =>
      match a with
      | VStr _ _ => unmodelled
      | _ => py_raise TypeError
      end
  end.

(** *** The class [DreamBerdInterpreter] *)

(** [_init_builtins]: the global scope binds [print], [Date] and the
    number names. *)
Definition builtin_values : list (string * value) :=
  [ ("print", VPrint); ("Date", VDate);
    ("zero", VInt 0 Cached); ("one", VInt 1 Cached); ("two", VInt 2 Cached);
    ("three", VInt 3 Cached); ("four", VInt 4 Cached);
    ("five", VInt 5 Cached); ("six", VInt 6 Cached); ("seven", VInt 7 Cached);
    ("eight", VInt 8 Cached); ("nine", VInt 9 Cached); ("ten", VInt 10 Cached);
    ("eleven", VInt 11 Cached); ("twelve", VInt 12 Cached) ].

(** [DreamBerdInterpreter()], on a host with the clock [clock]. *)
Definition new (clock : nat -> float) : DreamBerdInterpreter :=
  mkInterp
    [ combine (map fst builtin_values) (seq 0 (List.length builtin_values)) ]
    (map (fun b => new_value (snd b) None) builtin_values)
    [] [] [] [] [] [] [] false [] [] 0 0 clock 0.

Definition current_scope : M scope :=
  s <- get ;;
  match scope_stack s with
  | sc :: _ => ret sc
  | [] => unmodelled
  end.

(** [self.current_scope()[name] = ref] *)
Definition bind_current (name : string) (ref : nat) : M unit :=
  modify (fun s =>
    match scope_stack s with
    | sc :: outer => with_scope_stack (dict_set name ref sc :: outer) s
    | [] => s
    end).

Fixpoint update_last {A} (f : A -> A) (l : list A) : list A :=
  match l with
  | [] => []
  | [x] => [f x]
  | x :: l' => x :: update_last f l'
  end.

(** [self.global_scope[name] = ref] *)
Definition bind_global (name : string) (ref : nat) : M unit :=
  modify (fun s =>
    with_scope_stack (update_last (dict_set name ref) (scope_stack s)) s).

Definition push_scope (sc : scope) : M unit :=
  modify (fun s => with_scope_stack (sc :: scope_stack s) s).

Definition pop_scope : M unit :=
  modify (fun s =>
    match scope_stack s with
    | _ :: (_ :: _) as outer => with_scope_stack outer s
    | _ => s
    end).

(** [is_expired]: the clock is read only for a wrapper with a lifetime. *)
Definition is_expired (w : DreamBerdValue) : M bool :=
  match lifetime w with
  | None => ret false
  | Some limit => now <- time_time ;; ret (SFltb limit now)
  end.

(** The loop of [get_variable] over the scopes, innermost first; the
    result is the reference of the wrapper found.  A binding found expired
    is removed from its scope and the search goes on. *)
Fixpoint get_variable_from (name : string) (skipped scopes : list scope)
  : M nat :=
  match scopes with
  | [] => error ("Undefined variable: " ++ name)
  | sc :: outer =>
      match dict_get name sc with
      | Some ref =>
          var <- read_wrapper ref ;;
          expired <- is_expired var ;;
          if expired then
            modify (with_scope_stack (skipped ++ dict_del name sc :: outer)) ;;;
            get_variable_from name (skipped ++ [dict_del name sc]) outer
          else if deleted var then
            error ("Variable '" ++ name ++ "' has been deleted")
          else ret ref
      | None => get_variable_from name (skipped ++ [sc]) outer
      end
  end.

Definition get_variable (name : string) : M nat :=
  s <- get ;;
  get_variable_from name [] (scope_stack s).

(** The first scope, innermost first, that has [name]. *)
Fixpoint find_binding (name : string) (scopes : list scope) : option nat :=
  match scopes with
  | [] => None
  | sc :: outer =>
      match dict_get name sc with
      | Some ref => Some ref
      | None => find_binding name outer
      end
  end.

(** [set_variable(name, value, create_new)], where [value] is a wrapper. *)
Definition set_variable (name : string) (w : DreamBerdValue)
  (create_new : bool) : M unit :=
  if create_new then
    ref <- alloc_wrapper w ;; bind_current name ref
  else
    s <- get ;;
    match find_binding name (scope_stack s) with
    | Some ref => update_wrapper ref (set_value (value_ w))
    | None => ref <- alloc_wrapper w ;; bind_current name ref
    end.

Definition ends_with (c : ascii) (text : string) : bool :=
  match rev (list_ascii_of_string text) with
  | c' :: _ => Ascii.eqb c' c
  | [] => false
  end.

(** [text[:-1]] *)
Definition drop_last (text : string) : string :=
  string_of_list_ascii (removelast (list_ascii_of_string text)).

Definition starts_with (c : ascii) (text : string) : bool :=
  match text with
  | String c' _ => Ascii.eqb c' c
  | EmptyString => false
  end.

(** [time.time() + amount] for a float [amount] *)
Definition from_now (amount : float) : M (option float) :=
  now <- time_time ;; ret (Some (SFadd prec emax now amount)).

(** [time.time() + amount] for an integer [amount] *)
Definition from_now_int (amount : Z) : M (option float) :=
  now <- time_time ;;
  match float_of_Z amount with
  | Some f => ret (Some (SFadd prec emax now f))
  | None => py_raise OverflowError
  end.

Definition float_of_nat (n : nat) : float :=
  binary_normalize prec emax (Z.of_nat n) 0 false.

(** [parse_lifetime] *)
Definition parse_lifetime (lifetime_str : string) : M (option float) :=
  if String.eqb lifetime_str EmptyString then ret None
  else if String.eqb (lower lifetime_str) "infinity" then ret None
  else if starts_with "-" lifetime_str then
    now <- time_time ;;
    z <- lift (py_int lifetime_str) ;;
    match float_of_Z (Z.abs z) with
    | Some f => ret (Some (SFadd prec emax now f))
    | None => py_raise OverflowError
    end
  else if ends_with "s" lifetime_str then
    seconds <- lift (py_float (drop_last lifetime_str)) ;;
    from_now seconds
  else if ends_with "m" lifetime_str then
    minutes <- lift (py_float (drop_last lifetime_str)) ;;
    from_now (SFmul prec emax minutes (float_of_nat 60))
  else if ends_with "h" lifetime_str then
    hours <- lift (py_float (drop_last lifetime_str)) ;;
    from_now (SFmul prec emax hours (float_of_nat 3600))
  else
    match py_int lifetime_str with
    | Ok lines => from_now_int lines
    | Raise (PyError ValueError) => ret None
    | r => x <- lift r ;; ret None
    end.

(** The operand of [evaluate_arithmetic] after its test for a fraction:
    [if isinstance(x, str) and '/' in x: parts = x.split('/');
     x = float(parts[0]) / float(parts[1])] *)
Definition fraction_operand (x : value) : M value :=
  match x with
  | VStr text _ =>
      if char_in "/" text
      then f <- lift (fraction_value text) ;; new_float f
      else ret x
  | _ => ret x
  end.

(** [evaluate_arithmetic] *)
Definition evaluate_arithmetic (left : value) (operator : string)
  (right : value) : M value :=
  left_deleted <- in_deleted left ;;
  right_deleted <- (if left_deleted then ret true else in_deleted right) ;;
  if right_deleted then error "Cannot perform arithmetic on deleted values"
  else
    left <- fraction_operand left ;;
    right <- fraction_operand right ;;
    if String.eqb operator "/" && equals_zero right
    then ret (VStr "undefined" Unknown)
    else if String.eqb operator "+" then py_add left right
    else if String.eqb operator "-" then py_sub left right
    else if String.eqb operator "*" then py_mul left right
    else if String.eqb operator "/" then py_div left right
    else if String.eqb operator "^" then py_pow left right
    else if String.eqb operator "%" then py_mod left right
    else ret VNone.

Definition heap_depth (s : DreamBerdInterpreter) : nat :=
  S (List.length (lists s)).

(** [str(v)] *)
Definition str (v : value) : M string :=
  s <- get ;; lift (py_str (heap_depth s) (lists s) true v).

(** [a == b] *)
Definition equal (a b : value) : M bool :=
  s <- get ;; lift (py_eq (heap_depth s) (lists s) a b).

Definition is_lt (c : comparison) : bool :=
  match c with Lt => true | _ => false end.
Definition is_gt (c : comparison) : bool :=
  match c with Gt => true | _ => false end.
Definition is_le (c : comparison) : bool :=
  match c with Gt => false | _ => true end.
Definition is_ge (c : comparison) : bool :=
  match c with Lt => false | _ => true end.

(** [abs(left - right) < 0.5] *)
Definition close_enough (left right : value) : M bool :=
  match as_number left, as_number right with
  | Some (NInt a), Some (NInt b) =>
      ret (match compare_Z_float (Z.abs (a - b)) half with
           | Some Lt => true
           | _ => false
           end)
  | Some x, Some y =>
      match to_float x, to_float y with
      | Some a, Some b => ret (SFltb (SFabs (SFsub prec emax a b)) half)
      | _, _ => py_raise OverflowError
      end
  | _, _ => py_raise TypeError
  end.

(** [evaluate_comparison] *)
Definition evaluate_comparison (left : value) (operator : string)
  (right : value) : M value :=
  if String.eqb operator "=" then
    b <- close_enough left right ;; ret (VBool b)
  else if String.eqb operator "==" then
    l <- str left ;; r <- str right ;; ret (VBool (String.eqb l r))
  else if String.eqb operator "===" then
    e <- equal left right ;;
    if e then ret (VBool (same_type left right)) else ret (VBool false)
  else if String.eqb operator "====" then
    b <- lift (lift_option (py_is left right)) ;; ret (VBool b)
  else if String.eqb operator "!=" then
    e <- equal left right ;; ret (VBool (negb e))
  else if String.eqb operator "<" then
    b <- py_order is_lt left right ;; ret (VBool b)
  else if String.eqb operator ">" then
    b <- py_order is_gt left right ;; ret (VBool b)
  else if String.eqb operator "<=" then
    b <- py_order is_le left right ;; ret (VBool b)
  else if String.eqb operator ">=" then
    b <- py_order is_ge left right ;; ret (VBool b)
  else ret (VBool false).

Definition emit (line : string) : M unit :=
  modify (fun s => with_output (output s ++ [line]) s).

Fixpoint join_with (sep : string) (l : list string) : string :=
  match l with
  | [] => EmptyString
  | [x] => x
  | x :: l' => (x ++ sep ++ join_with sep l')%string
  end.

(** [builtin_print], on the list of its arguments *)
Definition builtin_print (args : list value) : M value :=
  texts <- for_each str args ;;
  emit (join_with " " texts) ;;;
  ret VNone.

(** The function [signal] of [visit_UseExpression], called with [args]. *)
Definition call_signal (a : nat) (args : list value) : M value :=
  match args with
  | v :: _ =>
      modify (fun s => with_signals (update_nth a (fun _ => v) (signals s)) s) ;;;
      ret v
  | [] =>
      s <- get ;;
      lift (lift_option (nth_error (signals s) a))
  end.

(** The line of a statement that ends with a question mark. *)
Definition debug_info (v : value) : M string :=
  text <- str v ;;
  ret ("DEBUG: " ++ text ++ " (type: " ++ type_name v ++ ")")%string.

(** [f"{type(v)}"] *)
Definition type_repr (v : value) : string :=
  match v with
  | VMaybe _ => "<class 'dreamberd_interpreter.Maybe'>"
  | VDate =>
      "<class 'dreamberd_interpreter.DreamBerdInterpreter._init_builtins.<locals>.DateObject'>"
  | VFunction _ => "<class 'dreamberd_ast.FunctionDeclaration'>"
  | _ => "<class '" ++ type_name v ++ "'>"
  end.

Section Visitors.

(** [self.visit]: the visitors below call it on the children of their
    node. *)
Variable self_visit : node -> M value.

(** [for stmt in body: result = self.visit(stmt)], and the last result. *)
Fixpoint visit_all (body : list node) (result : value) : M value :=
  match body with
  | [] => ret result
  | stmt :: rest => r <- self_visit stmt ;; visit_all rest r
  end.

Definition visit_Program (body : list node) : M value :=
  s <- get ;;
  let statements := if reversed s then rev body else body in
  visit_all statements VNone.

Definition visit_NumberLiteral (v : literal) : M value :=
  match v with
  | LInt z i => ret (VInt z i)
  | LFloat f i => ret (VFloat f i)
  | LStr text i =>
      if char_in "/" text
      then f <- lift (fraction_value text) ;; new_float f
      else ret (VStr text i)
  end.

Definition visit_MaybeLiteral : M value :=
  fun s => (Ok (VMaybe (next_maybe s)), with_next_maybe (S (next_maybe s)) s).

Definition visit_Identifier (name : string) : M value :=
  ref <- get_variable name ;;
  var <- read_wrapper ref ;;
  ret (value_ var).

Definition visit_ArrayLiteral (elements : list node) : M value :=
  values <- for_each self_visit elements ;;
  alloc_list values.

(** [if 0 <= i < len(array): return array[i]], else [otherwise]. *)
Definition element_at (elements : list value) (i : Z) (otherwise : M value)
  : M value :=
  if (0 <=? i)%Z && (i <? Z.of_nat (List.length elements))%Z then
    match nth_error elements (Z.to_nat i) with
    | Some v => ret v
    | None => otherwise
    end
  else otherwise.

Definition visit_ArrayAccess (array index : node) : M value :=
  array <- self_visit array ;;
  index <- self_visit index ;;
  match array with
  | VList a =>
      elements <- read_list a ;;
      let out_of_bounds := error "Array index out of bounds" in
      match as_number index with
      | Some (NInt i) => element_at elements (i + 1) out_of_bounds
      | Some (NFloat f) =>
          i <- lift (int_of_float f) ;;
          element_at elements (i + 1) out_of_bounds
      | None => out_of_bounds
      end
  | _ => error "Can only index arrays"
  end.

Definition is_comparison_operator (operator : string) : bool :=
  existsb (String.eqb operator)
    ["="; "=="; "==="; "===="; "!="; "<"; ">"; "<="; ">="].

Definition visit_BinaryOperation (left : node) (operator : string)
  (right : node) : M value :=
  left <- self_visit left ;;
  right <- self_visit right ;;
  if String.eqb operator "&&" then
    t <- truthy left ;; ret (if t then right else left)
  else if String.eqb operator "||" then
    t <- truthy left ;; ret (if t then left else right)
  else if is_comparison_operator operator
  then evaluate_comparison left operator right
  else evaluate_arithmetic left operator right.

Definition visit_UnaryOperation (operator : string) (operand : node)
  : M value :=
  operand <- self_visit operand ;;
  if String.eqb operator ";" then
    t <- truthy operand ;; ret (VBool (negb t))
  else if String.eqb operator "-" then
    match as_number operand with
    | Some (NInt z) => new_int (- z)
    | Some (NFloat f) => new_float (SFopp f)
    | None => py_raise TypeError
    end
  else if String.eqb operator "+" then
    match operand with
    | VInt _ _ | VFloat _ _ => ret operand
    | VBool b => ret (VInt (if b then 1 else 0) Cached)
    | _ => py_raise TypeError
    end
  else ret operand.

Fixpoint insert_at {A} (n : nat) (x : A) (l : list A) : list A :=
  match n, l with
  | O, _ => x :: l
  | S n', y :: l' => y :: insert_at n' x l'
  | S _, [] => [x]
  end.

Definition write_list (a : nat) (f : list value -> list value) : M unit :=
  modify (fun s => with_lists (update_nth a f (lists s)) s).

(** [visit_Assignment].  For an element of an array the embedding covers
    the arrays that are lists. *)
Definition visit_Assignment (target value_node : node) : M value :=
  value <- self_visit value_node ;;
  match target with
  | Identifier name =>
      set_variable name (new_value value None) false ;;;
      ret value
  | ArrayAccess array index =>
      array <- self_visit array ;;
      index <- self_visit index ;;
      match index with
      | VFloat f _ =>
          i <- lift (int_of_float f) ;;
          let insert_pos := (i + 1)%Z in
          if (0 <=? insert_pos)%Z then
            match array with
            | VList a =>
                elements <- read_list a ;;
                (if (insert_pos <=? Z.of_nat (List.length elements))%Z
                 then write_list a (insert_at (Z.to_nat insert_pos) value)
                 else ret tt) ;;;
                ret value
            | _ => unmodelled
            end
          else ret value
      | _ =>
          match as_number index with
          | Some (NInt i) =>
              let dreamberd_index := (i + 1)%Z in
              if (0 <=? dreamberd_index)%Z then
                match array with
                | VList a =>
                    elements <- read_list a ;;
                    (if (dreamberd_index <? Z.of_nat (List.length elements))%Z
                     then
                       write_list a
                         (update_nth (Z.to_nat dreamberd_index)
                            (fun _ => value))
                     else ret tt) ;;;
                    ret value
                | _ => unmodelled
                end
              else ret value
          | _ =>
              match index with
              | VInt _ _ | VBool _ | VFloat _ _ => unmodelled
              | _ => py_raise TypeError
              end
          end
      end
  | _ => error "Invalid assignment target"
  end.

Definition is_ReturnStatement (n : node) : bool :=
  match n with ReturnStatement _ => true | _ => false end.

(** The loop of [call_function] over a block body:
    [for stmt in body: result = self.visit(stmt);
     if isinstance(stmt, ReturnStatement): break] *)
Fixpoint run_block (body : list node) (result : value) : M value :=
  match body with
  | [] => ret result
  | stmt :: rest =>
      r <- self_visit stmt ;;
      if is_ReturnStatement stmt then ret r else run_block rest r
  end.

(** The parameters of [call_function] bound to the arguments there are. *)
Fixpoint bind_parameters (parameters : list string) (args : list value)
  (func_scope : scope) : M scope :=
  match parameters, args with
  | param :: parameters', arg :: args' =>
      ref <- alloc_wrapper (new_value arg None) ;;
      bind_parameters parameters' args' (dict_set param ref func_scope)
  | _, _ => ret func_scope
  end.

Definition call_function (func_decl : node) (args : list value) : M value :=
  match func_decl with
  | FunctionDeclaration _ _ parameters body _ =>
      func_scope <- bind_parameters parameters args [] ;;
      push_scope func_scope ;;;
      try_finally
        (match body with
         | inr statements => run_block statements VNone
         | inl expression => self_visit expression
         end)
        pop_scope
  | _ => unmodelled
  end.

Definition visit_FunctionCall (function : node) (arguments : list node)
  : M value :=
  match function with
  | Identifier func_name =>
      func <-
        try_except
          (ref <- get_variable func_name ;;
           func_var <- read_wrapper ref ;;
           ret (value_ func_var))
          (fun _ => error ("Undefined function: " ++ func_name)) ;;
      args <- for_each self_visit arguments ;;
      match func with
      | VPrint => builtin_print args
      | VSignal a => call_signal a args
      | VFunction func_decl => call_function func_decl args
      | _ => error "Invalid function call"
      end
  | _ => error "Invalid function call"
  end.

(** [visit_MemberAccess].  The embedding covers the [Date] object, whose
    one attribute besides those every object has is [now]. *)
Definition visit_MemberAccess (object : node) (property : string) : M value :=
  obj <- self_visit object ;;
  match obj with
  | VDate =>
      if String.eqb property "now" then
        now <- time_time ;;
        new_float (SFmul prec emax now (float_of_nat 1000))
      else if starts_with "_" property then unmodelled
      else error ("Property '" ++ property ++ "' not found")
  | _ => unmodelled
  end.

Definition visit_VariableDeclaration (name : string)
  (value_node : option node) (lifetime : option string) (priority_ : Z)
  : M value :=
  existing_var <-
    try_except (ref <- get_variable name ;; ret (Some ref))
      (fun _ => ret None) ;;
  keep <-
    match existing_var with
    | Some ref =>
        var <- read_wrapper ref ;;
        match priority var with
        | Some p => ret (priority_ <=? p)%Z
        | None => ret false
        end
    | None => ret false
    end ;;
  if keep then ret VNone
  else
    value <-
      match value_node with
      | Some expression => self_visit expression
      | None => ret VNone
      end ;;
    lifetime <-
      match lifetime with
      | Some text => parse_lifetime text
      | None => ret None
      end ;;
    set_variable name (set_priority priority_ (new_value value lifetime)) true ;;;
    ret VNone.

Definition visit_FunctionDeclaration (decl : node) (name : string) : M value :=
  set_variable name (new_value (VFunction decl) None) true ;;;
  modify (fun s => with_functions (dict_set name decl (functions s)) s) ;;;
  ret VNone.

Definition visit_ClassDeclaration (decl : node) (name : string) : M value :=
  modify (fun s => with_classes (dict_set name decl (classes s)) s) ;;;
  ret VNone.

Definition visit_PrintStatement (value_node : node) (is_debug : bool)
  : M value :=
  value <- self_visit value_node ;;
  (if is_debug then line <- debug_info value ;; emit line
   else line <- str value ;; emit line) ;;;
  ret VNone.

Definition visit_ExpressionStatement (expression : node) (is_debug : bool)
  : M value :=
  result <- self_visit expression ;;
  (if is_debug then line <- debug_info result ;; emit line else ret tt) ;;;
  ret result.

Definition visit_ReturnStatement (value_node : option node) : M value :=
  match value_node with
  | Some expression => self_visit expression
  | None => ret VNone
  end.

Definition visit_DeleteStatement (target : node) : M value :=
  match target with
  | Identifier var_name =>
      try_except
        (ref <- get_variable var_name ;; update_wrapper ref set_deleted)
        (fun _ => ret tt) ;;;
      ret VNone
  | NumberLiteral _ =>
      value <- self_visit target ;;
      modify (fun s => with_deleted_values (value :: deleted_values s) s) ;;;
      ret VNone
  | _ => ret VNone
  end.

Definition visit_ReverseStatement : M value :=
  modify (fun s => with_reversed (negb (reversed s)) s) ;;;
  ret VNone.

Definition visit_PreviousExpression (target : node) : M value :=
  match target with
  | Identifier name =>
      ref <- get_variable name ;;
      var <- read_wrapper ref ;;
      ret (get_previous var)
  | _ => error "Previous can only be used with variables"
  end.

Definition visit_CurrentExpression (target : node) : M value :=
  self_visit target.

Definition visit_UseExpression (initial_value : node) : M value :=
  initial_value <- self_visit initial_value ;;
  fun s =>
    (Ok (VSignal (List.length (signals s))),
     with_signals (signals s ++ [initial_value]) s).

Definition class_body (decl : node) : list node :=
  match decl with
  | ClassDeclaration _ _ body => body
  | _ => []
  end.

(** [for name, var in instance_scope.items(): instance[name] = var.value] *)
Fixpoint instance_of (instance_scope : scope) (instance : dict value)
  : M (dict value) :=
  match instance_scope with
  | [] => ret instance
  | (name, ref) :: more =>
      var <- read_wrapper ref ;;
      instance_of more (dict_set name (value_ var) instance)
  end.

Definition visit_NewExpression (class_name : string) : M value :=
  s <- get ;;
  match dict_get class_name (classes s) with
  | None => error ("Undefined class: " ++ class_name)
  | Some class_decl =>
      if dict_mem class_name (class_instances s) then
        error ("Can't have more than one '" ++ class_name ++ "' instance!")
      else
        push_scope [] ;;;
        instance <-
          try_finally
            (for_each self_visit (class_body class_decl) ;;;
             instance_scope <- current_scope ;;
             instance_of instance_scope [])
            pop_scope ;;
        fun s =>
          let v := VInstance (List.length (instances s)) in
          (Ok v,
           with_class_instances (dict_set class_name v (class_instances s))
             (with_instances (instances s ++ [instance]) s))
  end.

Definition visit_FileBlock (body : list node) : M value :=
  push_scope [] ;;;
  try_finally (visit_all body VNone) pop_scope.

Definition set_add (x : string) (l : list string) : list string :=
  if existsb (String.eqb x) l then l else l ++ [x].

Definition visit_GlobalConstantDeclaration (name : string)
  (value_node : node) : M value :=
  value <- self_visit value_node ;;
  wrapped_value <- alloc_wrapper (new_value value None) ;;
  bind_global ("__global_const_" ++ name) wrapped_value ;;;
  bind_global name wrapped_value ;;;
  modify (fun s => with_immutable_globals (set_add name (immutable_globals s)) s) ;;;
  ret VNone.

(** [visit_IncrementExpression] ([delta] 1, [verb] [increment]) and
    [visit_DecrementExpression] ([delta] -1, [verb] [decrement]). *)
Definition visit_step (verb : string) (delta : Z) (target : node)
  (is_prefix : bool) : M value :=
  match target with
  | Identifier var_name =>
      var_wrapper <- get_variable var_name ;;
      var <- read_wrapper var_wrapper ;;
      let current_value := value_ var in
      if is_int current_value || is_float current_value then
        new_value <- py_add current_value (VInt delta Cached) ;;
        update_wrapper var_wrapper (set_value new_value) ;;;
        ret (if is_prefix then new_value else current_value)
      else
        error ("Cannot " ++ verb ++ " non-numeric value: "
               ++ type_repr current_value)
  | _ => error ("Can only " ++ verb ++ " variables")
  end.

Definition visit_IncrementExpression := visit_step "increment" 1.
Definition visit_DecrementExpression := visit_step "decrement" (-1).

(** [generic_visit] *)
Definition generic_visit (n : node) : M value :=
  error ("No visitor for " ++ class_name_of n).

(** [visit]: the visitor named after the class of the node, or
    [generic_visit] when the interpreter has none. *)
Definition dispatch (n : node) : M value :=
  match n with
  | Program body => visit_Program body
  | NumberLiteral v => visit_NumberLiteral v
  | StringLiteral v i => ret (VStr v i)
  | BooleanLiteral b => ret (VBool b)
  | MaybeLiteral => visit_MaybeLiteral
  | UndefinedLiteral => ret (VStr "undefined" Unknown)
  | NullLiteral => ret VNone
  | Identifier name => visit_Identifier name
  | ArrayLiteral elements => visit_ArrayLiteral elements
  | ArrayAccess array index => visit_ArrayAccess array index
  | BinaryOperation l operator r => visit_BinaryOperation l operator r
  | UnaryOperation operator operand => visit_UnaryOperation operator operand
  | Assignment target value => visit_Assignment target value
  | FunctionCall function arguments => visit_FunctionCall function arguments
  | MemberAccess object property => visit_MemberAccess object property
  | VariableDeclaration _ _ name value lifetime priority _ =>
      visit_VariableDeclaration name value lifetime priority
  | FunctionDeclaration _ name _ _ _ => visit_FunctionDeclaration n name
  | ClassDeclaration _ name _ => visit_ClassDeclaration n name
  | PrintStatement value is_debug => visit_PrintStatement value is_debug
  | ExpressionStatement expression _ is_debug =>
      visit_ExpressionStatement expression is_debug
  | ReturnStatement value => visit_ReturnStatement value
  | DeleteStatement target => visit_DeleteStatement target
  | ReverseStatement => visit_ReverseStatement
  | PreviousExpression target => visit_PreviousExpression target
  | CurrentExpression target => visit_CurrentExpression target
  | UseExpression initial_value => visit_UseExpression initial_value
  | NewExpression class_name _ => visit_NewExpression class_name
  | FileBlock _ body => visit_FileBlock body
  | NoopStatement _ => ret VNone
  | GlobalConstantDeclaration name value _ =>
      visit_GlobalConstantDeclaration name value
  | IncrementExpression target is_prefix =>
      visit_IncrementExpression target is_prefix
  | DecrementExpression target is_prefix =>
      visit_DecrementExpression target is_prefix
  | IfStatement _ _ _ | WhenStatement _ _ | ImportStatement _
  | ExportStatement _ _ | NextExpression _ | AwaitExpression _
  | MethodCall _ _ _ | SignalCall _ _ | StringInterpolation _ _ _
  | DBXElement _ _ _ | RichTextElement _ _ _ => generic_visit n
  end.

End Visitors.

(** [visit], for an interpreter whose calls of [visit] can nest [fuel]
    deep. *)
Fixpoint visit (fuel : nat) (n : node) : M value :=
  match fuel with
  | O => timeout
  | S fuel' => dispatch (visit fuel') n
  end.

(** [interpret]: whatever the parser or a visitor raises is raised again
    as a [DreamBerdError]. *)
Definition interpret (fuel : nat) (source : string) : M value :=
  fun s =>
    match Parser.parse_dreamberd source (next_object s) with
    | Parser.POk ast p =>
        match visit fuel ast (with_next_object (Parser.next_object p) s) with
        | (Raise e, s') => (Raise (InterpretationError e), s')
        | r => r
        end
    | Parser.PRaise e => (Raise (InterpretationError (ParseError e)), s)
    | Parser.PTimeout => (Timeout, s)
    | Parser.PUnmodelled => (Unmodelled, s)
    end.

(** [run_dreamberd]: the output of a fresh interpreter, when [interpret]
    returns. *)
Definition run_dreamberd (fuel : nat) (clock : nat -> float) (source : string)
  : result (list string) :=
  match interpret fuel source (new clock) with
  | (Ok _, s) => Ok (output s)
  | (Raise e, _) => Raise e
  | (Timeout, _) => Timeout
  | (Unmodelled, _) => Unmodelled
  end.

End Interpreter.

(** * Properties *)

(** ** Definitions the statements use *)

(** A host whose clock always reads zero. *)
Definition zero_clock : nat -> float := fun _ => S754_zero false.


Definition starts_with_char (c : ascii) (s : string) : bool :=
  match s with
  | String c' _ => Ascii.eqb c' c
  | EmptyString => false
  end.


(** The invariant of a wrapper: its history is not empty and ends with the
    current value. *)
Definition wrapper_ok (w : Interpreter.DreamBerdValue) : Prop :=
  exists earlier,
    Interpreter.history w = earlier ++ [Interpreter.value_ w].

(** Every wrapper of the interpreter satisfies the invariant. *)
Definition store_ok (s : Interpreter.DreamBerdInterpreter) : Prop :=
  Forall wrapper_ok (Interpreter.wrappers s).

(** A computation keeps the invariant of the wrappers, however it ends. *)
Definition preserves {A} (m : Interpreter.M A) : Prop :=
  forall s, store_ok s -> store_ok (snd (m s)).


(** The float 1.0 *)
Definition float_one : float := S754_finite false 4503599627370496 (-52).

(** What an increment leaves behind: the wrapper [ref] holds [new_value],
    which is also the last entry of its history; every other wrapper, the
    scopes and the output are as they were in [s1]. *)
Definition recorded (ref : nat) (w : Interpreter.DreamBerdValue)
  (new_value : Interpreter.value) (s1 s2 : Interpreter.DreamBerdInterpreter)
  : Prop :=
  nth_error (Interpreter.wrappers s2) ref
  = Some (Interpreter.set_value new_value w)
  /\ (forall other, other <> ref ->
        nth_error (Interpreter.wrappers s2) other
        = nth_error (Interpreter.wrappers s1) other)
  /\ Interpreter.scope_stack s2 = Interpreter.scope_stack s1
  /\ Interpreter.output s2 = Interpreter.output s1.

(** The interpreter after a run of [source] on a fresh interpreter. *)
Definition state_after (source : string) : Interpreter.DreamBerdInterpreter :=
  snd (Interpreter.interpret 16 source (Interpreter.new zero_clock)).

(** The global scope: the outermost scope of the stack. *)
Definition global_scope (s : Interpreter.DreamBerdInterpreter)
  : Interpreter.scope :=
  last (Interpreter.scope_stack s) [].

(** The text [s] between double quotes. *)
Definition quoted (s : string) : string :=
  String quote_double (s ++ str1 quote_double).

(** The place of the lexer in its source: what is left, and the position,
    line and column it has counted. *)
Definition place (lx : Lexer.DreamBerdLexer) : string * nat * nat * nat :=
  (Lexer.rest lx, Lexer.pos lx, Lexer.line lx, Lexer.column lx).

(** [s[k:]] *)
Fixpoint drop_chars (k : nat) (s : string) : string :=
  match k, s with
  | S k', String _ s' => drop_chars k' s'
  | _, _ => s
  end.

(** [s[:k]] *)
Fixpoint take_chars (k : nat) (s : string) : string :=
  match k, s with
  | S k', String c s' => String c (take_chars k' s')
  | _, _ => EmptyString
  end.

(** [s.count('\n')] *)
Fixpoint newlines (s : string) : nat :=
  match s with
  | EmptyString => 0
  | String c s' =>
      if Ascii.eqb c newline then S (newlines s') else newlines s'
  end.

(** The column [advance] has counted after the characters of [s], from
    the column [column]: a newline sets it back to 1. *)
Fixpoint column_after (column : nat) (s : string) : nat :=
  match s with
  | EmptyString => column
  | String c s' =>
      if Ascii.eqb c newline then column_after 1 s'
      else column_after (S column) s'
  end.

(** The lexer went from [lx] to [lx'] by consuming [k] characters that were
    there and appending the tokens [emitted]. *)
Definition lexes (k : nat) (emitted : list Lexer.Token)
  (lx lx' : Lexer.DreamBerdLexer) : Prop :=
  k <= String.length (Lexer.rest lx)
  /\ place lx' = place (Nat.iter k Lexer.advance lx)
  /\ Lexer.tokens lx' = Lexer.tokens lx ++ emitted.

(** The token types for which [tokenize] has no branch that makes them. *)
Definition never_lexed (t : Lexer.TokenType) : bool :=
  match t with
  | Lexer.T_CLASSNAME | Lexer.T_VERY_LOOSE_EQUAL | Lexer.T_NOT_EQUAL
  | Lexer.T_AND | Lexer.T_OR | Lexer.T_SEMICOLON | Lexer.T_ANGLE_LEFT
  | Lexer.T_ANGLE_RIGHT | Lexer.T_INDENT | Lexer.T_DEDENT | Lexer.T_EOF => true
  | _ => false
  end.

(** One iteration of the main loop of [tokenize] that does not break: at
    least one character consumed, at most one token appended, of a type the
    lexer can make. *)
Definition scans (lx lx' : Lexer.DreamBerdLexer) : Prop :=
  exists k emitted,
    1 <= k /\ lexes k emitted lx lx'
    /\ Forall (fun t => never_lexed (Lexer.tok_type t) = false) emitted
    /\ List.length emitted <= 1.

(** The characters of the whole part of a number token. *)
Definition is_number_char (c : ascii) : bool := isdigit c || Ascii.eqb c ".".

(** The first character of [s] satisfies [p]. *)
Definition starts_with_a (p : ascii -> bool) (s : string) : bool :=
  match s with
  | String c _ => p c
  | EmptyString => false
  end.

(** ** The parser *)

(** The left-nested chain of binary operations that starts with [first]
    and goes on with the operators and right operands of [more]. *)
Definition chain (first : node) (more : list (string * node)) : node :=
  fold_left (fun e pair => BinaryOperation e (fst pair) (snd pair)) more first.

(** The iterations of the loop of a level of binary operators, from the
    parser [p] to the parser [p']: each pair of [more] is the text of the
    token the parser stands on, which is an operator of the level, and the
    operand that [operand] returns right after that token; the loop ends
    at [p'], which stands on no operator of the level. *)
Fixpoint operands_from (types : list Lexer.TokenType)
  (operand : Parser.M node) (p : Parser.DreamBerdParser)
  (more : list (string * node)) (p' : Parser.DreamBerdParser) : Prop :=
  match more with
  | [] =>
      Parser.type_in (Lexer.tok_type (Parser.current_token p)) types = false
      /\ p' = p
  | (operator, right_operand) :: more' =>
      Parser.type_in (Lexer.tok_type (Parser.current_token p)) types = true
      /\ operator = Lexer.tok_value (Parser.current_token p)
      /\ exists p1 p2,
           Parser.advance p = Parser.POk tt p1
           /\ operand p1 = Parser.POk right_operand p2
           /\ operands_from types operand p2 more' p'
  end.

(** The trees of statements and expressions: no node, at any depth, of a
    class the parser has no code to build ([Assignment], [MethodCall],
    [PrintStatement], [SignalCall], [StringInterpolation], [DBXElement],
    [RichTextElement]), no increment or decrement that is not a prefix,
    and no [Program] or [FileBlock] below the top. *)
Fixpoint parsed_shape (n : node) : bool :=
  match n with
  | NumberLiteral _ | StringLiteral _ _ | BooleanLiteral _ | MaybeLiteral
  | UndefinedLiteral | NullLiteral | Identifier _ => true
  | ArrayLiteral elements => forallb parsed_shape elements
  | ArrayAccess array index => parsed_shape array && parsed_shape index
  | BinaryOperation l _ r => parsed_shape l && parsed_shape r
  | UnaryOperation _ operand => parsed_shape operand
  | Assignment _ _ => false
  | IncrementExpression target is_prefix => is_prefix && parsed_shape target
  | DecrementExpression target is_prefix => is_prefix && parsed_shape target
  | FunctionCall function arguments =>
      parsed_shape function && forallb parsed_shape arguments
  | MemberAccess object _ => parsed_shape object
  | MethodCall _ _ _ => false
  | VariableDeclaration _ _ _ value _ _ _ =>
      match value with Some v => parsed_shape v | None => true end
  | FunctionDeclaration _ _ _ body _ =>
      match body with
      | inl e => parsed_shape e
      | inr stmts => forallb parsed_shape stmts
      end
  | ClassDeclaration _ _ body => forallb parsed_shape body
  | IfStatement condition then_body else_body =>
      parsed_shape condition && forallb parsed_shape then_body
      && match else_body with
         | Some stmts => forallb parsed_shape stmts
         | None => true
         end
  | WhenStatement condition body =>
      parsed_shape condition && forallb parsed_shape body
  | ReturnStatement value =>
      match value with Some v => parsed_shape v | None => true end
  | PrintStatement _ _ => false
  | DeleteStatement target => parsed_shape target
  | ImportStatement _ | ExportStatement _ _ => true
  | PreviousExpression target | NextExpression target
  | CurrentExpression target => parsed_shape target
  | ReverseStatement => true
  | UseExpression initial_value => parsed_shape initial_value
  | SignalCall _ _ => false
  | NewExpression _ arguments => forallb parsed_shape arguments
  | AwaitExpression expression => parsed_shape expression
  | FileBlock _ _ => false
  | Program _ => false
  | GlobalConstantDeclaration _ value _ => parsed_shape value
  | StringInterpolation _ _ _ => false
  | NoopStatement _ => true
  | ExpressionStatement expression _ _ => parsed_shape expression
  | DBXElement _ _ _ => false
  | RichTextElement _ _ _ => false
  end.

(** A statement of the top of a program: a file block of such trees, or
    such a tree. *)
Definition top_shape (n : node) : bool :=
  match n with
  | FileBlock _ body => forallb parsed_shape body
  | _ => parsed_shape n
  end.

(** What is known of a result of the parser from its type alone. *)
Class Shape (A : Type) := shaped : A -> Prop.

#[global] Instance node_shape : Shape node :=
  fun n => parsed_shape n = true.

#[global] Instance nodes_shape : Shape (list node) :=
  fun l => forallb parsed_shape l = true.

#[global] Instance option_node_shape : Shape (option node) :=
  fun o => match o with Some n => parsed_shape n = true | None => True end.

#[global] Instance option_nodes_shape : Shape (option (list node)) :=
  fun o =>
    match o with Some l => forallb parsed_shape l = true | None => True end.

#[global] Instance body_shape : Shape (node + list node) :=
  fun b =>
    match b with
    | inl e => parsed_shape e = true
    | inr l => forallb parsed_shape l = true
    end.

#[global] Instance any_shape (A : Type) : Shape A | 100 := fun _ => True.

(** Every result the method [m] returns is [good]. *)
Definition yields_with {A} (good : A -> Prop) (m : Parser.M A) : Prop :=
  forall p a p', m p = Parser.POk a p' -> good a.

(** The number of scopes on the stack. *)
Definition depth (s : Interpreter.DreamBerdInterpreter) : nat :=
  List.length (Interpreter.scope_stack s).

(** The outcome is one the host has: the method returned or raised. *)
Definition completed {A} (r : Interpreter.result A) : Prop :=
  match r with
  | Interpreter.Ok _ | Interpreter.Raise _ => True
  | _ => False
  end.

(** The outcome [o] of a method leaves [d] scopes on the stack; a run that
    the embedding cuts short has not popped what it pushed. *)
Definition ends_at {A} (d : nat)
  (o : Interpreter.result A * Interpreter.DreamBerdInterpreter) : Prop :=
  match fst o with
  | Interpreter.Ok _ | Interpreter.Raise _ => depth (snd o) = d
  | _ => d <= depth (snd o)
  end.

(** A method that leaves the scope stack as deep as it found it. *)
Definition balanced {A} (m : Interpreter.M A) : Prop :=
  forall s, 1 <= depth s -> ends_at (depth s) (m s).

(** A method that pops one scope of the stack it found. *)
Definition unwinds {A} (m : Interpreter.M A) : Prop :=
  forall s, 2 <= depth s -> ends_at (depth s - 1) (m s).

(** Every name of the dictionary [d] is a name of [d']. *)
Definition keeps_names {A} (d d' : Interpreter.dict A) : Prop :=
  forall k, Interpreter.dict_mem k d = true -> Interpreter.dict_mem k d' = true.

(** What the interpreter [s'] has kept of the interpreter [s]: the lines
    printed, the classes, the functions, the instances of the classes, the
    immutable globals, the deleted values, and the stores of the wrappers,
    the lists and the signals. *)
Definition grows (s s' : Interpreter.DreamBerdInterpreter) : Prop :=
  (exists more, Interpreter.output s' = Interpreter.output s ++ more)
  /\ keeps_names (Interpreter.classes s) (Interpreter.classes s')
  /\ keeps_names (Interpreter.functions s) (Interpreter.functions s')
  /\ keeps_names (Interpreter.class_instances s)
       (Interpreter.class_instances s')
  /\ incl (Interpreter.immutable_globals s) (Interpreter.immutable_globals s')
  /\ incl (Interpreter.deleted_values s) (Interpreter.deleted_values s')
  /\ List.length (Interpreter.wrappers s)
     <= List.length (Interpreter.wrappers s')
  /\ List.length (Interpreter.lists s) <= List.length (Interpreter.lists s')
  /\ List.length (Interpreter.signals s)
     <= List.length (Interpreter.signals s').

(** A method that forgets nothing, however it ends. *)
Definition monotone {A} (m : Interpreter.M A) : Prop :=
  forall s, grows s (snd (m s)).

(** ** The lexer *)

Section LexerProperties.

Import Lexer.



Lemma append_empty s : (s ++ EmptyString)%string = s.
Proof. induction s; simpl; congruence. Qed.










(** C9 (the number words): tokenizing [ten] gives an identifier, not a
    number token.  [tokenize] sends a run that starts with a letter to
    [read_identifier]; the table of number words is in [read_number], which
    is only called on a digit, although that method itself would make the
    number token with text 10 of the word. *)
Theorem number_word_is_an_identifier :
  tokenize (new "ten")
  = [ Token4 T_IDENTIFIER "ten" 1 1; Token4 T_EOF EmptyString 1 4 ]
  /\ snd (read_number (new "ten")) = Token4 T_NUMBER "10" 1 1.
Proof. split; reflexivity. Qed.

End LexerProperties.
(** ** The interpreter *)

Section InterpreterProperties.

Import Interpreter.

Ltac run_it :=
  intros; repeat match goal with |- _ /\ _ => split end;
  vm_compute; reflexivity.

Lemma nth_error_update_nth {A} (f : A -> A) : forall l n x,
  nth_error l n = Some x -> nth_error (update_nth n f l) n = Some (f x).
Proof.
  induction l; intros [|n] x H; simpl in *; try discriminate.
  - congruence.
  - auto.
Qed.

Lemma nth_error_update_nth_other {A} (f : A -> A) : forall l n m,
  n <> m -> nth_error (update_nth n f l) m = nth_error l m.
Proof.
  induction l; intros [|n] [|m] H; simpl in *; auto; try congruence.
Qed.

(** [get_variable] may remove expired bindings from the scopes and read the
    clock; it never touches a wrapper. *)
Lemma get_variable_from_wrappers name scopes : forall skipped s r s',
  get_variable_from name skipped scopes s = (r, s') ->
  wrappers s' = wrappers s.
Proof.
  induction scopes as [|sc outer IH]; intros skipped s r s' H; simpl in H.
  - inversion H; reflexivity.
  - destruct (dict_get name sc) as [ref|].
    + unfold bind, read_wrapper in H.
      destruct (nth_error (wrappers s) ref) as [w|];
        [|inversion H; reflexivity].
      unfold is_expired in H.
      destruct (lifetime w) as [limit|].
      * unfold bind, time_time, ret in H. simpl in H.
        destruct (SFltb limit _).
        -- unfold modify in H. simpl in H. apply IH in H. exact H.
        -- destruct (deleted w); inversion H; reflexivity.
      * unfold ret in H. destruct (deleted w); inversion H; reflexivity.
    + eapply IH; eauto.
Qed.

Lemma get_variable_wrappers name s r s' :
  get_variable name s = (r, s') -> wrappers s' = wrappers s.
Proof.
  unfold get_variable, bind, get. apply get_variable_from_wrappers.
Qed.

(** *** C1: division by zero *)

(** C1 (division by zero): the program [print(1/0)!] emits nothing and
    fails.  The lexer makes one number token of [1/0]; [visit_NumberLiteral]
    divides the two parts as floats and the host raises
    [ZeroDivisionError], which [interpret] wraps.  The operator [/] on a
    zero right operand, lexed when blanks surround it, does yield the text
    [undefined]: the literal misses the test that [evaluate_arithmetic]
    makes. *)
Theorem fraction_literal_with_zero_denominator_raises : forall fuel clock,
  run_dreamberd (6 + fuel) clock "print(1/0)!"
  = Raise (InterpretationError (PyError ZeroDivisionError))
  /\ Parser.parse_dreamberd "print(1/0)!" 0
     = Parser.POk
         (Program
            [ExpressionStatement
               (FunctionCall (Identifier "print")
                  [NumberLiteral (LStr "1/0" (Object 0))]) 1 false])
         (Parser.mkParser (Lexer.Token4 Lexer.T_EOF EmptyString 1 12) [] 1)
  /\ run_dreamberd (6 + fuel) clock "print(1 / 0)!" = Ok ["undefined"].
Proof. run_it. Qed.

(** The operator [/] with a right operand equal to zero yields the text
    [undefined], whatever the left operand, when no operand is a deleted
    value or the text of a fraction. *)
Lemma division_by_zero_is_undefined : forall s left right,
  in_deleted left s = (Ok false, s) ->
  in_deleted right s = (Ok false, s) ->
  fraction_operand left s = (Ok left, s) ->
  fraction_operand right s = (Ok right, s) ->
  equals_zero right = true ->
  evaluate_arithmetic left "/" right s = (Ok (VStr "undefined" Unknown), s).
Proof.
  intros s l r Hl Hr Hfl Hfr Hz. unfold evaluate_arithmetic.
  unfold bind at 1. rewrite Hl.
  unfold bind at 1. rewrite Hr.
  unfold bind at 1. rewrite Hfl.
  unfold bind at 1. rewrite Hfr.
  rewrite Hz. reflexivity.
Qed.

(** *** C2: reverse *)

(** C2 (reverse): after [reverse!] the top-level prints run in the order
    they are written.  [visit_Program] reads the flag once, before its
    loop, when a fresh interpreter still has it unset; the statement sets
    it too late for the run.  The flag only reverses a later program given
    to the same interpreter.  The body of a function runs in the order
    written; an [if] statement has no visitor and fails. *)
Theorem reverse_statement_does_not_reverse : forall fuel clock,
  run_dreamberd (8 + fuel) clock "reverse! print(1)! print(2)! print(3)!"
  = Ok ["1"; "2"; "3"]
  /\ run_dreamberd (8 + fuel) clock
       "reverse! function g() => { print(1)! print(2)! }! g()! print(3)!"
     = Ok ["1"; "2"; "3"]
  /\ run_dreamberd (8 + fuel) clock "reverse! if (true) { print(1)! }"
     = Raise (InterpretationError (DreamBerdError "No visitor for IfStatement"))
  /\ output
       (snd (interpret (8 + fuel) "print(1)! print(2)!"
               (snd (interpret (8 + fuel) "reverse!" (new clock)))))
     = ["2"; "1"].
Proof. run_it. Qed.

(** In an interpreter whose flag is unset, the statements of a program run
    in the order they are written. *)
Lemma program_runs_in_order : forall fuel body s,
  reversed s = false ->
  visit (S fuel) (Program body) s = visit_all (visit fuel) body VNone s.
Proof.
  intros fuel body s H. simpl. unfold visit_Program, bind, get.
  rewrite H. reflexivity.
Qed.

(** *** C3: redeclaration *)

(** C3, as stated, fails: a declaration whose priority equals that of the
    live binding is ignored.  Both declarations end with one exclamation
    mark, priority 1, and [x] stays at 1. *)
Lemma equal_priority_is_ignored :
  run_dreamberd 8 zero_clock "const x = 1! const x = 2! print(x)!"
  = Ok ["1"].
Proof. vm_compute. reflexivity. Qed.

(** C3, amended: a declaration of a name with a live binding that a
    variable declaration made (it records its priority [q]) takes effect
    if and only if the priority [p] of the new declaration is strictly
    greater than [q].  Otherwise it is ignored: it returns after the
    lookup, no wrapper has changed.  When it takes effect, the value and
    the lifetime are evaluated and the innermost scope binds the name to a
    new wrapper with that value, a history of that one value, and the
    priority [p]. *)
Theorem redeclaration_needs_a_higher_priority :
  forall fuel s s1 name ref w q consts vars value lifetime p annotation,
    get_variable name s = (Ok ref, s1) ->
    nth_error (wrappers s1) ref = Some w ->
    priority w = Some q ->
    ((p <= q)%Z ->
       visit (S fuel)
         (VariableDeclaration consts vars name value lifetime p annotation) s
       = (Ok VNone, s1)
       /\ wrappers s1 = wrappers s)
    /\
    ((q < p)%Z ->
       forall v s2 expiry s3 sc outer,
         match value with
         | Some expression => visit fuel expression s1
         | None => ret VNone s1
         end = (Ok v, s2) ->
         match lifetime with
         | Some text => parse_lifetime text s2
         | None => ret None s2
         end = (Ok expiry, s3) ->
         scope_stack s3 = sc :: outer ->
         visit (S fuel)
           (VariableDeclaration consts vars name value lifetime p annotation) s
         = (Ok VNone,
            with_scope_stack
              (dict_set name (List.length (wrappers s3)) sc :: outer)
              (with_wrappers
                 (wrappers s3 ++ [mkValue v false expiry [v] (Some p)]) s3))).
Proof.
  intros fuel s s1 name ref w q consts vars value lifetime p annotation
    Hget Hw Hq.
  split.
  - intros Hle. split; [|eapply get_variable_wrappers; eauto].
    simpl. unfold visit_VariableDeclaration, bind, try_except.
    rewrite Hget. simpl. unfold read_wrapper. rewrite Hw. simpl.
    rewrite Hq. simpl. apply Z.leb_le in Hle. rewrite Hle. reflexivity.
  - intros Hlt v s2 expiry s3 sc outer Hv Hl Hsc.
    simpl. unfold visit_VariableDeclaration, bind, try_except.
    rewrite Hget. simpl. unfold read_wrapper. rewrite Hw. simpl.
    rewrite Hq. simpl. apply Z.leb_gt in Hlt. rewrite Hlt.
    destruct value as [expression|]; rewrite Hv;
      destruct lifetime as [text|]; rewrite Hl;
      unfold set_variable, bind, alloc_wrapper, bind_current, modify; simpl;
      rewrite Hsc; reflexivity.
Qed.

(** The amended C3 at the example of the specification: after
    [const x = 1! const x = 2!!!] the declaration [const x = 3!], of
    priority 1, changes nothing, and [x] is 2, with priority 3. *)
Lemma redeclaration_witness :
  let s := state_after "const x = 1! const x = 2!!!" in
  let later :=
    VariableDeclaration 1 0 "x" (Some (NumberLiteral (LInt 3 Cached))) None 1
      None in
  Parser.parse_dreamberd "const x = 3!" 0
  = Parser.POk (Program [later])
      (Parser.mkParser (Lexer.Token4 Lexer.T_EOF EmptyString 1 13) [] 0)
  /\ get_variable "x" s = (Ok 16, s)
  /\ nth_error (wrappers s) 16
     = Some (mkValue (VInt 2 Cached) false None [VInt 2 Cached] (Some 3%Z))
  /\ visit 4 later s = (Ok VNone, s).
Proof.
  intros s later.
  assert (Hget : get_variable "x" s = (Ok 16, s))
    by (vm_compute; reflexivity).
  assert (Hw : nth_error (wrappers s) 16
               = Some (mkValue (VInt 2 Cached) false None [VInt 2 Cached]
                         (Some 3%Z)))
    by (vm_compute; reflexivity).
  split; [vm_compute; reflexivity|].
  split; [exact Hget|]. split; [exact Hw|].
  refine (proj1 (proj1 (redeclaration_needs_a_higher_priority 3 s s "x" 16 _
                          3 1 0 (Some (NumberLiteral (LInt 3 Cached))) None
                          1 None Hget Hw eq_refl) _)).
  lia.
Defined.

(** *** C4: the equality operators *)

(** C4, as stated, fails: [====] on two equal integers is not their
    equality.  The two literals [1000] are two objects of the host, made by
    two calls of [int]; they are equal, of the same type, and not the same
    object. *)
Lemma equal_literals_are_not_identical :
  run_dreamberd 8 zero_clock "print(1000 === 1000)! print(1000 ==== 1000)!"
  = Ok ["True"; "False"].
Proof. vm_compute. reflexivity. Qed.

Lemma close_enough_int : forall x i y j s,
  close_enough (VInt x i) (VInt y j) s = (Ok (x =? y)%Z, s).
Proof.
  intros x i y j s. unfold close_enough, ret. simpl.
  change (Z.pow_pos 2 53) with 9007199254740992%Z.
  destruct (Z.eqb_spec x y) as [->|Hne].
  - rewrite Z.sub_diag. reflexivity.
  - destruct (Z.compare_spec (Z.abs (x - y) * 9007199254740992)
                4503599627370496); try reflexivity; lia.
Qed.

Lemma close_enough_integers l r u v s :
  as_number l = Some (NInt u) -> as_number r = Some (NInt v) ->
  close_enough l r s = (Ok (u =? v)%Z, s).
Proof.
  intros Hl Hr. unfold close_enough, ret. rewrite Hl, Hr. simpl.
  change (Z.pow_pos 2 53) with 9007199254740992%Z.
  destruct (Z.eqb_spec u v) as [->|Hne].
  - rewrite Z.sub_diag. reflexivity.
  - destruct (Z.compare_spec (Z.abs (u - v) * 9007199254740992)
                4503599627370496); try reflexivity; lia.
Qed.

Lemma close_enough_floats l r x y f g s :
  as_number l = Some x -> as_number r = Some y ->
  (exists f0, x = NFloat f0) \/ (exists g0, y = NFloat g0) ->
  to_float x = Some f -> to_float y = Some g ->
  close_enough l r s
  = (Ok (SFltb (SFabs (SFsub 53 1024 f g))
           (S754_finite false 4503599627370496 (-53))), s).
Proof.
  intros Hl Hr Hf Hx Hy. unfold close_enough. rewrite Hl, Hr.
  destruct x as [u|u], y as [v|v].
  - destruct Hf as [[f0 H]|[g0 H]]; discriminate H.
  - rewrite Hx, Hy. reflexivity.
  - rewrite Hx, Hy. reflexivity.
  - rewrite Hx, Hy. reflexivity.
Qed.

Lemma close_enough_overflow l r n m s :
  as_number l = Some n -> as_number r = Some m ->
  (exists f0, n = NFloat f0) \/ (exists g0, m = NFloat g0) ->
  to_float n = None \/ to_float m = None ->
  close_enough l r s = (Raise (PyError OverflowError), s).
Proof.
  intros Hl Hr Hf Hno. unfold close_enough. rewrite Hl, Hr.
  destruct n as [u|u], m as [v|v].
  - destruct Hf as [[f0 H]|[g0 H]]; discriminate H.
  - destruct Hno as [H|H]; [|discriminate H]. rewrite H. reflexivity.
  - destruct Hno as [H|H]; [discriminate H|]. rewrite H.
    destruct (to_float (NFloat u)); reflexivity.
  - destruct Hno as [H|H]; discriminate H.
Qed.

Lemma close_enough_no_number l r s :
  as_number l = None \/ as_number r = None ->
  close_enough l r s = (Raise (PyError TypeError), s).
Proof.
  intros H. unfold close_enough.
  destruct (as_number l) as [[u|u]|], (as_number r) as [[v|v]|];
    try reflexivity; destruct H as [H|H]; discriminate H.
Qed.

(** C4, amended: [=] holds when the operands are numbers less than 0.5
    apart, [==] when their texts are equal, [===] when they are equal and
    of the same type, and [====] when they are the same object of the
    host.  On integers [=] and [===] are equality; [====] is equality only
    between shared objects, such as the integers from -5 to 256 that the
    host keeps, and fails between two objects made apart, whatever their
    values.  The four relations differ pairwise; the lexer has no token
    for [!=], which the evaluator takes as the negation of the host's
    equality.

    In general: on two integers or booleans [=] is their equality; once
    an operand is a float it is the test [|l - r| < 0.5] of the doubles,
    so that [3 = 3.4] holds and [3 = 3.5] and [3 = 3.6] do not, and an
    [OverflowError] when an integer is too large for a double; on an
    operand that is no number it raises a [TypeError].  [==] is the
    equality of the texts [str] gives, [===] the conjunction of the host's
    equality and the equality of the types, [====] the identity of the
    host. *)
Theorem equality_ladder : forall fuel clock s x i y j a b,
  run_dreamberd (8 + fuel) clock
    ("print(3 = 3.14)! print(" ++ quoted "3" ++ " == 3)! print("
       ++ quoted "3" ++ " === 3)! print(3 ==== 3)!")%string
  = Ok ["True"; "True"; "False"; "True"]
  /\ run_dreamberd (8 + fuel) clock
       "print(true = 1)! print(true == 1)! print(true === 1)!"
     = Ok ["True"; "False"; "False"]
  /\ run_dreamberd (8 + fuel) clock
       "print(1000 = 1000)! print(1000 == 1000)! print(1000 === 1000)!"
     = Ok ["True"; "True"; "True"]
  /\ run_dreamberd (8 + fuel) clock
       "var x = 1000! print(x ==== x)! print(x ==== 1000)!"
     = Ok ["True"; "False"]
  /\ run_dreamberd (8 + fuel) clock "3 != 3!"
     = Raise
         (InterpretationError
            (ParseError
               (Parser.mkParseError "Unexpected token TokenType.ASSIGN"
                  (Lexer.Token4 Lexer.T_ASSIGN "=" 1 4))))
  /\ evaluate_comparison (VInt x i) "=" (VInt y j) s
     = (Ok (VBool (x =? y)%Z), s)
  /\ evaluate_comparison (VInt x i) "===" (VInt y j) s
     = (Ok (VBool (x =? y)%Z), s)
  /\ evaluate_comparison (VInt x i) "!=" (VInt y j) s
     = (Ok (VBool (negb (x =? y)%Z)), s)
  /\ evaluate_comparison (VInt x Cached) "====" (VInt y Cached) s
     = (Ok (VBool (x =? y)%Z), s)
  /\ evaluate_comparison (VInt x (Object a)) "====" (VInt y (Object b)) s
     = (Ok (VBool ((x =? y)%Z && Nat.eqb a b)), s)
  /\ run_dreamberd (8 + fuel) clock
       "print(3 = 3.4)! print(3 = 3.5)! print(3 = 3.6)! print(3 === 3.0)!"
     = Ok ["True"; "False"; "False"; "False"]
  /\ (forall l r u v,
        as_number l = Some (NInt u) -> as_number r = Some (NInt v) ->
        evaluate_comparison l "=" r s = (Ok (VBool (u =? v)%Z), s))
  /\ (forall l r n m f g,
        as_number l = Some n -> as_number r = Some m ->
        (exists f0, n = NFloat f0) \/ (exists g0, m = NFloat g0) ->
        to_float n = Some f -> to_float m = Some g ->
        evaluate_comparison l "=" r s
        = (Ok (VBool (SFltb (SFabs (SFsub 53 1024 f g))
                        (S754_finite false 4503599627370496 (-53)))), s))
  /\ (forall l r,
        as_number l = None \/ as_number r = None ->
        evaluate_comparison l "=" r s = (Raise (PyError TypeError), s))
  /\ (forall l r sl sr,
        str l s = (Ok sl, s) -> str r s = (Ok sr, s) ->
        evaluate_comparison l "==" r s
        = (Ok (VBool (String.eqb sl sr)), s))
  /\ (forall t k c z,
        str (VStr t k) s = (Ok t, s)
        /\ str (VBool c) s = (Ok (if c then "True" else "False"), s)
        /\ str VNone s = (Ok "None", s)
        /\ (String.length (string_of_Z z) <= 4300 ->
            str (VInt z k) s = (Ok (string_of_Z z), s)))
  /\ (forall l r e,
        equal l r s = (Ok e, s) ->
        evaluate_comparison l "===" r s
        = (Ok (VBool (e && same_type l r)), s))
  /\ (forall l r n m,
        as_number l = Some n -> as_number r = Some m ->
        equal l r s = (Ok (num_eqb n m), s))
  /\ (forall t k t' k',
        equal (VStr t k) (VStr t' k') s = (Ok (String.eqb t t'), s))
  /\ (forall l r c,
        py_is l r = Some c ->
        evaluate_comparison l "====" r s = (Ok (VBool c), s))
  /\ (forall l r n m,
        as_number l = Some n -> as_number r = Some m ->
        (exists f0, n = NFloat f0) \/ (exists g0, m = NFloat g0) ->
        to_float n = None \/ to_float m = None ->
        evaluate_comparison l "=" r s = (Raise (PyError OverflowError), s)).
Proof.
  intros fuel clock s x i y j a b.
  split; [vm_compute; reflexivity|].
  split; [vm_compute; reflexivity|].
  split; [vm_compute; reflexivity|].
  split; [vm_compute; reflexivity|].
  split; [vm_compute; reflexivity|].
  split.
  { unfold evaluate_comparison. simpl. unfold bind.
    rewrite close_enough_int. reflexivity. }
  split.
  { unfold evaluate_comparison, equal, bind, get, lift, ret. simpl.
    unfold num_eqb. simpl. rewrite Z.eqb_compare.
    destruct (x ?= y)%Z; reflexivity. }
  split.
  { unfold evaluate_comparison, equal, bind, get, lift, ret. simpl.
    unfold num_eqb. simpl. rewrite Z.eqb_compare.
    destruct (x ?= y)%Z; reflexivity. }
  split.
  { unfold evaluate_comparison, bind, lift, ret. simpl.
    destruct (x =? y)%Z; reflexivity. }
  split.
  { unfold evaluate_comparison, bind, lift, ret. simpl.
    destruct (x =? y)%Z; reflexivity. }
  split; [vm_compute; reflexivity|].
  split.
  { intros l r u v Hl Hr. unfold evaluate_comparison. simpl. unfold bind.
    rewrite (close_enough_integers l r u v s Hl Hr). reflexivity. }
  split.
  { intros l r n m f g Hl Hr Hf Hn Hm. unfold evaluate_comparison. simpl.
    unfold bind. rewrite (close_enough_floats l r n m f g s Hl Hr Hf Hn Hm).
    reflexivity. }
  split.
  { intros l r H. unfold evaluate_comparison. simpl. unfold bind.
    rewrite (close_enough_no_number l r s H). reflexivity. }
  split.
  { intros l r sl sr Hl Hr. unfold evaluate_comparison. simpl. unfold bind.
    rewrite Hl, Hr. reflexivity. }
  split.
  { intros t k c z. repeat split.
    intros H. unfold str, bind, get, lift. simpl.
    destruct (4300 <? String.length (string_of_Z z))%nat eqn:E;
      [apply Nat.ltb_lt in E; lia|reflexivity]. }
  split.
  { intros l r e He. unfold evaluate_comparison. simpl. unfold bind.
    rewrite He. destruct e; reflexivity. }
  split.
  { intros l r n m Hl Hr. unfold equal, bind, get, lift.
    destruct (heap_depth s); simpl; rewrite Hl, Hr; reflexivity. }
  split.
  { intros t k t' k'. unfold equal, bind, get, lift.
    destruct (heap_depth s); reflexivity. }
  split.
  { intros l r c Hc. unfold evaluate_comparison. simpl.
    unfold bind, lift, ret. rewrite Hc. reflexivity. }
  intros l r n m Hl Hr Hf Hno. unfold evaluate_comparison. simpl.
  unfold bind. rewrite (close_enough_overflow l r n m s Hl Hr Hf Hno).
  reflexivity.
Qed.

(** The amended C4 at the text [3] and the integer 3, which [==] takes
    for equal and [===] does not, and at the doubles 1.5 and 1.25. *)
Lemma equality_witness :
  evaluate_comparison (VStr "3" Unknown) "==" (VInt 3 Cached)
    (new zero_clock)
  = (Ok (VBool true), new zero_clock)
  /\ evaluate_comparison (VStr "3" Unknown) "===" (VInt 3 Cached)
       (new zero_clock)
     = (Ok (VBool false), new zero_clock)
  /\ evaluate_comparison
       (VFloat (S754_finite false 6755399441055744 (-52)) Unknown) "="
       (VFloat (S754_finite false 5629499534213120 (-52)) Unknown)
       (new zero_clock)
     = (Ok (VBool true), new zero_clock)
  /\ evaluate_comparison VNone "=" (VInt 3 Cached) (new zero_clock)
     = (Raise (PyError TypeError), new zero_clock)
  /\ evaluate_comparison (VInt 7 (Object 1)) "====" (VInt 7 (Object 2))
       (new zero_clock)
     = (Ok (VBool false), new zero_clock).
Proof.
  destruct (equality_ladder 0 zero_clock (new zero_clock) 0 Cached 0 Cached
              0 0)
    as (_ & _ & _ & _ & _ & _ & _ & _ & _ & _ & _ & _ & Hf & Hn & Ht & _
        & Hs & _ & _ & Hi & _).
  split.
  { exact (Ht (VStr "3" Unknown) (VInt 3 Cached) "3" "3" eq_refl eq_refl). }
  split; [exact (Hs (VStr "3" Unknown) (VInt 3 Cached) false eq_refl)|].
  split.
  { exact (Hf (VFloat (S754_finite false 6755399441055744 (-52)) Unknown)
             (VFloat (S754_finite false 5629499534213120 (-52)) Unknown)
             _ _ _ _ eq_refl eq_refl
             (or_introl (ex_intro _ _ eq_refl)) eq_refl eq_refl). }
  split; [exact (Hn VNone (VInt 3 Cached) (or_introl eq_refl))|].
  exact (Hi (VInt 7 (Object 1)) (VInt 7 (Object 2)) false eq_refl).
Defined.

(** *** C5: indices out of range *)






(** *** C6: global constants *)

(** C6 (global constant): after [const const const x = 42!], reading [x]
    yields 42, and the statement [x = 0!] leaves it at 42.  The parser
    reads [x = 0] as a comparison; the statement compares 42 with the
    right operand and changes nothing, whatever integer stands in place
    of 0.  The name is in the set of immutable globals, and the global
    scope maps both [x] and [__global_const_x] to the wrapper of 42. *)
Theorem global_constant_keeps_its_value : forall fuel clock z i,
  let source := "const const const x = 42! print(x)! x = 0! print(x)!" in
  let final := snd (interpret (8 + fuel) source (new clock)) in
  let s := state_after "const const const x = 42!" in
  run_dreamberd (8 + fuel) clock source = Ok ["42"; "42"]
  /\ immutable_globals final = ["x"]
  /\ dict_get "x" (global_scope final) = Some 15
  /\ dict_get "__global_const_x" (global_scope final) = Some 15
  /\ nth_error (wrappers final) 15
     = Some (mkValue (VInt 42 Cached) false None [VInt 42 Cached] None)
  /\ Parser.parse_dreamberd "x = 0!" 0
     = Parser.POk
         (Program
            [ExpressionStatement
               (BinaryOperation (Identifier "x") "="
                  (NumberLiteral (LInt 0 Cached))) 1 false])
         (Parser.mkParser (Lexer.Token4 Lexer.T_EOF EmptyString 1 7) [] 0)
  /\ visit (3 + fuel)
       (ExpressionStatement
          (BinaryOperation (Identifier "x") "=" (NumberLiteral (LInt z i)))
          1 false) s
     = (Ok (VBool (42 =? z)%Z), s).
Proof.
  intros fuel clock z i source final s.
  split; [vm_compute; reflexivity|].
  split; [vm_compute; reflexivity|].
  split; [vm_compute; reflexivity|].
  split; [vm_compute; reflexivity|].
  split; [vm_compute; reflexivity|].
  split; [vm_compute; reflexivity|].
  assert (Hx : dispatch (visit fuel) (Identifier "x") s
               = (Ok (VInt 42 Cached), s))
    by (vm_compute; reflexivity).
  change (3 + fuel) with (S (S (S fuel))).
  cbn [visit dispatch]. unfold visit_ExpressionStatement.
  unfold bind at 1. cbn [visit dispatch]. unfold visit_BinaryOperation.
  unfold bind at 1. rewrite Hx.
  unfold bind at 1. cbn [visit dispatch visit_NumberLiteral]. unfold ret at 1.
  cbn [String.eqb Ascii.eqb Bool.eqb is_comparison_operator existsb orb].
  unfold evaluate_comparison.
  cbn [String.eqb Ascii.eqb Bool.eqb]. unfold bind at 1.
  rewrite close_enough_int. reflexivity.
Qed.

(** *** C7: increments *)

(** C7, as stated, fails: the program [var x = 5! ++x!] emits no line.
    An expression statement prints only when its terminator is a question
    mark. *)
Lemma increment_statement_emits_nothing :
  run_dreamberd 8 zero_clock "var x = 5! ++x!" = Ok []
  /\ fst (interpret 8 "var x = 5! ++x!" (new zero_clock))
     = Ok (VInt 6 Cached).
Proof. split; vm_compute; reflexivity. Qed.

(** C7, amended: for a variable bound to an integer or a float, the
    increment expression adds one, stores the sum as the current value of
    the binding and appends it to the history of the binding; every other
    binding, the scopes and the output are unchanged.  The prefix form
    yields the sum, the postfix form the value held before; the statement
    emits no line.  On a value that is neither an integer nor a float the
    expression raises a [DreamBerdError] and changes nothing. *)
Theorem increment_yields_and_records :
  forall fuel s s1 name ref w is_prefix,
    get_variable name s = (Ok ref, s1) ->
    nth_error (wrappers s1) ref = Some w ->
    let increment := IncrementExpression (Identifier name) is_prefix in
    (forall z i, value_ w = VInt z i ->
       exists i' s2,
         visit (S fuel) increment s
         = (Ok (if is_prefix then VInt (z + 1) i' else VInt z i), s2)
         /\ recorded ref w (VInt (z + 1) i') s1 s2)
    /\
    (forall f i, value_ w = VFloat f i ->
       exists i' s2,
         visit (S fuel) increment s
         = (Ok (if is_prefix then VFloat (SFadd prec emax f float_one) i'
                else VFloat f i), s2)
         /\ recorded ref w (VFloat (SFadd prec emax f float_one) i') s1 s2)
    /\
    (is_int (value_ w) || is_float (value_ w) = false ->
       visit (S fuel) increment s
       = (Raise
            (DreamBerdError
               ("Cannot increment non-numeric value: "
                ++ type_repr (value_ w))%string), s1)).
Proof.
  intros fuel s s1 name ref w is_prefix Hget Hw increment.
  assert (Hstep : forall v,
            value_ w = v ->
            visit (S fuel) increment s
            = match v with
              | VInt _ _ | VBool _ | VFloat _ _ =>
                  (new_value <- py_add v (VInt 1 Cached) ;;
                   update_wrapper ref (set_value new_value) ;;;
                   ret (if is_prefix then new_value else v)) s1
              | _ =>
                  (Raise (DreamBerdError
                            ("Cannot increment non-numeric value: "
                             ++ type_repr v)%string), s1)
              end).
  { intros v Hv. subst increment. simpl.
    unfold visit_IncrementExpression, visit_step.
    unfold bind at 1. rewrite Hget.
    unfold bind at 1. unfold read_wrapper. rewrite Hw. rewrite Hv.
    destruct v; reflexivity. }
  split; [|split].
  - intros z i Hv. rewrite (Hstep _ Hv).
    unfold py_add, arith, new_int, bind. simpl.
    destruct (is_small_int (z + 1)); simpl.
    + exists Cached. eexists. split; [reflexivity|].
      unfold recorded; simpl. repeat split; auto.
      * apply nth_error_update_nth; auto.
      * intros. apply nth_error_update_nth_other; auto.
    + exists (Object (next_object s1)). eexists. split; [reflexivity|].
      unfold recorded; simpl. repeat split; auto.
      * apply nth_error_update_nth; auto.
      * intros. apply nth_error_update_nth_other; auto.
  - intros f i Hv. rewrite (Hstep _ Hv).
    unfold py_add, arith, new_float, bind. simpl.
    exists (Object (next_object s1)). eexists. split; [reflexivity|].
    unfold recorded; simpl. repeat split; auto.
    + apply nth_error_update_nth; auto.
    + intros. apply nth_error_update_nth_other; auto.
  - intros Hn. rewrite (Hstep _ eq_refl).
    destruct (value_ w); simpl in Hn; try discriminate; reflexivity.
Qed.

(** The amended C7 at the example of the specification: after
    [var x = 5! ++x!] the variable holds 6, with the history 5, 6; the
    postfix increment yields 6 and leaves 7 in the binding. *)
Lemma increment_witness :
  let s := state_after "var x = 5! ++x!" in
  let w := mkValue (VInt 6 Cached) false None [VInt 5 Cached; VInt 6 Cached]
             (Some 1%Z) in
  get_variable "x" s = (Ok 15, s)
  /\ nth_error (wrappers s) 15 = Some w
  /\ exists i' s2,
       visit 3 (IncrementExpression (Identifier "x") false) s
       = (Ok (VInt 6 Cached), s2)
       /\ recorded 15 w (VInt 7 i') s s2.
Proof.
  intros s w.
  assert (Hget : get_variable "x" s = (Ok 15, s))
    by (vm_compute; reflexivity).
  assert (Hw : nth_error (wrappers s) 15 = Some w)
    by (vm_compute; reflexivity).
  split; [exact Hget|]. split; [exact Hw|].
  exact (proj1 (increment_yields_and_records 2 s s "x" 15 w false Hget Hw)
           6%Z Cached eq_refl).
Defined.

(** *** C10: the history of a wrapper *)

(** The operations on one wrapper. *)
Lemma wrapper_ok_new_value v l : wrapper_ok (new_value v l).
Proof. exists []. reflexivity. Qed.

Lemma wrapper_ok_set_value v w : wrapper_ok (set_value v w).
Proof. exists (history w). reflexivity. Qed.

Lemma wrapper_ok_set_deleted w : wrapper_ok w -> wrapper_ok (set_deleted w).
Proof. intros [e H]. exists e. exact H. Qed.

Lemma wrapper_ok_set_priority p w :
  wrapper_ok w -> wrapper_ok (set_priority p w).
Proof. intros [e H]. exists e. exact H. Qed.

Lemma Forall_update_nth {A} (P : A -> Prop) f n l :
  (forall x, P x -> P (f x)) -> Forall P l -> Forall P (update_nth n f l).
Proof.
  intros Hf H. revert n. induction H; intros [|n]; simpl; constructor; auto.
Qed.

Lemma preserves_ret {A} (a : A) : preserves (ret a).
Proof. intros s H. exact H. Qed.

Lemma preserves_lift {A} (r : result A) : preserves (lift r).
Proof. intros s H. exact H. Qed.

Lemma preserves_raise {A} e : preserves (@raise A e).
Proof. intros s H. exact H. Qed.

Lemma preserves_bind {A B} (m : M A) (k : A -> M B) :
  preserves m -> (forall a, preserves (k a)) -> preserves (bind m k).
Proof.
  intros Hm Hk s H. unfold bind. specialize (Hm s H).
  destruct (m s) as [[a| e| |] s']; simpl in *; auto. apply Hk; auto.
Qed.

Lemma preserves_modify f :
  (forall s, store_ok s -> store_ok (f s)) -> preserves (modify f).
Proof. intros Hf s H. apply Hf, H. Qed.

Lemma preserves_try_except {A} (m : M A) h :
  preserves m -> (forall e, preserves (h e)) -> preserves (try_except m h).
Proof.
  intros Hm Hh s H. unfold try_except. specialize (Hm s H).
  destruct (m s) as [[a| e| |] s']; simpl in *; auto.
  destruct (is_DreamBerdError e); simpl; auto. apply Hh; auto.
Qed.

Lemma preserves_try_finally {A} (m : M A) c :
  preserves m -> preserves c -> preserves (try_finally m c).
Proof.
  intros Hm Hc s H. unfold try_finally. specialize (Hm s H).
  destruct (m s) as [[a| e| |] s']; simpl in *; auto.
  - apply (preserves_bind c (fun _ => ret a)); auto.
    intros; apply preserves_ret.
  - apply (preserves_bind c (fun _ => raise e)); auto.
    intros; apply preserves_raise.
Qed.

Lemma preserves_for_each {A B} (f : A -> M B) l :
  (forall x, preserves (f x)) -> preserves (for_each f l).
Proof.
  intros Hf. induction l; simpl.
  - apply preserves_ret.
  - apply preserves_bind; auto. intros. apply preserves_bind; auto.
    intros. apply preserves_ret.
Qed.

Lemma preserves_fun {A} (m : M A) :
  (forall s, wrappers (snd (m s)) = wrappers s) -> preserves m.
Proof. intros E s H. unfold store_ok. rewrite E. exact H. Qed.

Lemma preserves_alloc_wrapper w : wrapper_ok w -> preserves (alloc_wrapper w).
Proof.
  intros Hw s H. unfold alloc_wrapper, store_ok; simpl.
  apply Forall_app. split; auto.
Qed.

Lemma preserves_update_wrapper ref f :
  (forall w, wrapper_ok w -> wrapper_ok (f w)) ->
  preserves (update_wrapper ref f).
Proof.
  intros Hf. apply preserves_modify. intros s H. unfold store_ok; simpl.
  apply Forall_update_nth; auto.
Qed.

Ltac frame := apply preserves_fun; intros; reflexivity.

Ltac pres :=
  repeat first
    [ assumption
    | solve [ auto ]
    | apply preserves_ret
    | apply preserves_lift
    | apply preserves_raise
    | apply preserves_bind; [ | intros ]
    | apply preserves_try_except; [ | intros ]
    | apply preserves_try_finally
    | apply preserves_for_each; intros
    | apply preserves_alloc_wrapper;
      auto using wrapper_ok_new_value, wrapper_ok_set_priority
    | apply preserves_update_wrapper;
      auto using wrapper_ok_set_value, wrapper_ok_set_deleted
    | solve [ frame ]
    | match goal with
      | |- preserves (if ?b then _ else _) => destruct b
      | |- preserves (match ?x with _ => _ end) => destruct x
      end ].

Lemma preserves_read_wrapper ref : preserves (read_wrapper ref).
Proof. intros s H. unfold read_wrapper. destruct nth_error; exact H. Qed.
Lemma preserves_read_list a : preserves (read_list a).
Proof. intros s H. unfold read_list. destruct nth_error; exact H. Qed.
#[local] Hint Resolve preserves_read_wrapper preserves_read_list : core.

Lemma preserves_get : preserves get.
Proof. frame. Qed.
#[local] Hint Resolve preserves_get : core.

Lemma preserves_new_int z : preserves (new_int z).
Proof. unfold new_int. pres. Qed.
Lemma preserves_new_float z : preserves (new_float z).
Proof. unfold new_float. pres. Qed.
#[local] Hint Resolve preserves_new_int preserves_new_float : core.

Lemma preserves_truthy v : preserves (truthy v).
Proof. unfold truthy. pres. Qed.
#[local] Hint Resolve preserves_truthy : core.

Lemma preserves_get_variable_from name scopes : forall skipped,
  preserves (get_variable_from name skipped scopes).
Proof.
  induction scopes; intros; simpl.
  - apply preserves_raise.
  - unfold is_expired, error. pres.
Qed.
#[local] Hint Resolve preserves_get_variable_from : core.

Lemma preserves_get_variable name : preserves (get_variable name).
Proof. unfold get_variable. pres. Qed.
#[local] Hint Resolve preserves_get_variable : core.

Lemma preserves_bind_current name ref : preserves (bind_current name ref).
Proof.
  apply preserves_fun. intros s. unfold bind_current, modify; simpl.
  destruct (scope_stack s); reflexivity.
Qed.
Lemma preserves_bind_global name ref : preserves (bind_global name ref).
Proof. frame. Qed.
Lemma preserves_pop_scope : preserves pop_scope.
Proof.
  apply preserves_fun. intros s. unfold pop_scope, modify; simpl.
  destruct (scope_stack s) as [|? [|? ?]]; reflexivity.
Qed.
Lemma preserves_push_scope sc : preserves (push_scope sc).
Proof. frame. Qed.
Lemma preserves_current_scope : preserves current_scope.
Proof. unfold current_scope, unmodelled. pres. Qed.
#[local] Hint Resolve preserves_bind_current preserves_bind_global
  preserves_pop_scope preserves_push_scope preserves_current_scope : core.

Lemma preserves_set_variable name w b :
  wrapper_ok w -> preserves (set_variable name w b).
Proof. intros. unfold set_variable. pres. Qed.

Lemma preserves_parse_lifetime t : preserves (parse_lifetime t).
Proof. unfold parse_lifetime, from_now, from_now_int, py_raise. pres. Qed.

Lemma preserves_str v : preserves (str v).
Proof. unfold str. pres. Qed.
Lemma preserves_equal a b : preserves (equal a b).
Proof. unfold equal. pres. Qed.
#[local] Hint Resolve preserves_str preserves_equal preserves_parse_lifetime
  : core.

Lemma preserves_arith f g x y : preserves (arith f g x y).
Proof. unfold arith, py_raise. pres. Qed.
#[local] Hint Resolve preserves_arith : core.

Lemma preserves_py_add a b : preserves (py_add a b).
Proof. unfold py_add, py_raise, unmodelled. pres. Qed.

Lemma preserves_evaluate_arithmetic l o r :
  preserves (evaluate_arithmetic l o r).
Proof.
  unfold evaluate_arithmetic, in_deleted, fraction_operand, error, py_raise,
    py_add, py_sub, py_mul, py_div, py_pow, py_mod, py_repeat, unmodelled.
  pres.
Qed.

Lemma preserves_evaluate_comparison l o r :
  preserves (evaluate_comparison l o r).
Proof.
  unfold evaluate_comparison, close_enough, py_order, py_raise, unmodelled.
  pres.
Qed.
#[local] Hint Resolve preserves_py_add preserves_evaluate_arithmetic
  preserves_evaluate_comparison preserves_set_variable : core.

Section VisitorsKeepTheInvariant.

Variable self_visit : node -> M value.
Hypothesis self_ok : forall n, preserves (self_visit n).

Lemma preserves_visit_all body : forall r,
  preserves (visit_all self_visit body r).
Proof. induction body; intros; simpl; pres. Qed.

Lemma preserves_run_block body : forall r,
  preserves (run_block self_visit body r).
Proof. induction body; intros; simpl; pres. Qed.

Lemma preserves_bind_parameters ps : forall args sc,
  preserves (bind_parameters ps args sc).
Proof. induction ps; intros; simpl; pres. Qed.

Lemma preserves_instance_of sc : forall d, preserves (instance_of sc d).
Proof. induction sc as [|[n r] sc]; intros; simpl; pres. Qed.

#[local] Hint Resolve preserves_visit_all preserves_run_block
  preserves_bind_parameters preserves_instance_of : core.

Lemma preserves_dispatch n : preserves (dispatch self_visit n).
Proof.
  destruct n; simpl;
    unfold visit_Program, visit_NumberLiteral, visit_MaybeLiteral,
      visit_Identifier, visit_ArrayLiteral, visit_ArrayAccess, element_at,
      visit_BinaryOperation, visit_UnaryOperation, visit_Assignment,
      visit_FunctionCall, call_function, builtin_print, call_signal, emit,
      visit_MemberAccess, visit_VariableDeclaration,
      visit_FunctionDeclaration, visit_ClassDeclaration,
      visit_PrintStatement, debug_info, visit_ExpressionStatement,
      visit_ReturnStatement, visit_DeleteStatement, visit_ReverseStatement,
      visit_PreviousExpression, visit_CurrentExpression,
      visit_UseExpression, visit_NewExpression, visit_FileBlock,
      visit_GlobalConstantDeclaration, visit_IncrementExpression,
      visit_DecrementExpression, visit_step, generic_visit, write_list,
      alloc_list, time_time, error, py_raise, unmodelled;
    pres.
Qed.

End VisitorsKeepTheInvariant.

Lemma preserves_visit fuel : forall n, preserves (visit fuel n).
Proof.
  induction fuel; intros; simpl.
  - intros s H. exact H.
  - apply preserves_dispatch. exact IHfuel.
Qed.

Lemma preserves_interpret fuel source : preserves (interpret fuel source).
Proof.
  intros s H. unfold interpret.
  destruct (Parser.parse_dreamberd source (next_object s)) as [ast p|e| |];
    try exact H.
  pose proof (preserves_visit fuel ast
                (with_next_object (Parser.next_object p) s) H) as Hv.
  destruct (visit fuel ast (with_next_object (Parser.next_object p) s))
    as [[v|e| |] s']; exact Hv.
Qed.

Lemma store_ok_new clock : store_ok (new clock).
Proof.
  unfold store_ok, new. cbn [wrappers]. apply Forall_forall.
  intros w Hin. apply in_map_iff in Hin. destruct Hin as [b [<- _]].
  apply wrapper_ok_new_value.
Qed.

Lemma get_previous_of_history w earlier previous :
  history w = earlier ++ [previous; value_ w] -> get_previous w = previous.
Proof.
  intros H. unfold get_previous. rewrite H, rev_app_distr. reflexivity.
Qed.

(** C10 (history invariant): the history of every wrapper is not empty
    and ends with the current value of the wrapper.  The constructor
    establishes this and [set_value] restores it; a fresh interpreter
    satisfies it; every visit and every run of [interpret] keeps it for
    all the wrappers of the interpreter, however the run ends and whatever
    fuel it is given.  [get_previous] is then the entry before the last
    one, and the current value when the history has one entry. *)
Theorem history_invariant :
  (forall v expiry, wrapper_ok (new_value v expiry))
  /\ (forall v w, wrapper_ok (set_value v w))
  /\ (forall clock, store_ok (new clock))
  /\ (forall fuel n s, store_ok s -> store_ok (snd (visit fuel n s)))
  /\ (forall fuel source s,
        store_ok s -> store_ok (snd (interpret fuel source s)))
  /\ (forall w earlier previous,
        history w = earlier ++ [previous; value_ w] ->
        get_previous w = previous)
  /\ (forall w, history w = [value_ w] -> get_previous w = value_ w)
  /\ (forall fuel name s ref s1 w,
        get_variable name s = (Ok ref, s1) ->
        nth_error (wrappers s1) ref = Some w ->
        visit (S fuel) (PreviousExpression (Identifier name)) s
        = (Ok (get_previous w), s1)).
Proof.
  split; [exact wrapper_ok_new_value|].
  split; [exact wrapper_ok_set_value|].
  split; [exact store_ok_new|].
  split; [intros fuel n s; apply preserves_visit|].
  split; [intros fuel source s; apply preserves_interpret|].
  split; [exact get_previous_of_history|].
  split.
  - intros w H. unfold get_previous. rewrite H. reflexivity.
  - intros fuel name s ref s1 w Hget Hw. simpl.
    unfold visit_PreviousExpression. unfold bind at 1. rewrite Hget.
    unfold bind, read_wrapper. rewrite Hw. reflexivity.
Qed.

(** C10 at an example: the wrappers of the interpreter that ran
    [var x = 5! ++x!] satisfy the invariant, also after one more
    increment; [previous x] is then 6. *)
Lemma history_invariant_witness :
  let s := state_after "var x = 5! ++x!" in
  let s' := snd (visit 3 (IncrementExpression (Identifier "x") true) s) in
  store_ok s
  /\ store_ok s'
  /\ visit 3 (PreviousExpression (Identifier "x")) s'
     = (Ok (VInt 6 Cached), s').
Proof.
  intros s s'.
  assert (Hs : store_ok s).
  { exact (proj1 (proj2 (proj2 (proj2 (proj2 history_invariant)))) 16
             "var x = 5! ++x!" (new zero_clock)
             (proj1 (proj2 (proj2 history_invariant)) zero_clock)). }
  split; [exact Hs|].
  split.
  - exact (proj1 (proj2 (proj2 (proj2 history_invariant))) 3
             (IncrementExpression (Identifier "x") true) s Hs).
  - refine (proj2 (proj2 (proj2 (proj2 (proj2 (proj2 (proj2
              history_invariant)))))) 2 "x" s' 15 s'
              (mkValue (VInt 7 Cached) false None
                 [VInt 5 Cached; VInt 6 Cached; VInt 7 Cached] (Some 1%Z))
              _ _); vm_compute; reflexivity.
Defined.

End InterpreterProperties.

(** * More of the code *)

(** ** The lexer: what [tokenize] consumes and what it emits *)

Section LexerCoverage.

Import Lexer.

Lemma place_push_token t lx : place (push_token t lx) = place lx.
Proof. reflexivity. Qed.

Lemma place_advance a b :
  place a = place b -> place (advance a) = place (advance b).
Proof.
  unfold place, advance. intros H. inversion H as [[Hr Hp Hl Hc]].
  rewrite Hr, Hp, Hl, Hc.
  destruct (rest b) as [|c r]; [reflexivity|].
  destruct (Ascii.eqb c newline); reflexivity.
Qed.

Lemma place_iter_advance k : forall a b,
  place a = place b ->
  place (Nat.iter k advance a) = place (Nat.iter k advance b).
Proof.
  induction k; intros a b H; simpl; [exact H|].
  apply place_advance, IHk, H.
Qed.

Lemma iter_advance_shift k lx :
  Nat.iter k advance (advance lx) = advance (Nat.iter k advance lx).
Proof. induction k; simpl; [reflexivity|]. rewrite IHk. reflexivity. Qed.

Lemma tokens_advance lx : tokens (advance lx) = tokens lx.
Proof.
  unfold advance. destruct (rest lx) as [|c r]; [reflexivity|].
  destruct (Ascii.eqb c newline); reflexivity.
Qed.

Lemma tokens_iter_advance k lx : tokens (Nat.iter k advance lx) = tokens lx.
Proof.
  induction k; simpl; [reflexivity|]. rewrite tokens_advance. exact IHk.
Qed.

Lemma rest_advance lx : rest (advance lx) = drop_chars 1 (rest lx).
Proof.
  unfold advance. destruct (rest lx) as [|c r]; [reflexivity|].
  destruct (Ascii.eqb c newline); reflexivity.
Qed.

Lemma length_drop_chars k : forall s,
  String.length (drop_chars k s) = String.length s - k.
Proof.
  induction k; intros [|c s]; simpl; auto.
Qed.

Lemma drop_chars_add j : forall k s,
  drop_chars k (drop_chars j s) = drop_chars (j + k) s.
Proof.
  induction j; intros k s; simpl; [reflexivity|].
  destruct s as [|c s]; [destruct k; reflexivity|]. apply IHj.
Qed.

(** What [k] calls of [advance] do when [k] characters are left. *)
Lemma iter_advance_place k : forall lx,
  k <= String.length (rest lx) ->
  rest (Nat.iter k advance lx) = drop_chars k (rest lx)
  /\ pos (Nat.iter k advance lx) = pos lx + k
  /\ line (Nat.iter k advance lx)
     = line lx + newlines (take_chars k (rest lx))
  /\ column (Nat.iter k advance lx)
     = column_after (column lx) (take_chars k (rest lx)).
Proof.
  induction k; intros lx Hk.
  - simpl. rewrite Nat.add_0_r. destruct (rest lx); simpl; auto.
  - change (Nat.iter (S k) advance lx) with (advance (Nat.iter k advance lx)).
    rewrite <- iter_advance_shift.
    destruct (rest lx) as [|c r] eqn:Hr; [simpl in Hk; lia|].
    simpl in Hk.
    assert (Hk' : k <= String.length (rest (advance lx))).
    { rewrite rest_advance, Hr. simpl. lia. }
    destruct (IHk (advance lx) Hk') as [H1 [H2 [H3 H4]]].
    rewrite H1, H2, H3, H4. unfold advance. rewrite Hr. simpl.
    destruct (Ascii.eqb c newline); simpl; repeat split; lia.
Qed.

Lemma lexes_refl lx : lexes 0 [] lx lx.
Proof.
  unfold lexes. simpl. rewrite app_nil_r. repeat split. lia.
Qed.

Lemma lexes_trans j k e1 e2 a b c :
  lexes j e1 a b -> lexes k e2 b c -> lexes (j + k) (e1 ++ e2) a c.
Proof.
  intros [Hj [Hp He]] [Hk [Hp' He']].
  assert (Hrb : rest b = drop_chars j (rest a)).
  { pose proof (proj1 (iter_advance_place j a Hj)) as H.
    unfold place in Hp. inversion Hp. congruence. }
  rewrite Hrb, length_drop_chars in Hk.
  unfold lexes. repeat split.
  - lia.
  - rewrite Hp'. rewrite Nat.add_comm, Nat.iter_add.
    apply place_iter_advance, Hp.
  - rewrite He', He, app_assoc. reflexivity.
Qed.

Lemma lexes_advance lx c :
  current_char lx = Some c -> lexes 1 [] lx (advance lx).
Proof.
  unfold current_char, lexes. intros H.
  destruct (rest lx) eqn:Hr; [discriminate|].
  simpl. rewrite tokens_advance, app_nil_r. repeat split. lia.
Qed.

Lemma lexes_push t lx : lexes 0 [t] lx (push_token t lx).
Proof. unfold lexes. simpl. repeat split. lia. Qed.

Lemma lexes_iter_advance k lx :
  k <= String.length (rest lx) -> lexes k [] lx (Nat.iter k advance lx).
Proof.
  intros H. unfold lexes. rewrite tokens_iter_advance, app_nil_r. auto.
Qed.

Lemma length_take_while p : forall s,
  String.length (take_while p s) <= String.length s.
Proof.
  induction s as [|c s IH]; simpl; [lia|].
  destruct (p c); simpl; lia.
Qed.

Lemma append_assoc (a b c : string) : ((a ++ b) ++ c = a ++ (b ++ c))%string.
Proof. induction a; simpl; congruence. Qed.

(** [while_char] consumes the longest prefix of the input whose characters
    satisfy [p], and appends it to [value]. *)
Lemma while_char_spec p : forall fuel lx v,
  String.length (rest lx) <= fuel ->
  snd (while_char fuel p lx v) = (v ++ take_while p (rest lx))%string
  /\ lexes (String.length (take_while p (rest lx))) [] lx
       (fst (while_char fuel p lx v)).
Proof.
  induction fuel; intros lx v Hf.
  - destruct (rest lx) eqn:Hr; [|simpl in Hf; lia].
    simpl. rewrite append_empty. split; [reflexivity|].
    apply lexes_refl.
  - simpl. unfold current_char.
    destruct (rest lx) as [|c r] eqn:Hr.
    + simpl. rewrite append_empty. split; [reflexivity|]. apply lexes_refl.
    + simpl. destruct (p c) eqn:Hp.
      * assert (Hra : rest (advance lx) = r).
        { rewrite rest_advance, Hr. reflexivity. }
        assert (Hf' : String.length (rest (advance lx)) <= fuel).
        { rewrite Hra. simpl in Hf. lia. }
        destruct (IHfuel (advance lx) (v ++ str1 c)%string Hf') as [Hv Hl].
        rewrite Hra in Hv, Hl. split.
        -- rewrite Hv. unfold str1. rewrite append_assoc. reflexivity.
        -- refine (lexes_trans 1 _ [] [] lx (advance lx) _ _ Hl).
           apply (lexes_advance lx c). unfold current_char. rewrite Hr.
           reflexivity.
      * simpl. rewrite append_empty. split; [reflexivity|]. apply lexes_refl.
Qed.

Lemma consume_while_spec p lx v :
  snd (consume_while p lx v) = (v ++ take_while p (rest lx))%string
  /\ lexes (String.length (take_while p (rest lx))) [] lx
       (fst (consume_while p lx v)).
Proof. apply while_char_spec. apply Nat.le_refl. Qed.

Lemma take_while_progress p lx c :
  current_char lx = Some c -> p c = true ->
  1 <= String.length (take_while p (rest lx)).
Proof.
  unfold current_char. destruct (rest lx) as [|c' r]; [discriminate|].
  intros H Hp. inversion H; subst. simpl. rewrite Hp. simpl. lia.
Qed.

Lemma lexes_skip_whitespace lx :
  exists k, lexes k [] lx (skip_whitespace lx).
Proof. eexists. apply (consume_while_spec is_blank lx EmptyString). Qed.

Lemma digit_is_no_letter c : isdigit c = true -> isalpha c = false.
Proof.
  destruct c as [[] [] [] [] [] [] [] []]; vm_compute; intros H;
    first [reflexivity | discriminate H].
Qed.

Lemma letter_is_identifier_char c :
  isalpha c = true -> is_identifier_char c = true.
Proof.
  intros H. unfold is_identifier_char, isalnum. rewrite H. reflexivity.
Qed.

Lemma lower_char_is_not_capital_n c : lower_char c <> "N"%char.
Proof.
  destruct c as [[] [] [] [] [] [] [] []]; vm_compute; discriminate.
Qed.

Lemma lower_is_not_className v : String.eqb (lower v) "className" = false.
Proof.
  apply String.eqb_neq. intros H.
  destruct v as [|c0 [|c1 [|c2 [|c3 [|c4 [|c5 v]]]]]]; try discriminate H.
  simpl in H. inversion H as [[H0 H1 H2 H3 H4 H5 H6]].
  exact (lower_char_is_not_capital_n c5 H5).
Qed.

(** No keyword of the table has a type that the lexer cannot make: the
    entry [className] is never found, its key is not in lower case. *)
Lemma keyword_types v t :
  assoc (lower v) keywords = Some t -> never_lexed t = false.
Proof.
  unfold keywords, assoc.
  repeat match goal with
         | |- context [String.eqb (lower v) "className"] =>
             rewrite lower_is_not_className
         | |- context [if String.eqb (lower v) ?k then _ else _] =>
             destruct (String.eqb (lower v) k);
             [intros H; inversion H; reflexivity|]
         end.
  discriminate.
Qed.

Lemma count_run_le c : forall s, count_run c s <= String.length s.
Proof.
  induction s as [|c' s IH]; simpl; [lia|].
  destruct (Ascii.eqb c' c); lia.
Qed.

Lemma count_run_progress lx c :
  current_char lx = Some c -> 1 <= count_run c (rest lx).
Proof.
  unfold current_char. destruct (rest lx) as [|c' r]; [discriminate|].
  intros H. inversion H; subst. simpl. rewrite Ascii.eqb_refl. lia.
Qed.

Lemma current_char_push t lx : current_char (push_token t lx) = current_char lx.
Proof. reflexivity. Qed.

Lemma lexes_single t c lx :
  current_char lx = Some c ->
  lexes 1 [Token4 t (str1 c) (line lx) (column lx)] lx (single t c lx).
Proof.
  intros H. unfold single.
  refine (lexes_trans 0 1 [_] [] lx _ _ (lexes_push _ lx) _).
  apply (lexes_advance _ c). exact H.
Qed.

Lemma peek_length lx d :
  peek_char lx 1 = Some d -> 2 <= String.length (rest lx).
Proof.
  unfold peek_char. destruct (rest lx) as [|c [|c' r]]; simpl;
    try discriminate. intros _. lia.
Qed.

Lemma is_char_peek c o : is_char c o = true -> o = Some c.
Proof.
  destruct o as [c'|]; simpl; [|discriminate].
  intros H. apply Ascii.eqb_eq in H. congruence.
Qed.

Lemma lexes_double t text lx d :
  peek_char lx 1 = Some d ->
  lexes 2 [Token4 t text (line lx) (column lx)] lx (double t text lx).
Proof.
  intros H. unfold double.
  refine (lexes_trans 2 0 [] [_] lx _ _ _ (lexes_push _ _)).
  apply (lexes_iter_advance 2). eapply peek_length; eauto.
Qed.

(** The lexer after [lx], with the token [tok] appended. *)
Lemma lexes_emit k lx r :
  lexes k [] lx (fst r) -> lexes k [snd r] lx (emit r).
Proof.
  intros H. unfold emit.
  rewrite <- (Nat.add_0_r k).
  exact (lexes_trans k 0 [] [_] lx _ _ H (lexes_push _ _)).
Qed.

Lemma lexes_read_number lx c :
  current_char lx = Some c -> isdigit c = true ->
  exists k, 1 <= k /\ lexes k [] lx (fst (read_number lx))
            /\ tok_type (snd (read_number lx)) = T_NUMBER.
Proof.
  intros Hc Hd. unfold read_number.
  assert (Hw : take_while isalpha (rest lx) = EmptyString).
  { unfold current_char in Hc. destruct (rest lx) as [|c' r]; [discriminate|].
    inversion Hc; subst. simpl. rewrite (digit_is_no_letter _ Hd).
    reflexivity. }
  rewrite Hw. simpl assoc.
  pose proof (consume_while_spec (fun c => isdigit c || Ascii.eqb c ".") lx
                EmptyString) as [_ H1].
  assert (Hk : 1 <= String.length
                     (take_while (fun c => isdigit c || Ascii.eqb c ".")
                        (rest lx))).
  { apply (take_while_progress _ lx c Hc). rewrite Hd. reflexivity. }
  destruct (consume_while (fun c => isdigit c || Ascii.eqb c ".") lx
              EmptyString) as [lx1 value1].
  simpl in H1.
  destruct (is_char "/" (current_char lx1)
            && opt_test isdigit (peek_char lx1 1)) eqn:Hf.
  - apply andb_prop in Hf. destruct Hf as [Hs _]. apply is_char_peek in Hs.
    pose proof (consume_while_spec isdigit (advance lx1) (value1 ++ "/"))
      as [_ H2].
    destruct (consume_while isdigit (advance lx1) (value1 ++ "/"))
      as [lx2 value2].
    simpl in *. eexists. split; [|split; [|reflexivity]].
    2: { exact (lexes_trans _ _ [] [] _ _ _ H1
                  (lexes_trans 1 _ [] [] _ _ _ (lexes_advance _ _ Hs) H2)). }
    lia.
  - simpl. eexists. split; [exact Hk|]. split; [exact H1|reflexivity].
Qed.

Lemma lexes_read_string_loop q n : forall fuel lx v,
  exists k, lexes k [] lx (fst (read_string_loop fuel q n lx v)).
Proof.
  induction fuel; intros lx v; simpl.
  - exists 0. apply lexes_refl.
  - destruct (current_char lx) as [c|] eqn:Hc;
      [|exists 0; apply lexes_refl].
    assert (Hstep : forall v', exists k,
               lexes k [] lx
                 (fst (read_string_loop fuel q n (advance lx) v'))).
    { intros v'. destruct (IHfuel (advance lx) v') as [k Hk].
      exists (1 + k).
      exact (lexes_trans 1 k [] [] _ _ _ (lexes_advance _ _ Hc) Hk). }
    destruct (Ascii.eqb c q); [|apply Hstep].
    destruct (n <=? count_run q (rest lx))%nat eqn:Hn; [|apply Hstep].
    exists n. simpl. apply lexes_iter_advance.
    apply Nat.leb_le in Hn. pose proof (count_run_le q (rest lx)). lia.
Qed.

Lemma lexes_read_string q lx c :
  current_char lx = Some c ->
  exists k, 1 <= k /\ lexes k [] lx (fst (read_string q lx))
            /\ tok_type (snd (read_string q lx)) = T_STRING.
Proof.
  intros Hc. unfold read_string.
  pose proof (consume_while_spec (Ascii.eqb q) (advance lx) EmptyString)
    as [_ H1].
  destruct (consume_while (Ascii.eqb q) (advance lx) EmptyString)
    as [lx2 more].
  simpl in H1.
  destruct (lexes_read_string_loop q (S (String.length more))
              (String.length (rest lx2)) lx2 EmptyString) as [k Hk].
  destruct (read_string_loop (String.length (rest lx2)) q
              (S (String.length more)) lx2 EmptyString) as [lx3 value].
  simpl in *. eexists. split; [|split; [|reflexivity]].
  2: { exact (lexes_trans 1 _ [] [] _ _ _ (lexes_advance _ _ Hc)
                (lexes_trans _ _ [] [] _ _ _ H1 Hk)). }
  lia.
Qed.

Lemma lexes_const_const_const lx lx' :
  const_const_const lx = Some lx' -> exists k, lexes k [] lx lx'.
Proof.
  unfold const_const_const.
  destruct (lexes_skip_whitespace lx) as [k1 H1].
  set (lx1 := skip_whitespace lx) in *.
  destruct (opt_test isalpha (current_char lx1)); [|discriminate].
  destruct (String.eqb (lower (take_while isalpha (rest lx1))) "const");
    [|discriminate].
  set (lx2 := Nat.iter (String.length (take_while isalpha (rest lx1))) advance
                lx1).
  assert (H2 : lexes (String.length (take_while isalpha (rest lx1))) [] lx1 lx2)
    by (apply lexes_iter_advance, length_take_while).
  destruct (lexes_skip_whitespace lx2) as [k3 H3].
  set (lx3 := skip_whitespace lx2) in *.
  destruct (opt_test isalpha (current_char lx3)); [|discriminate].
  destruct (String.eqb (lower (take_while isalpha (rest lx3))) "const");
    [|discriminate].
  intros H. inversion H; subst lx'. eexists.
  refine (lexes_trans _ _ [] [] _ _ _ H1
            (lexes_trans _ _ [] [] _ _ _ H2
               (lexes_trans _ _ [] [] _ _ _ H3 _))).
  apply lexes_iter_advance, length_take_while.
Qed.

Lemma lexes_read_identifier lx c :
  current_char lx = Some c -> isalpha c = true ->
  exists k, 1 <= k /\ lexes k [] lx (fst (read_identifier lx))
            /\ never_lexed (tok_type (snd (read_identifier lx))) = false.
Proof.
  intros Hc Ha. unfold read_identifier.
  pose proof (consume_while_spec is_identifier_char lx EmptyString) as [_ H1].
  pose proof (take_while_progress is_identifier_char lx c Hc
                (letter_is_identifier_char c Ha)) as Hk.
  destruct (consume_while is_identifier_char lx EmptyString) as [lx1 value].
  simpl in H1.
  assert (Hkw : exists k, 1 <= k /\ lexes k [] lx lx1
            /\ never_lexed
                 match assoc (lower value) keywords with
                 | Some t => t
                 | None => T_IDENTIFIER
                 end = false).
  { eexists. split; [exact Hk|]. split; [exact H1|].
    destruct (assoc (lower value) keywords) as [t|] eqn:Ht;
      [exact (keyword_types _ _ Ht)|reflexivity]. }
  destruct (String.eqb (lower value) "const"); [|exact Hkw].
  destruct (const_const_const lx1) as [lx2|] eqn:Hccc; [|exact Hkw].
  destruct (lexes_const_const_const _ _ Hccc) as [k2 H2].
  simpl. eexists. split; [|split; [|reflexivity]].
  2: exact (lexes_trans _ _ [] [] _ _ _ H1 H2).
  lia.
Qed.

Lemma lexes_read_exclamation_marks lx :
  current_char lx = Some "!"%char ->
  exists k, 1 <= k /\ lexes k [] lx (fst (read_exclamation_marks lx))
            /\ tok_type (snd (read_exclamation_marks lx)) = T_EXCLAMATION.
Proof.
  intros Hc. unfold read_exclamation_marks.
  pose proof (consume_while_spec (Ascii.eqb "!") lx EmptyString) as [_ H1].
  pose proof (take_while_progress (Ascii.eqb "!") lx _ Hc eq_refl) as Hk.
  destruct (consume_while (Ascii.eqb "!") lx EmptyString) as [lx1 marks].
  simpl in *. eexists. split; [exact Hk|]. split; [exact H1|reflexivity].
Qed.

Lemma lexes_equals_run lx :
  current_char lx = Some "="%char ->
  exists k t, 1 <= k
    /\ lexes k [t] lx (equals_run (count_run "=" (rest lx)) lx)
    /\ never_lexed (tok_type t) = false.
Proof.
  intros Hc. pose proof (count_run_progress lx _ Hc) as Hn.
  pose proof (count_run_le "=" (rest lx)) as Hle.
  unfold equals_run.
  set (n := count_run "=" (rest lx)) in *.
  destruct (5 <=? n)%nat eqn:H5.
  { exists n, (Token4 T_FILE_SEPARATOR (repeat_char "=" n) (line lx)
                 (column lx)).
    split; [exact Hn|]. split; [|reflexivity].
    rewrite <- (Nat.add_0_r n) at 1.
    exact (lexes_trans n 0 [] [_] _ _ _ (lexes_iter_advance n lx Hle)
             (lexes_push _ _)). }
  destruct (n =? 4)%nat eqn:H4.
  { apply Nat.eqb_eq in H4.
    exists 4, (Token4 T_SUPER_STRICT_EQUAL "====" (line lx) (column lx)).
    split; [lia|].
    split; [|reflexivity].
    refine (lexes_trans 4 0 [] [_] _ _ _ (lexes_iter_advance 4 lx _)
              (lexes_push _ _)). lia. }
  destruct (n =? 3)%nat eqn:H3.
  { apply Nat.eqb_eq in H3.
    exists 3, (Token4 T_STRICT_EQUAL "===" (line lx) (column lx)).
    split; [lia|].
    split; [|reflexivity].
    refine (lexes_trans 3 0 [] [_] _ _ _ (lexes_iter_advance 3 lx _)
              (lexes_push _ _)). lia. }
  destruct (n =? 2)%nat eqn:H2.
  { apply Nat.eqb_eq in H2.
    exists 2, (Token4 T_LOOSE_EQUAL "==" (line lx) (column lx)).
    split; [lia|].
    split; [|reflexivity].
    refine (lexes_trans 2 0 [] [_] _ _ _ (lexes_iter_advance 2 lx _)
              (lexes_push _ _)). lia. }
  exists 1, (Token4 T_ASSIGN "=" (line lx) (column lx)).
  split; [lia|]. split; [|reflexivity].
  exact (lexes_trans 1 0 [] [_] _ _ _ (lexes_advance _ _ Hc) (lexes_push _ _)).
Qed.

Lemma scans_push_advance t lx c :
  current_char lx = Some c -> never_lexed (tok_type t) = false ->
  scans lx (advance (push_token t lx)).
Proof.
  intros Hc Ht. exists 1, [t]. split; [lia|]. split.
  - exact (lexes_trans 0 1 [_] [] lx _ _ (lexes_push t lx)
             (lexes_advance (push_token t lx) c Hc)).
  - split; [repeat constructor; exact Ht|simpl; lia].
Qed.

Lemma scans_double t text lx c :
  is_char c (peek_char lx 1) = true -> never_lexed t = false ->
  scans lx (double t text lx).
Proof.
  intros Hp Ht. apply is_char_peek in Hp.
  exists 2, [Token4 t text (line lx) (column lx)].
  split; [lia|]. split; [exact (lexes_double t text lx c Hp)|].
  split; [repeat constructor; exact Ht|simpl; lia].
Qed.

Lemma scans_emit lx r :
  (exists k, 1 <= k /\ lexes k [] lx (fst r)
             /\ never_lexed (tok_type (snd r)) = false) ->
  scans lx (emit r).
Proof.
  intros [k [Hk [Hl Ht]]]. exists k, [snd r]. split; [exact Hk|].
  split; [exact (lexes_emit k lx r Hl)|].
  split; [repeat constructor; exact Ht|simpl; lia].
Qed.

Lemma scans_advance lx c : current_char lx = Some c -> scans lx (advance lx).
Proof.
  intros Hc. exists 1, []. split; [lia|].
  split; [exact (lexes_advance lx c Hc)|]. split; [constructor|simpl; lia].
Qed.

Lemma scans_comment lx c :
  current_char lx = Some c -> Ascii.eqb c newline = false ->
  scans lx
    (fst (consume_while (fun c => negb (Ascii.eqb c newline)) lx EmptyString)).
Proof.
  intros Hc Hn. eexists _, []. split; [|split; [|split]].
  2: exact (proj2 (consume_while_spec _ lx EmptyString)).
  - apply (take_while_progress _ lx c Hc). rewrite Hn. reflexivity.
  - constructor.
  - simpl; lia.
Qed.

(** Every branch of the chain of [tokenize] consumes at least the character
    it stands on. *)
Lemma scans_scan_char lx c :
  current_char lx = Some c -> scans lx (scan_char c lx).
Proof.
  intros Hc. unfold scan_char, single.
  repeat match goal with
         | |- scans _ (if ?b then _ else _) => destruct b eqn:?
         end;
    try solve [ eapply scans_push_advance; [exact Hc|reflexivity]
              | eapply scans_double; [eassumption|reflexivity]
              | eapply scans_advance; exact Hc ].
  - apply (scans_comment lx c Hc).
    destruct (Ascii.eqb c newline); [discriminate|reflexivity].
  - apply scans_emit.
    destruct (lexes_read_number lx c Hc) as [k [Hk [Hl Ht]]]; [assumption|].
    exists k. rewrite Ht. auto.
  - apply scans_emit.
    destruct (lexes_read_string c lx c Hc) as [k [Hk [Hl Ht]]].
    exists k. rewrite Ht. auto.
  - apply scans_emit. apply (lexes_read_identifier lx c Hc). assumption.
  - match goal with H : _ && is_char ">" _ = true |- _ =>
      apply andb_prop in H; destruct H as [_ H] end.
    eapply scans_double; [eassumption|reflexivity].
  - match goal with H : Ascii.eqb c "=" = true |- _ =>
      apply Ascii.eqb_eq in H; subst c end.
    destruct (lexes_equals_run lx Hc) as [k [t [Hk [Hl Ht]]]].
    exists k, [t]. split; [exact Hk|]. split; [exact Hl|].
    split; [repeat constructor; exact Ht|simpl; lia].
  - match goal with H : Ascii.eqb c "!" = true |- _ =>
      apply Ascii.eqb_eq in H; subst c end.
    apply scans_emit.
    destruct (lexes_read_exclamation_marks lx Hc) as [k [Hk [Hl Ht]]].
    exists k. rewrite Ht. auto.
Qed.

(** The main loop: with fuel for every character that is left, it ends at
    the end of the source; it appends at most one token for each character
    it consumes, each of a type the lexer can make. *)
Lemma tokenize_loop_lexes : forall fuel lx,
  String.length (rest lx) <= fuel ->
  exists emitted,
    lexes (String.length (rest lx)) emitted lx (tokenize_loop fuel lx)
    /\ Forall (fun t => never_lexed (tok_type t) = false) emitted
    /\ List.length emitted <= String.length (rest lx).
Proof.
  induction fuel; intros lx Hf.
  - destruct (rest lx) eqn:Hr; [|simpl in Hf; lia].
    exists []. simpl. split; [|split; [constructor|lia]].
    pose proof (lexes_refl lx) as H. unfold lexes in *. rewrite Hr in *.
    exact H.
  - simpl. destruct (rest lx) as [|c0 r0] eqn:Hr.
    + exists []. simpl. split; [|split; [constructor|lia]].
      pose proof (lexes_refl lx) as H. unfold lexes in *. rewrite Hr in *.
      exact H.
    + unfold scan_token.
      destruct (lexes_skip_whitespace lx) as [k0 H0].
      set (lx1 := skip_whitespace lx) in *.
      assert (Hr1 : String.length (rest lx1) = String.length (rest lx) - k0).
      { destruct H0 as [Hk0 [Hp _]].
        pose proof (proj1 (iter_advance_place k0 lx Hk0)) as Hd.
        unfold place in Hp. inversion Hp as [[Hrest Hpos Hline Hcol]].
        rewrite Hrest, Hd. apply length_drop_chars. }
      assert (Hk0 : k0 <= String.length (rest lx)) by exact (proj1 H0).
      destruct (current_char lx1) as [c|] eqn:Hc.
      * destruct (scans_scan_char lx1 c Hc) as [k [e [Hk [Hl [He Hn]]]]].
        set (lx2 := scan_char c lx1) in *.
        assert (Hk' : k <= String.length (rest lx1)) by exact (proj1 Hl).
        assert (Hr2 : String.length (rest lx2) = String.length (rest lx1) - k).
        { destruct Hl as [_ [Hp _]].
          pose proof (proj1 (iter_advance_place k lx1 Hk')) as Hd.
          unfold place in Hp. inversion Hp as [[Hrest Hpos Hline Hcol]].
          rewrite Hrest, Hd. apply length_drop_chars. }
        rewrite Hr in *.
        change (String.length (String c0 r0)) with (S (String.length r0)) in *.
        assert (Hf2 : String.length (rest lx2) <= fuel) by lia.
        destruct (IHfuel lx2 Hf2) as [e2 [Hl2 [He2 Hn2]]].
        exists (e ++ e2). split; [|split].
        -- pose proof (lexes_trans _ _ _ _ _ _ _ H0
                         (lexes_trans _ _ _ _ _ _ _ Hl Hl2)) as H.
           replace (S (String.length r0))
             with (k0 + (k + String.length (rest lx2))) by lia.
           exact H.
        -- apply Forall_app. split; assumption.
        -- rewrite length_app. lia.
      * exists [].
        split; [|split; [constructor|simpl; lia]]; simpl tokenize_loop.
        unfold current_char in Hc.
        destruct (rest lx1) eqn:Hr1'; [|discriminate].
        rewrite Hr in *.
        change (String.length (String c0 r0)) with (S (String.length r0)) in *.
        simpl String.length in Hr1.
        replace (S (String.length r0)) with k0 by lia.
        exact H0.
Qed.

Lemma take_chars_all : forall s, take_chars (String.length s) s = s.
Proof. induction s; simpl; congruence. Qed.

Lemma drop_chars_all : forall s,
  drop_chars (String.length s) s = EmptyString.
Proof. induction s; simpl; congruence. Qed.

(** Where the main loop leaves the lexer of a source. *)
Lemma tokenize_loop_end source :
  let lx := tokenize_loop (String.length source) (new source) in
  place lx
  = (EmptyString, String.length source, 1 + newlines source,
     column_after 1 source)
  /\ exists emitted,
       tokens lx = emitted
       /\ Forall (fun t => never_lexed (tok_type t) = false) emitted
       /\ List.length emitted <= String.length source.
Proof.
  intros lx.
  destruct (tokenize_loop_lexes (String.length source) (new source)
              (Nat.le_refl _)) as [e [[Hk [Hp Ht]] [He Hn]]].
  fold lx in Hp, Ht. split.
  - rewrite Hp.
    destruct (iter_advance_place (String.length source) (new source)
                (Nat.le_refl _)) as [H1 [H2 [H3 H4]]].
    unfold place. simpl rest in *. rewrite H1, H2, H3, H4.
    rewrite take_chars_all, drop_chars_all. reflexivity.
  - exists e. simpl in Ht. auto.
Qed.

(** X1 (the lexer reads the whole source): the main loop of [tokenize]
    ends, after at most one iteration for each character, with the lexer
    at the end of the source: nothing is left, [pos] is the length of the
    source, [line] is one more than the number of newlines and [column] is
    the column after the last line.  No method steps over the end of the
    source. *)
Theorem lexer_reads_the_whole_source : forall source,
  let lx := tokenize_loop (String.length source) (new source) in
  rest lx = EmptyString
  /\ pos lx = String.length source
  /\ line lx = 1 + newlines source
  /\ column lx = column_after 1 source.
Proof.
  intros source lx.
  destruct (tokenize_loop_end source) as [Hp _]. fold lx in Hp.
  unfold place in Hp. injection Hp as Hr Hpos Hl Hc. auto.
Qed.

(** X2 (the tokens the lexer makes): the result of [tokenize] is a list of
    tokens followed by one end-of-stream token, which carries the line and
    column of the end of the source.  There are no more tokens before it
    than the source has characters, none of them is an end-of-stream
    token, and none has one of the types for which the lexer has no
    branch: not-equal, the logical and and or, the semicolon, the angle
    brackets, the indentations, the class-name keyword and the very loose
    equality. *)
Theorem tokens_the_lexer_makes : forall source,
  exists emitted,
    tokenize (new source)
    = emitted
      ++ [Token4 T_EOF EmptyString (1 + newlines source)
            (column_after 1 source)]
    /\ Forall (fun t => never_lexed (tok_type t) = false) emitted
    /\ List.length emitted <= String.length source.
Proof.
  intros source.
  destruct (tokenize_loop_end source) as [Hp [e [Ht [He Hn]]]].
  exists e. split; [|auto].
  unfold place in Hp. injection Hp as Hr Hpos Hl Hc.
  unfold tokenize. change (rest (new source)) with source. cbv zeta.
  unfold push_token. cbn [tokens]. rewrite Ht, Hl, Hc. reflexivity.
Qed.

Lemma take_chars_app w : forall tail,
  take_chars (String.length w) (w ++ tail) = w.
Proof. induction w; intros; simpl; [destruct tail|]; congruence. Qed.

Lemma drop_chars_app w : forall tail,
  drop_chars (String.length w) (w ++ tail) = tail.
Proof. induction w; intros; simpl; auto. Qed.

Lemma length_append (a b : string) :
  String.length (a ++ b) = String.length a + String.length b.
Proof. induction a; simpl; congruence. Qed.

Lemma newlines_app a : forall b,
  newlines (a ++ b) = newlines a + newlines b.
Proof.
  induction a as [|c a IH]; intros b; simpl; [reflexivity|].
  destruct (Ascii.eqb c newline); rewrite IH; reflexivity.
Qed.

Lemma column_after_app a : forall b col,
  column_after col (a ++ b) = column_after (column_after col a) b.
Proof.
  induction a as [|c a IH]; intros b col; simpl; [reflexivity|].
  destruct (Ascii.eqb c newline); apply IH.
Qed.

(** On a text without newline the column grows by the length. *)
Lemma column_after_line w : forall col,
  newlines w = 0 -> column_after col w = col + String.length w.
Proof.
  induction w as [|c w IH]; intros col H; simpl in *; [lia|].
  destruct (Ascii.eqb c newline); [discriminate|].
  rewrite IH by exact H. lia.
Qed.

Lemma length_repeat_char c n : String.length (repeat_char c n) = n.
Proof. induction n; simpl; congruence. Qed.

Lemma newlines_repeat_char c n :
  Ascii.eqb c newline = false -> newlines (repeat_char c n) = 0.
Proof. intros H. induction n; simpl; [reflexivity|]. rewrite H. exact IHn. Qed.

(** The lexer that [lexes] describes. *)
Lemma lexes_eq k e lx lx' :
  lexes k e lx lx' ->
  lx' = mkLexer (drop_chars k (rest lx)) (pos lx + k)
          (line lx + newlines (take_chars k (rest lx)))
          (column_after (column lx) (take_chars k (rest lx)))
          (tokens lx ++ e).
Proof.
  intros [Hk [Hp Ht]].
  destruct (iter_advance_place k lx Hk) as [H1 [H2 [H3 H4]]].
  unfold place in Hp. injection Hp as Hr Hpos Hl Hc.
  destruct lx'. simpl in *. congruence.
Qed.

(** The lexer after a text [w] that it consumed at the head of its input. *)
Lemma lexes_text w tail e lx lx' :
  rest lx = (w ++ tail)%string ->
  lexes (String.length w) e lx lx' ->
  lx' = mkLexer tail (pos lx + String.length w) (line lx + newlines w)
          (column_after (column lx) w) (tokens lx ++ e).
Proof.
  intros Hr H. rewrite (lexes_eq _ _ _ _ H), Hr.
  rewrite take_chars_app, drop_chars_app. reflexivity.
Qed.

Lemma take_while_repeat p c n tail :
  p c = true -> starts_with_char c tail = false ->
  (forall c', p c' = true -> c' = c) ->
  take_while p (repeat_char c n ++ tail) = repeat_char c n.
Proof.
  intros Hp Ht Hq. induction n; simpl.
  - destruct tail as [|c' t]; [reflexivity|]. simpl.
    destruct (p c') eqn:Hc'; [|reflexivity].
    apply Hq in Hc'. subst c'. simpl in Ht.
    rewrite Ascii.eqb_refl in Ht. discriminate.
  - rewrite Hp, IHn. reflexivity.
Qed.

(** The prefix [take_while] takes of a text whose characters satisfy [p],
    before a tail that starts with none that does. *)
Lemma take_while_app p w : forall tail,
  forallb p (list_ascii_of_string w) = true ->
  match tail with String c _ => p c | EmptyString => false end = false ->
  take_while p (w ++ tail) = w.
Proof.
  induction w as [|c w IH]; intros tail Hw Ht; simpl in *.
  - destruct tail as [|c t]; simpl in *; [reflexivity|]. rewrite Ht.
    reflexivity.
  - apply andb_prop in Hw. destruct Hw as [Hc Hw]. rewrite Hc.
    rewrite (IH tail Hw Ht). reflexivity.
Qed.

(** An iteration that starts on a character [c] that is no blank is the
    chain of [tokenize] at [c]. *)
Lemma skip_whitespace_at lx c r :
  rest lx = String c r -> is_blank c = false -> skip_whitespace lx = lx.
Proof.
  intros Hr Hb. unfold skip_whitespace.
  pose proof (proj2 (consume_while_spec is_blank lx EmptyString)) as H.
  rewrite Hr in H at 1. simpl in H. rewrite Hb in H. simpl in H.
  rewrite (lexes_eq _ _ _ _ H). destruct lx; simpl.
  rewrite Nat.add_0_r, Nat.add_0_r, app_nil_r.
  destruct rest0; reflexivity.
Qed.

Lemma scan_token_at lx c r :
  rest lx = String c r -> is_blank c = false ->
  scan_token lx = (scan_char c lx, true).
Proof.
  intros Hr Hb. unfold scan_token.
  rewrite (skip_whitespace_at lx c r Hr Hb).
  unfold current_char. rewrite Hr. reflexivity.
Qed.

(** X3 (exclamation marks): a maximal run of exclamation marks is one
    token, whose text is the run and whose priority is the number of
    marks. *)
Theorem exclamation_run_is_one_token : forall lx n tail,
  rest lx = (repeat_char "!" (S n) ++ tail)%string ->
  starts_with_char "!" tail = false ->
  scan_token lx
  = (mkLexer tail (pos lx + S n) (line lx) (column lx + S n)
       (tokens lx
        ++ [mkToken T_EXCLAMATION (repeat_char "!" (S n)) (line lx)
              (column lx) (Z.of_nat (S n))]), true).
Proof.
  intros lx n tail Hr Ht.
  rewrite (scan_token_at lx "!" (repeat_char "!" n ++ tail) Hr eq_refl).
  f_equal. unfold scan_char. simpl. unfold emit, read_exclamation_marks.
  destruct (consume_while_spec (Ascii.eqb "!") lx EmptyString) as [Hv Hl].
  destruct (consume_while (Ascii.eqb "!") lx EmptyString) as [lx1 marks].
  simpl in Hv, Hl. rewrite Hr in Hv, Hl.
  rewrite (take_while_repeat (Ascii.eqb "!") "!" (S n) tail eq_refl Ht)
    in Hv, Hl
    by (intros c' H; apply Ascii.eqb_eq in H; congruence).
  subst marks. rewrite (lexes_text _ _ _ _ _ Hr Hl).
  rewrite length_repeat_char, app_nil_r.
  rewrite (newlines_repeat_char "!" (S n) eq_refl), Nat.add_0_r.
  rewrite (column_after_line _ _ (newlines_repeat_char "!" (S n) eq_refl)).
  rewrite length_repeat_char. reflexivity.
Qed.

(** X3 at the text [!!! x]. *)
Lemma exclamation_run_witness :
  scan_token (new "!!! x")
  = (mkLexer " x" 3 1 4 [mkToken T_EXCLAMATION "!!!" 1 1 3], true).
Proof.
  exact (exclamation_run_is_one_token (new "!!! x") 2 " x" eq_refl eq_refl).
Defined.

Lemma no_newline_forallb w :
  newlines w = 0 ->
  forallb (fun c => negb (Ascii.eqb c newline)) (list_ascii_of_string w)
  = true.
Proof.
  induction w as [|c w IH]; simpl; [reflexivity|].
  destruct (Ascii.eqb c newline); [discriminate|]. exact IH.
Qed.

(** X4 (line comments): from two slashes to the end of the line the lexer
    consumes the text and makes no token; the newline is left for the
    next iteration. *)
Theorem comment_makes_no_token : forall lx text tail,
  rest lx = (String "/" (String "/" text) ++ tail)%string ->
  newlines text = 0 ->
  tail = EmptyString \/ starts_with_char newline tail = true ->
  scan_token lx
  = (mkLexer tail (pos lx + (2 + String.length text)) (line lx)
       (column lx + (2 + String.length text)) (tokens lx), true).
Proof.
  intros lx text tail Hr Hn Ht.
  rewrite (scan_token_at lx "/" _ Hr eq_refl). f_equal.
  unfold scan_char, peek_char. rewrite Hr. simpl String.get. simpl.
  destruct (consume_while_spec (fun c => negb (Ascii.eqb c newline)) lx
              EmptyString) as [_ Hl].
  rewrite Hr in Hl at 1.
  rewrite (take_while_app _ (String "/" (String "/" text)) tail) in Hl.
  - rewrite (lexes_text _ _ _ _ _ Hr Hl). simpl newlines.
    rewrite Hn, Nat.add_0_r, app_nil_r. f_equal.
    rewrite (column_after_line (String "/" (String "/" text)) (column lx))
      by exact Hn.
    reflexivity.
  - simpl. apply no_newline_forallb, Hn.
  - destruct Ht as [->|Ht]; [reflexivity|].
    destruct tail as [|c t]; [reflexivity|]. simpl in Ht. rewrite Ht.
    reflexivity.
Qed.

(** X4 at a comment before a newline. *)
Lemma comment_witness :
  scan_token (new ("// to do" ++ String newline "x!"))
  = (mkLexer (String newline "x!") 8 1 9 [], true).
Proof.
  exact (comment_makes_no_token (new ("// to do" ++ String newline "x!"))
           " to do" (String newline "x!") eq_refl eq_refl
           (or_intror eq_refl)).
Defined.

Lemma count_run_repeat_ge q n : forall tail,
  n <= count_run q (repeat_char q n ++ tail).
Proof.
  induction n; intros tail; simpl; [lia|].
  rewrite Ascii.eqb_refl. specialize (IHn tail). lia.
Qed.

Lemma char_in_cons q c w :
  char_in q (String c w) = false ->
  Ascii.eqb c q = false /\ char_in q w = false.
Proof.
  unfold char_in. simpl. intros H. apply orb_false_elim in H.
  destruct H as [H1 H2]. rewrite Ascii.eqb_sym. auto.
Qed.

(** The loop of [read_string] on a text without the quote character,
    before a run of [n] quotes: it takes the text and steps over [n]
    quotes. *)
Lemma read_string_loop_text q n : forall text fuel lx v tail,
  rest lx = (text ++ repeat_char q n ++ tail)%string ->
  char_in q text = false -> 1 <= n ->
  String.length text < fuel ->
  read_string_loop fuel q n lx v
  = (Nat.iter n advance (Nat.iter (String.length text) advance lx),
     (v ++ text)%string).
Proof.
  induction text as [|c text IH]; intros fuel lx v tail Hr Hq Hn Hf.
  - destruct fuel as [|fuel]; [simpl in Hf; lia|].
    destruct n as [|n]; [lia|].
    simpl in Hr. simpl. unfold current_char. rewrite Hr.
    rewrite Ascii.eqb_refl.
    pose proof (count_run_repeat_ge q (S n) tail) as Hc. simpl in Hc.
    rewrite Ascii.eqb_refl in Hc.
    destruct (n <=? count_run q (repeat_char q n ++ tail))%nat eqn:Hle.
    + simpl. rewrite Ascii.eqb_refl. simpl. rewrite Hle.
      rewrite append_empty. reflexivity.
    + apply Nat.leb_gt in Hle. lia.
  - destruct fuel as [|fuel]; [simpl in Hf; lia|].
    apply char_in_cons in Hq. destruct Hq as [Hc Hq].
    simpl in Hr. simpl read_string_loop. unfold current_char. rewrite Hr.
    rewrite Hc.
    assert (Hra : rest (advance lx) = (text ++ repeat_char q n ++ tail)%string).
    { rewrite rest_advance, Hr. reflexivity. }
    rewrite (IH fuel (advance lx) (v ++ str1 c)%string tail Hra Hq Hn)
      by (simpl in Hf; lia).
    simpl String.length. rewrite iter_advance_shift.
    unfold str1. rewrite append_assoc. reflexivity.
Qed.

(** [read_string] at a text without the quote character between two runs
    of [k] quotes. *)
Lemma read_string_text lx q k text tail :
  Ascii.eqb q newline = false ->
  rest lx
  = (repeat_char q (S k) ++ text ++ repeat_char q (S k) ++ tail)%string ->
  text <> EmptyString ->
  char_in q text = false ->
  emit (read_string q lx)
  = mkLexer tail (pos lx + (S k + String.length text + S k))
      (line lx + newlines text)
      (column_after (column lx + S k) text + S k)
      (tokens lx ++ [Token4 T_STRING text (line lx) (column lx)]).
Proof.
  intros Hnl Hr Hne Hin.
  unfold emit, read_string.
  assert (Hc : current_char lx = Some q).
  { unfold current_char. rewrite Hr. reflexivity. }
  pose proof (lexes_advance lx q Hc) as H1.
  assert (Hr1 : rest (advance lx)
                = (repeat_char q k ++ text ++ repeat_char q (S k)
                   ++ tail)%string).
  { rewrite rest_advance, Hr. reflexivity. }
  destruct (consume_while_spec (Ascii.eqb q) (advance lx) EmptyString)
    as [Hv H2].
  rewrite Hr1 in Hv, H2 at 1.
  assert (Htw : take_while (Ascii.eqb q)
                  (repeat_char q k ++ text ++ repeat_char q (S k) ++ tail)
                = repeat_char q k).
  { apply take_while_repeat.
    - apply Ascii.eqb_refl.
    - destruct text as [|c text]; [congruence|].
      apply char_in_cons in Hin. simpl. exact (proj1 Hin).
    - intros c' H. apply Ascii.eqb_eq in H. congruence. }
  rewrite Htw in Hv, H2.
  destruct (consume_while (Ascii.eqb q) (advance lx) EmptyString)
    as [lx2 more].
  simpl in Hv, H2. subst more. rewrite length_repeat_char in *.
  assert (Hr2 : rest lx2 = (text ++ repeat_char q (S k) ++ tail)%string).
  { rewrite <- (length_repeat_char q k) in H2.
    rewrite (lexes_text _ _ _ _ _ Hr1 H2). reflexivity. }
  rewrite (read_string_loop_text q (S k) text (String.length (rest lx2)) lx2
             EmptyString tail Hr2 Hin).
  2: lia.
  2: { rewrite Hr2, length_append, length_append, length_repeat_char.
       simpl. lia. }
  cbv zeta. cbn [fst snd].
  assert (H3 : lexes (String.length text) [] lx2
                 (Nat.iter (String.length text) advance lx2)).
  { apply lexes_iter_advance. rewrite Hr2, length_append. lia. }
  assert (H4 : lexes (S k) [] (Nat.iter (String.length text) advance lx2)
                 (Nat.iter (S k) advance
                    (Nat.iter (String.length text) advance lx2))).
  { apply lexes_iter_advance.
    rewrite (proj1 (iter_advance_place (String.length text) lx2 (proj1 H3))).
    rewrite Hr2, drop_chars_app, length_append, length_repeat_char. lia. }
  pose proof (lexes_trans _ _ _ _ _ _ _ H1
                (lexes_trans _ _ _ _ _ _ _ H2
                   (lexes_trans _ _ _ _ _ _ _ H3 H4))) as H.
  simpl app in H.
  assert (Hw : rest lx
               = ((repeat_char q (S k) ++ text ++ repeat_char q (S k))
                  ++ tail)%string).
  { rewrite Hr, !append_assoc. reflexivity. }
  replace (1 + (k + (String.length text + S k)))
    with (String.length (repeat_char q (S k) ++ text ++ repeat_char q (S k)))
    in H
    by (rewrite !length_append, !length_repeat_char; lia).
  rewrite (lexes_text _ _ _ _ _ Hw H). unfold push_token.
  cbn [rest pos line column tokens].
  rewrite !length_append, !length_repeat_char, !newlines_app.
  rewrite (newlines_repeat_char q (S k) Hnl), !column_after_app.
  rewrite (column_after_line _ _ (newlines_repeat_char q (S k) Hnl)).
  rewrite (column_after_line (repeat_char q (S k)) _
             (newlines_repeat_char q (S k) Hnl)).
  rewrite !length_repeat_char, app_nil_r. f_equal; lia.
Qed.

(** X5 (string literals): a text that is not empty and has no quote
    character in it, between two runs of [k] quotes of one kind, is one
    string token with that text, whatever follows.  (An empty text between
    quotes is not a string literal: its quotes open a string that is
    delimited by twice as many.) *)
Theorem quoted_text_is_one_string_token : forall lx q k text tail,
  q = quote_double \/ q = quote_single ->
  rest lx
  = (repeat_char q (S k) ++ text ++ repeat_char q (S k) ++ tail)%string ->
  text <> EmptyString ->
  char_in q text = false ->
  scan_token lx
  = (mkLexer tail (pos lx + (S k + String.length text + S k))
       (line lx + newlines text)
       (column_after (column lx + S k) text + S k)
       (tokens lx ++ [Token4 T_STRING text (line lx) (column lx)]), true).
Proof.
  intros lx q k text tail Hq Hr Hne Hin.
  assert (Hqc : is_blank q = false /\ Ascii.eqb q newline = false
                /\ scan_char q lx = emit (read_string q lx)).
  { destruct Hq as [->| ->]; repeat split; reflexivity. }
  destruct Hqc as [Hb [Hnl Hscan]].
  rewrite (scan_token_at lx q _ Hr Hb). f_equal. rewrite Hscan.
  exact (read_string_text lx q k text tail Hnl Hr Hne Hin).
Qed.

(** X5 at a text between triple double quotes. *)
Lemma quoted_text_witness :
  scan_token
    (new (repeat_char quote_double 3 ++ "it's" ++ repeat_char quote_double 3
          ++ "!"))
  = (mkLexer "!" 10 1 11 [Token4 T_STRING "it's" 1 1], true).
Proof.
  refine (quoted_text_is_one_string_token
            (new (repeat_char quote_double 3 ++ "it's"
                  ++ repeat_char quote_double 3 ++ "!"))
            quote_double 2 "it's" "!" (or_introl eq_refl) eq_refl _ eq_refl).
  discriminate.
Defined.

Lemma identifier_char_is_no_newline c :
  is_identifier_char c = true -> Ascii.eqb c newline = false.
Proof.
  destruct c as [[] [] [] [] [] [] [] []]; vm_compute; intros H;
    first [reflexivity | discriminate H].
Qed.

Lemma identifier_chars_no_newline w :
  forallb is_identifier_char (list_ascii_of_string w) = true ->
  newlines w = 0.
Proof.
  induction w as [|c w IH]; simpl; [reflexivity|].
  intros H. apply andb_prop in H. destruct H as [Hc Hw].
  rewrite (identifier_char_is_no_newline c Hc). exact (IH Hw).
Qed.

(** On a letter the chain of [tokenize] reaches [read_identifier]. *)
Lemma scan_char_letter c lx :
  isalpha c = true ->
  is_blank c = false /\ scan_char c lx = emit (read_identifier lx).
Proof.
  intros H. unfold scan_char.
  assert (Hc : is_blank c = false /\ Ascii.eqb c newline = false
               /\ Ascii.eqb c "/" = false /\ isdigit c = false
               /\ char_in c (String quote_double (str1 quote_single)) = false).
  { revert H. destruct c as [[] [] [] [] [] [] [] []]; vm_compute; intros H;
      first [discriminate H | repeat split]. }
  destruct Hc as [Hb [H1 [H2 [H3 H4]]]].
  rewrite H1, H2, H3, H4, H. auto.
Qed.

(** X6 (words): a maximal run of identifier characters that starts with a
    letter is one token with the text as it is written.  Its type is the
    keyword that the text in lower case names, so that keywords are
    recognised in any letter case, and otherwise an identifier.  The word
    [const] is left out: it looks ahead for two more. *)
Theorem word_is_one_token : forall lx c word tail,
  rest lx = (String c word ++ tail)%string ->
  isalpha c = true ->
  forallb is_identifier_char (list_ascii_of_string word) = true ->
  match tail with
  | String c' _ => is_identifier_char c'
  | EmptyString => false
  end = false ->
  String.eqb (lower (String c word)) "const" = false ->
  scan_token lx
  = (mkLexer tail (pos lx + S (String.length word)) (line lx)
       (column lx + S (String.length word))
       (tokens lx
        ++ [Token4
              match assoc (lower (String c word)) keywords with
              | Some t => t
              | None => T_IDENTIFIER
              end (String c word) (line lx) (column lx)]), true).
Proof.
  intros lx c word tail Hr Ha Hw Ht Hconst.
  destruct (scan_char_letter c lx Ha) as [Hb Hscan].
  rewrite (scan_token_at lx c _ Hr Hb). f_equal. rewrite Hscan.
  unfold emit, read_identifier.
  destruct (consume_while_spec is_identifier_char lx EmptyString) as [Hv Hl].
  assert (Hall : forallb is_identifier_char
                   (list_ascii_of_string (String c word)) = true).
  { simpl. rewrite (letter_is_identifier_char c Ha). exact Hw. }
  rewrite Hr in Hv, Hl at 1.
  rewrite (take_while_app is_identifier_char (String c word) tail Hall Ht)
    in Hv, Hl.
  destruct (consume_while is_identifier_char lx EmptyString) as [lx1 value].
  simpl in Hv. subst value. cbn [fst] in Hl. rewrite Hconst.
  cbn [fst snd]. rewrite (lexes_text _ _ _ _ _ Hr Hl).
  unfold push_token. cbn [rest pos line column tokens].
  rewrite (identifier_chars_no_newline _ Hall), Nat.add_0_r, app_nil_r.
  rewrite (column_after_line _ _ (identifier_chars_no_newline _ Hall)).
  reflexivity.
Qed.

(** X6 at the keyword [PRINT] written in capitals. *)
Lemma word_witness :
  scan_token (new "PRINT(x)")
  = (mkLexer "(x)" 5 1 6 [Token4 T_PRINT "PRINT" 1 1], true).
Proof.
  exact (word_is_one_token (new "PRINT(x)") "P" "RINT" "(x)" eq_refl eq_refl
           eq_refl eq_refl eq_refl).
Defined.

Lemma number_char_is_no_newline c :
  is_number_char c = true -> Ascii.eqb c newline = false.
Proof.
  destruct c as [[] [] [] [] [] [] [] []]; vm_compute; intros H;
    first [reflexivity | discriminate H].
Qed.

Lemma number_chars_no_newline w :
  forallb is_number_char (list_ascii_of_string w) = true -> newlines w = 0.
Proof.
  induction w as [|c w IH]; simpl; [reflexivity|].
  intros H. apply andb_prop in H. destruct H as [Hc Hw].
  rewrite (number_char_is_no_newline c Hc). exact (IH Hw).
Qed.

Lemma digits_are_number_chars w :
  forallb isdigit (list_ascii_of_string w) = true ->
  forallb is_number_char (list_ascii_of_string w) = true.
Proof.
  induction w as [|c w IH]; simpl; [reflexivity|].
  intros H. apply andb_prop in H. destruct H as [Hc Hw].
  unfold is_number_char at 1. rewrite Hc. exact (IH Hw).
Qed.

(** On a digit the chain of [tokenize] reaches [read_number]. *)
Lemma scan_char_digit c lx :
  isdigit c = true ->
  is_blank c = false /\ scan_char c lx = emit (read_number lx).
Proof.
  intros H. unfold scan_char.
  assert (Hc : is_blank c = false /\ Ascii.eqb c newline = false
               /\ Ascii.eqb c "/" = false).
  { revert H. destruct c as [[] [] [] [] [] [] [] []]; vm_compute; intros H;
      first [discriminate H | repeat split]. }
  destruct Hc as [Hb [H1 H2]]. rewrite H1, H2, H. auto.
Qed.

(** [read_number] on an input that starts with a digit: the whole part is
    the longest run of digits and points. *)
Lemma read_number_whole c a tail lx :
  rest lx = (String c a ++ tail)%string ->
  isdigit c = true ->
  forallb is_number_char (list_ascii_of_string a) = true ->
  starts_with_a is_number_char tail = false ->
  exists lx1,
    lexes (S (String.length a)) [] lx lx1
    /\ rest lx1 = tail
    /\ read_number lx
       = (let '(lx2, value2) :=
            if is_char "/" (current_char lx1)
               && opt_test isdigit (peek_char lx1 1)
            then consume_while isdigit (advance lx1) (String c a ++ "/")
            else (lx1, String c a) in
          (lx2, Token4 T_NUMBER value2 (line lx) (column lx))).
Proof.
  intros Hr Hc Ha Ht. unfold read_number.
  assert (Hw : take_while isalpha (rest lx) = EmptyString).
  { rewrite Hr. simpl. rewrite (digit_is_no_letter _ Hc). reflexivity. }
  rewrite Hw. simpl assoc.
  destruct (consume_while_spec is_number_char lx EmptyString) as [Hv Hl].
  assert (Hall : forallb is_number_char (list_ascii_of_string (String c a))
                 = true).
  { simpl. unfold is_number_char at 1. rewrite Hc. exact Ha. }
  rewrite Hr in Hv, Hl at 1.
  rewrite (take_while_app is_number_char (String c a) tail Hall Ht) in Hv, Hl.
  change (fun c0 : ascii => isdigit c0 || Ascii.eqb c0 ".")
    with is_number_char.
  destruct (consume_while is_number_char lx EmptyString) as [lx1 value1].
  simpl in Hv. subst value1. cbn [fst] in Hl.
  exists lx1. split; [exact Hl|]. split; [|reflexivity].
  rewrite (lexes_text _ _ _ _ _ Hr Hl). reflexivity.
Qed.

(** X7 (numbers): a maximal run of digits and points that starts with a
    digit is one number token with that text, when no slash followed by a
    digit comes after it. *)
Theorem digits_are_one_number_token : forall lx c digits tail,
  rest lx = (String c digits ++ tail)%string ->
  isdigit c = true ->
  forallb is_number_char (list_ascii_of_string digits) = true ->
  starts_with_a is_number_char tail = false ->
  match tail with
  | String "/" more => starts_with_a isdigit more
  | _ => false
  end = false ->
  scan_token lx
  = (mkLexer tail (pos lx + S (String.length digits)) (line lx)
       (column lx + S (String.length digits))
       (tokens lx ++ [Token4 T_NUMBER (String c digits) (line lx) (column lx)]),
     true).
Proof.
  intros lx c digits tail Hr Hc Ha Ht Hf.
  destruct (scan_char_digit c lx Hc) as [Hb Hscan].
  rewrite (scan_token_at lx c _ Hr Hb). f_equal. rewrite Hscan.
  destruct (read_number_whole c digits tail lx Hr Hc Ha Ht)
    as [lx1 [Hl [Hr1 Hn]]].
  unfold emit. rewrite Hn.
  assert (Hno : is_char "/" (current_char lx1)
                && opt_test isdigit (peek_char lx1 1) = false).
  { unfold current_char, peek_char. rewrite Hr1.
    destruct tail as [|c' [|d more]]; simpl in *; try reflexivity.
    - apply andb_false_r.
    - destruct (Ascii.eqb_spec c' "/") as [->|]; [exact Hf|reflexivity]. }
  rewrite Hno. cbn [fst snd].
  assert (Hall : forallb is_number_char
                   (list_ascii_of_string (String c digits)) = true).
  { simpl. unfold is_number_char at 1. rewrite Hc. exact Ha. }
  rewrite (lexes_text _ _ _ _ _ Hr Hl).
  unfold push_token. cbn [rest pos line column tokens].
  rewrite (number_chars_no_newline _ Hall), Nat.add_0_r, app_nil_r.
  rewrite (column_after_line _ _ (number_chars_no_newline _ Hall)).
  reflexivity.
Qed.

(** X7 at the text [3.14!]. *)
Lemma digits_witness :
  scan_token (new "3.14!")
  = (mkLexer "!" 4 1 5 [Token4 T_NUMBER "3.14" 1 1], true).
Proof.
  exact (digits_are_one_number_token (new "3.14!") "3" ".14" "!" eq_refl
           eq_refl eq_refl eq_refl eq_refl).
Defined.

(** X8 (fractions): a slash between a number and a digit is no division
    operator: the number, the slash and the run of digits after it are one
    number token. *)
Theorem fraction_is_one_number_token : forall lx c whole d digits tail,
  rest lx
  = (String c whole ++ String "/" (String d digits) ++ tail)%string ->
  isdigit c = true ->
  forallb is_number_char (list_ascii_of_string whole) = true ->
  isdigit d = true ->
  forallb isdigit (list_ascii_of_string digits) = true ->
  starts_with_a isdigit tail = false ->
  let text := (String c whole ++ String "/" (String d digits))%string in
  scan_token lx
  = (mkLexer tail (pos lx + String.length text) (line lx)
       (column lx + String.length text)
       (tokens lx ++ [Token4 T_NUMBER text (line lx) (column lx)]), true).
Proof.
  intros lx c whole d digits tail Hr Hc Ha Hd Hds Ht text.
  destruct (scan_char_digit c lx Hc) as [Hb Hscan].
  rewrite (scan_token_at lx c _ Hr Hb). f_equal. rewrite Hscan.
  destruct (read_number_whole c whole
              (String "/" (String d digits) ++ tail)%string lx Hr Hc Ha
              eq_refl) as [lx1 [Hl [Hr1 Hn]]].
  unfold emit. rewrite Hn.
  assert (Hyes : is_char "/" (current_char lx1)
                 && opt_test isdigit (peek_char lx1 1) = true).
  { unfold current_char, peek_char. rewrite Hr1. simpl. exact Hd. }
  rewrite Hyes.
  assert (Hcur : current_char lx1 = Some "/"%char).
  { unfold current_char. rewrite Hr1. reflexivity. }
  pose proof (lexes_advance lx1 _ Hcur) as H2.
  assert (Hr2 : rest (advance lx1) = (String d digits ++ tail)%string).
  { rewrite rest_advance, Hr1. reflexivity. }
  destruct (consume_while_spec isdigit (advance lx1) (String c whole ++ "/"))
    as [Hv H3].
  assert (Hdd : forallb isdigit (list_ascii_of_string (String d digits))
                = true).
  { simpl. rewrite Hd. exact Hds. }
  rewrite Hr2 in Hv, H3 at 1.
  assert (Ht' : match tail with
                | String c' _ => isdigit c'
                | EmptyString => false
                end = false) by exact Ht.
  rewrite (take_while_app isdigit (String d digits) tail Hdd Ht') in Hv, H3.
  destruct (consume_while isdigit (advance lx1) (String c whole ++ "/"))
    as [lx2 value2].
  simpl in Hv. cbn [fst] in H3. cbn [fst snd].
  assert (Hval : value2 = text).
  { subst value2 text. rewrite append_assoc. reflexivity. }
  rewrite Hval.
  pose proof (lexes_trans _ _ _ _ _ _ _ Hl
                (lexes_trans _ _ _ _ _ _ _ H2 H3)) as H.
  simpl app in H.
  assert (Hw : rest lx = (text ++ tail)%string).
  { subst text. rewrite Hr, !append_assoc. reflexivity. }
  replace (S (String.length whole) + (1 + String.length (String d digits)))
    with (String.length text) in H
    by (subst text; rewrite length_append; simpl; lia).
  assert (Hall : newlines text = 0).
  { subst text. rewrite newlines_app.
    assert (H0 : newlines (String c whole) = 0).
    { apply number_chars_no_newline. simpl. unfold is_number_char at 1.
      rewrite Hc. exact Ha. }
    rewrite H0. simpl.
    apply (number_chars_no_newline (String d digits)).
    apply digits_are_number_chars. exact Hdd. }
  rewrite (lexes_text _ _ _ _ _ Hw H).
  unfold push_token. cbn [rest pos line column tokens].
  rewrite Hall, Nat.add_0_r, app_nil_r.
  rewrite (column_after_line _ _ Hall). reflexivity.
Qed.

(** X8 at the text [1/0)]. *)
Lemma fraction_witness :
  scan_token (new "1/0)")
  = (mkLexer ")" 3 1 4 [Token4 T_NUMBER "1/0" 1 1], true).
Proof.
  exact (fraction_is_one_number_token (new "1/0)") "1" "" "0" "" ")" eq_refl
           eq_refl eq_refl eq_refl eq_refl eq_refl).
Defined.

End LexerCoverage.

(** ** The interpreter: scopes, lookups and wrappers *)

Section InterpreterCoverage.

Import Interpreter.

(** The loop of [get_variable] when no scope that is left binds the
    name. *)
Lemma get_variable_from_unbound name : forall scopes skipped s,
  find_binding name scopes = None ->
  get_variable_from name skipped scopes s
  = (Raise (DreamBerdError ("Undefined variable: " ++ name)%string), s).
Proof.
  induction scopes as [|sc outer IH]; intros skipped s H; simpl in *.
  - reflexivity.
  - destruct (dict_get name sc); [discriminate|]. apply IH, H.
Qed.

(** The loop of [get_variable] when the first scope that binds the name
    binds it to a wrapper without lifetime. *)
Lemma get_variable_from_bound name : forall scopes skipped s ref w,
  find_binding name scopes = Some ref ->
  nth_error (wrappers s) ref = Some w ->
  lifetime w = None ->
  get_variable_from name skipped scopes s
  = (if deleted w
     then Raise
            (DreamBerdError
               ("Variable '" ++ name ++ "' has been deleted")%string)
     else Ok ref, s).
Proof.
  induction scopes as [|sc outer IH]; intros skipped s ref w H Hw Hl;
    simpl in *; [discriminate|].
  destruct (dict_get name sc) as [ref'|].
  - inversion H; subst ref'. unfold bind, read_wrapper. rewrite Hw.
    unfold is_expired. rewrite Hl. simpl.
    destruct (deleted w); reflexivity.
  - eapply IH; eauto.
Qed.

(** X9 (variable lookup): [get_variable] finds the binding of the
    innermost scope that has the name.  When no scope has it, the lookup
    raises [Undefined variable]; when the binding has no lifetime, the
    lookup returns it unless it has been deleted, and then raises; in
    these cases the interpreter is left as it was. *)
Theorem lookup_finds_the_innermost_binding : forall name s,
  (find_binding name (scope_stack s) = None ->
   get_variable name s
   = (Raise (DreamBerdError ("Undefined variable: " ++ name)%string), s))
  /\ (forall ref w,
        find_binding name (scope_stack s) = Some ref ->
        nth_error (wrappers s) ref = Some w ->
        lifetime w = None ->
        get_variable name s
        = (if deleted w
           then Raise
                  (DreamBerdError
                     ("Variable '" ++ name ++ "' has been deleted")%string)
           else Ok ref, s))
  /\ (forall inner outer ref,
        scope_stack s = inner :: outer ->
        dict_get name inner = Some ref ->
        find_binding name (scope_stack s) = Some ref).
Proof.
  intros name s. split; [|split].
  - intros H. unfold get_variable, bind, get.
    apply get_variable_from_unbound, H.
  - intros ref w H Hw Hl. unfold get_variable, bind, get.
    eapply get_variable_from_bound; eauto.
  - intros inner outer ref Hs Hd. rewrite Hs. simpl. rewrite Hd.
    reflexivity.
Qed.

(** X9 in an interpreter that ran [var x = 1!]: [x] is found, [y] is
    not. *)
Lemma lookup_witness :
  let s := state_after "var x = 1!" in
  get_variable "x" s = (Ok 15, s)
  /\ get_variable "y" s
     = (Raise (DreamBerdError "Undefined variable: y"), s).
Proof.
  intros s. split.
  - refine (proj1 (proj2 (lookup_finds_the_innermost_binding "x" s)) 15
              (mkValue (VInt 1 Cached) false None [VInt 1 Cached] (Some 1%Z))
              _ _ eq_refl); vm_compute; reflexivity.
  - refine (proj1 (lookup_finds_the_innermost_binding "y" s) _).
    vm_compute; reflexivity.
Defined.

(** X10 (lifetimes): a binding whose lifetime has passed is removed from
    its scope by the lookup that finds it, and the lookup goes on in the
    outer scopes: when none of them has the name, the variable is
    undefined.  A binding whose lifetime has not passed is returned, as a
    binding without lifetime is.  The lookup reads the clock once. *)
Theorem expired_binding_is_removed :
  forall name s inner outer ref w limit,
    scope_stack s = inner :: outer ->
    dict_get name inner = Some ref ->
    nth_error (wrappers s) ref = Some w ->
    lifetime w = Some limit ->
    let now := clock s (clock_reads s) in
    let s1 := with_clock_reads (S (clock_reads s)) s in
    (SFltb limit now = true ->
     find_binding name outer = None ->
     get_variable name s
     = (Raise (DreamBerdError ("Undefined variable: " ++ name)%string),
        with_scope_stack (dict_del name inner :: outer) s1))
    /\ (SFltb limit now = false ->
        get_variable name s
        = (if deleted w
           then Raise
                  (DreamBerdError
                     ("Variable '" ++ name ++ "' has been deleted")%string)
           else Ok ref, s1)).
Proof.
  intros name s inner outer ref w limit Hs Hd Hw Hl now s1.
  unfold get_variable, bind, get. rewrite Hs. simpl. rewrite Hd.
  unfold bind, read_wrapper. rewrite Hw. unfold is_expired. rewrite Hl.
  unfold bind, time_time, ret. fold now. fold s1. split; intros Hnow.
  - intros Hout. rewrite Hnow. unfold modify. simpl.
    apply get_variable_from_unbound, Hout.
  - rewrite Hnow. destruct (deleted w); reflexivity.
Qed.

(** X10 at a variable declared with the lifetime [5s] when the clock read
    0, looked up when the clock reads 10. *)
Lemma expiry_witness :
  let declaration :=
    VariableDeclaration 1 0 "x" (Some (NumberLiteral (LInt 1 Cached)))
      (Some "5s") 1 None in
  let s := snd (visit 3 declaration (new (fun n => float_of_nat (10 * n)))) in
  get_variable "x" s
  = (Raise (DreamBerdError "Undefined variable: x"),
     with_scope_stack [dict_del "x" (hd [] (scope_stack s))]
       (with_clock_reads (S (clock_reads s)) s)).
Proof.
  intros declaration s.
  refine (proj1 (expired_binding_is_removed "x" s (hd [] (scope_stack s)) []
                   15
                   (mkValue (VInt 1 Cached) false
                      (Some (S754_finite false 5629499534213120 (-50)))
                      [VInt 1 Cached] (Some 1%Z))
                   (S754_finite false 5629499534213120 (-50)) _ _ _ eq_refl)
            _ _); vm_compute; reflexivity.
Defined.

(** X11 (deleting a variable): [delete] marks the wrapper that the lookup
    finds and returns nothing; when the lookup fails, for a name that is
    undefined or deleted already, it does nothing.  After the deletion of
    a variable without lifetime, reading it raises. *)
Theorem delete_marks_the_binding : forall fuel name s,
  (forall ref s1,
     get_variable name s = (Ok ref, s1) ->
     visit (S fuel) (DeleteStatement (Identifier name)) s
     = (Ok VNone, with_wrappers (update_nth ref set_deleted (wrappers s1)) s1))
  /\ (forall message s1,
        get_variable name s = (Raise (DreamBerdError message), s1) ->
        visit (S fuel) (DeleteStatement (Identifier name)) s = (Ok VNone, s1))
  /\ (forall ref w,
        find_binding name (scope_stack s) = Some ref ->
        nth_error (wrappers s) ref = Some w ->
        lifetime w = None ->
        deleted w = false ->
        let s' := with_wrappers (update_nth ref set_deleted (wrappers s)) s in
        visit (S fuel) (DeleteStatement (Identifier name)) s = (Ok VNone, s')
        /\ visit (S fuel) (Identifier name) s'
           = (Raise
                (DreamBerdError
                   ("Variable '" ++ name ++ "' has been deleted")%string),
              s')).
Proof.
  intros fuel name s.
  assert (H1 : forall ref s1,
             get_variable name s = (Ok ref, s1) ->
             visit (S fuel) (DeleteStatement (Identifier name)) s
             = (Ok VNone,
                with_wrappers (update_nth ref set_deleted (wrappers s1)) s1)).
  { intros ref s1 H. simpl. unfold visit_DeleteStatement, bind, try_except.
    rewrite H. reflexivity. }
  split; [exact H1|]. split.
  - intros message s1 H. simpl.
    unfold visit_DeleteStatement, bind, try_except. rewrite H. reflexivity.
  - intros ref w Hf Hw Hl Hd s'.
    assert (Hget : get_variable name s = (Ok ref, s)).
    { unfold get_variable, bind, get.
      rewrite (get_variable_from_bound name _ [] s ref w Hf Hw Hl), Hd.
      reflexivity. }
    split; [exact (H1 ref s Hget)|].
    assert (Hget' : get_variable name s'
                    = (Raise
                         (DreamBerdError
                            ("Variable '" ++ name ++ "' has been deleted")
                            %string), s')).
    { unfold get_variable, bind, get.
      apply (get_variable_from_bound name (scope_stack s') [] s' ref
               (set_deleted w)); [exact Hf| |exact Hl].
      unfold s'. simpl. apply nth_error_update_nth, Hw. }
    simpl. unfold visit_Identifier, bind. rewrite Hget'. reflexivity.
Qed.

(** X11 in an interpreter that ran [var x = 1!]. *)
Lemma delete_witness :
  let s := state_after "var x = 1!" in
  let s' := with_wrappers (update_nth 15 set_deleted (wrappers s)) s in
  visit 2 (DeleteStatement (Identifier "x")) s = (Ok VNone, s')
  /\ visit 2 (Identifier "x") s'
     = (Raise (DreamBerdError "Variable 'x' has been deleted"), s').
Proof.
  intros s s'.
  refine (proj2 (proj2 (delete_marks_the_binding 1 "x" s)) 15
            (mkValue (VInt 1 Cached) false None [VInt 1 Cached] (Some 1%Z))
            _ _ eq_refl eq_refl); vm_compute; reflexivity.
Defined.

(** X12 (declarations that always take effect): a declaration of a name
    whose lookup fails (the name is undefined or deleted), or finds a
    wrapper that no variable declaration made (a built-in such as a number
    word, a parameter, a function, a global constant: the wrapper has no
    priority), takes effect whatever its priority: the value and the
    lifetime are evaluated and the innermost scope binds the name to a new
    wrapper.  The set of immutable globals is not consulted. *)
Theorem declaration_without_rival_takes_effect :
  forall fuel s r s1 name consts vars value lifetime p annotation,
    get_variable name s = (r, s1) ->
    match r with
    | Ok ref =>
        exists w, nth_error (wrappers s1) ref = Some w /\ priority w = None
    | Raise (DreamBerdError _) => True
    | _ => False
    end ->
    forall v s2 expiry s3 sc outer,
      match value with
      | Some expression => visit fuel expression s1
      | None => ret VNone s1
      end = (Ok v, s2) ->
      match lifetime with
      | Some text => parse_lifetime text s2
      | None => ret None s2
      end = (Ok expiry, s3) ->
      scope_stack s3 = sc :: outer ->
      visit (S fuel)
        (VariableDeclaration consts vars name value lifetime p annotation) s
      = (Ok VNone,
         with_scope_stack
           (dict_set name (List.length (wrappers s3)) sc :: outer)
           (with_wrappers
              (wrappers s3 ++ [mkValue v false expiry [v] (Some p)]) s3)).
Proof.
  intros fuel s r s1 name consts vars value lifetime p annotation Hget Hr
    v s2 expiry s3 sc outer Hv Hl Hsc.
  simpl. unfold visit_VariableDeclaration, bind, try_except.
  rewrite Hget.
  destruct r as [ref|[m|e|e|c]| |]; try contradiction; simpl.
  - destruct Hr as [w [Hw Hp]]. unfold read_wrapper. rewrite Hw. simpl.
    rewrite Hp. simpl.
    destruct value as [expression|]; rewrite Hv;
      destruct lifetime as [text|]; rewrite Hl;
      unfold set_variable, bind, alloc_wrapper, bind_current, modify; simpl;
      rewrite Hsc; reflexivity.
  - destruct value as [expression|]; rewrite Hv;
      destruct lifetime as [text|]; rewrite Hl;
      unfold set_variable, bind, alloc_wrapper, bind_current, modify; simpl;
      rewrite Hsc; reflexivity.
Qed.

(** X12 at a global constant: after [const const const x = 42!] the
    declaration [var x = 0!] rebinds [x], which then reads 0. *)
Lemma declaration_witness :
  let s := state_after "const const const x = 42!" in
  let declaration :=
    VariableDeclaration 0 1 "x" (Some (NumberLiteral (LInt 0 Cached))) None 1
      None in
  exists s',
    visit 3 declaration s = (Ok VNone, s')
    /\ visit 3 (Identifier "x") s' = (Ok (VInt 0 Cached), s')
    /\ immutable_globals s' = ["x"].
Proof.
  intros s declaration. eexists. split; [|split].
  - refine (declaration_without_rival_takes_effect 2 s (Ok 15) s "x" 0 1
              (Some (NumberLiteral (LInt 0 Cached))) None 1 None _ _
              (VInt 0 Cached) s None s (hd [] (scope_stack s)) [] _ _ _).
    + vm_compute; reflexivity.
    + exists (mkValue (VInt 42 Cached) false None [VInt 42 Cached] None).
      split; vm_compute; reflexivity.
    + vm_compute; reflexivity.
    + reflexivity.
    + vm_compute; reflexivity.
  - vm_compute; reflexivity.
  - vm_compute; reflexivity.
Defined.

(** X13 (decrement): for a variable bound to an integer or a float, the
    decrement expression subtracts one, stores the difference as the
    current value of the binding and appends it to its history, leaving
    every other binding, the scopes and the output unchanged.  The prefix
    form yields the difference, the postfix form the value held before.
    On a value that is neither an integer, a boolean nor a float the
    expression raises and changes nothing. *)
Theorem decrement_yields_and_records :
  forall fuel s s1 name ref w is_prefix,
    get_variable name s = (Ok ref, s1) ->
    nth_error (wrappers s1) ref = Some w ->
    let decrement := DecrementExpression (Identifier name) is_prefix in
    (forall z i, value_ w = VInt z i ->
       exists i' s2,
         visit (S fuel) decrement s
         = (Ok (if is_prefix then VInt (z - 1) i' else VInt z i), s2)
         /\ recorded ref w (VInt (z - 1) i') s1 s2)
    /\
    (forall f i, value_ w = VFloat f i ->
       exists i' s2,
         visit (S fuel) decrement s
         = (Ok (if is_prefix
                then VFloat (SFadd prec emax f (SFopp float_one)) i'
                else VFloat f i), s2)
         /\ recorded ref w (VFloat (SFadd prec emax f (SFopp float_one)) i')
              s1 s2)
    /\
    (is_int (value_ w) || is_float (value_ w) = false ->
       visit (S fuel) decrement s
       = (Raise
            (DreamBerdError
               ("Cannot decrement non-numeric value: "
                ++ type_repr (value_ w))%string), s1)).
Proof.
  intros fuel s s1 name ref w is_prefix Hget Hw decrement.
  assert (Hstep : forall v,
            value_ w = v ->
            visit (S fuel) decrement s
            = match v with
              | VInt _ _ | VBool _ | VFloat _ _ =>
                  (new_value <- py_add v (VInt (-1) Cached) ;;
                   update_wrapper ref (set_value new_value) ;;;
                   ret (if is_prefix then new_value else v)) s1
              | _ =>
                  (Raise (DreamBerdError
                            ("Cannot decrement non-numeric value: "
                             ++ type_repr v)%string), s1)
              end).
  { intros v Hv. subst decrement. simpl.
    unfold visit_DecrementExpression, visit_step.
    unfold bind at 1. rewrite Hget.
    unfold bind at 1. unfold read_wrapper. rewrite Hw. rewrite Hv.
    destruct v; reflexivity. }
  split; [|split].
  - intros z i Hv. rewrite (Hstep _ Hv).
    unfold py_add, arith, new_int, bind. simpl.
    change (z + -1)%Z with (z - 1)%Z.
    destruct (is_small_int (z - 1)); simpl.
    + exists Cached. eexists. split; [reflexivity|].
      unfold recorded; simpl. repeat split; auto.
      * apply nth_error_update_nth; auto.
      * intros. apply nth_error_update_nth_other; auto.
    + exists (Object (next_object s1)). eexists. split; [reflexivity|].
      unfold recorded; simpl. repeat split; auto.
      * apply nth_error_update_nth; auto.
      * intros. apply nth_error_update_nth_other; auto.
  - intros f i Hv. rewrite (Hstep _ Hv).
    unfold py_add, arith, new_float, bind. simpl.
    exists (Object (next_object s1)). eexists. split; [reflexivity|].
    unfold recorded; simpl. repeat split; auto.
    + apply nth_error_update_nth; auto.
    + intros. apply nth_error_update_nth_other; auto.
  - intros Hn. rewrite (Hstep _ eq_refl).
    destruct (value_ w); simpl in Hn; try discriminate; reflexivity.
Qed.

(** X13 after [var x = 5!]: the prefix decrement yields 4 and leaves 4 in
    the binding. *)
Lemma decrement_witness :
  let s := state_after "var x = 5!" in
  let w := mkValue (VInt 5 Cached) false None [VInt 5 Cached] (Some 1%Z) in
  exists i' s2,
    visit 3 (DecrementExpression (Identifier "x") true) s
    = (Ok (VInt 4 i'), s2)
    /\ recorded 15 w (VInt 4 i') s s2.
Proof.
  intros s w.
  assert (Hget : get_variable "x" s = (Ok 15, s))
    by (vm_compute; reflexivity).
  assert (Hw : nth_error (wrappers s) 15 = Some w)
    by (vm_compute; reflexivity).
  exact (proj1 (decrement_yields_and_records 2 s s "x" 15 w true Hget Hw)
           5%Z Cached eq_refl).
Defined.

(** X14 (deleted numbers): [delete] of an integer literal puts its value
    among the deleted values.  From then on every arithmetic operation
    with an operand equal to it raises, whatever the operator and the
    other operand (which must be hashable, as the test is a set
    membership when it is the first one). *)
Theorem deleted_number_poisons_arithmetic : forall fuel z i s,
  let s' := with_deleted_values (VInt z i :: deleted_values s) s in
  visit (S (S fuel)) (DeleteStatement (NumberLiteral (LInt z i))) s
  = (Ok VNone, s')
  /\ (forall operator j right,
        evaluate_arithmetic (VInt z j) operator right s'
        = (Raise
             (DreamBerdError "Cannot perform arithmetic on deleted values"),
           s'))
  /\ (forall operator j left,
        hashable left = true ->
        evaluate_arithmetic left operator (VInt z j) s'
        = (Raise
             (DreamBerdError "Cannot perform arithmetic on deleted values"),
           s')).
Proof.
  intros fuel z i s s'.
  assert (Hin : forall j, in_deleted (VInt z j) s' = (Ok true, s')).
  { intros j. unfold in_deleted, bind, get, ret. simpl.
    unfold num_eqb. simpl. rewrite Z.compare_refl. reflexivity. }
  split; [reflexivity|]. split.
  - intros operator j right. unfold evaluate_arithmetic.
    unfold bind at 1. rewrite Hin. reflexivity.
  - intros operator j left Hh. unfold evaluate_arithmetic.
    unfold bind at 1.
    assert (Hl : exists b, in_deleted left s' = (Ok b, s')).
    { unfold in_deleted. rewrite Hh. eexists. reflexivity. }
    destruct Hl as [b Hl]. rewrite Hl.
    destruct b; [reflexivity|].
    unfold bind at 1. rewrite Hin. reflexivity.
Qed.

(** X14 at the number 3: after [delete 3!] the sum [1 + 2] is still
    computed, and the sum [3 + 1] raises. *)
Lemma deleted_number_witness :
  run_dreamberd 8 zero_clock "delete 3! print(1 + 2)! print(3 + 1)!"
  = Raise
      (InterpretationError
         (DreamBerdError "Cannot perform arithmetic on deleted values"))
  /\ evaluate_arithmetic (VInt 3 Cached) "+" (VInt 1 Cached)
       (with_deleted_values [VInt 3 Cached] (new zero_clock))
     = (Raise (DreamBerdError "Cannot perform arithmetic on deleted values"),
        with_deleted_values [VInt 3 Cached] (new zero_clock)).
Proof.
  split; [vm_compute; reflexivity|].
  exact (proj1 (proj2 (deleted_number_poisons_arithmetic 0 3 Cached
                         (new zero_clock))) "+" Cached (VInt 1 Cached)).
Defined.

Lemma nth_error_in_range {A} (l : list A) (n : nat) :
  n < List.length l -> exists x, nth_error l n = Some x.
Proof.
  intros H. destruct (nth_error l n) as [x|] eqn:E; [eauto|].
  apply nth_error_None in E. lia.
Qed.

Lemma nth_error_insert_at {A} (x : A) : forall n l,
  n <= List.length l -> nth_error (insert_at n x l) n = Some x.
Proof.
  induction n; intros l H; [reflexivity|].
  destruct l as [|y l]; simpl in *; [lia|]. apply IHn. lia.
Qed.

Lemma length_insert_at {A} (x : A) : forall n l,
  List.length (insert_at n x l) = S (List.length l).
Proof.
  induction n; intros l; [reflexivity|].
  destruct l as [|y l]; simpl; [reflexivity|]. rewrite IHn. reflexivity.
Qed.

(** X15 (reading an element): the element at the index [i] of an array
    is the one stored at the position [i + 1]: the indices of an array
    of [n] elements run from -1 to [n - 2], and reading at one of them
    succeeds. *)
Theorem array_indices_start_at_minus_one :
  forall fuel s s1 s2 array index a i id elements,
    visit fuel array s = (Ok (VList a), s1) ->
    visit fuel index s1 = (Ok (VInt i id), s2) ->
    nth_error (lists s2) a = Some elements ->
    (-1 <= i < Z.of_nat (List.length elements) - 1)%Z ->
    exists v,
      nth_error elements (Z.to_nat (i + 1)) = Some v
      /\ visit (S fuel) (ArrayAccess array index) s = (Ok v, s2).
Proof.
  intros fuel s s1 s2 array index a i id elements Ha Hi Hl Hr.
  destruct (nth_error_in_range elements (Z.to_nat (i + 1))) as [v Hv];
    [lia|].
  exists v. split; [exact Hv|].
  simpl. unfold visit_ArrayAccess.
  unfold bind at 1. rewrite Ha.
  unfold bind at 1. rewrite Hi.
  unfold bind, read_list. rewrite Hl. cbn [as_number].
  unfold element_at.
  assert (Hin : (0 <=? i + 1)%Z
                && (i + 1 <? Z.of_nat (List.length elements))%Z = true).
  { apply andb_true_intro. split; [apply Z.leb_le|apply Z.ltb_lt]; lia. }
  rewrite Hin, Hv. reflexivity.
Qed.

(** X15 after [const const scores = [3, 2, 5]!]: the index -1 reads 3. *)
Lemma array_read_witness :
  let s := state_after "const const scores = [3, 2, 5]!" in
  exists v,
    nth_error [VInt 3 Cached; VInt 2 Cached; VInt 5 Cached]
      (Z.to_nat (-1 + 1)) = Some v
    /\ visit 3
         (ArrayAccess (Identifier "scores") (NumberLiteral (LInt (-1) Cached)))
         s
       = (Ok v, s).
Proof.
  intros s.
  refine (array_indices_start_at_minus_one 2 s s s (Identifier "scores")
            (NumberLiteral (LInt (-1) Cached)) 0 (-1) Cached
            [VInt 3 Cached; VInt 2 Cached; VInt 5 Cached] _ _ _ _);
    try (vm_compute; reflexivity).
  simpl. lia.
Defined.

(** X16 (storing an element): an assignment to the element at an integer
    index in range replaces the element at the position [i + 1] of the
    list; at a float index it inserts the value, at the position after
    that of the truncated index, and the list grows by one element.  The
    assignment yields the value, and the element at that position is then
    the value. *)
Theorem array_store_and_insert :
  forall fuel s s1 s2 s3 array index value_node v a iv elements,
    visit fuel value_node s = (Ok v, s1) ->
    visit fuel array s1 = (Ok (VList a), s2) ->
    visit fuel index s2 = (Ok iv, s3) ->
    nth_error (lists s3) a = Some elements ->
    let assignment := Assignment (ArrayAccess array index) value_node in
    (forall i id,
       iv = VInt i id ->
       (-1 <= i < Z.of_nat (List.length elements) - 1)%Z ->
       let stored :=
         update_nth (Z.to_nat (i + 1)) (fun _ => v) elements in
       visit (S fuel) assignment s
       = (Ok v, with_lists (update_nth a (fun _ => stored) (lists s3)) s3)
       /\ nth_error stored (Z.to_nat (i + 1)) = Some v
       /\ List.length stored = List.length elements)
    /\
    (forall f id k,
       iv = VFloat f id ->
       int_of_float f = Ok k ->
       (-1 <= k < Z.of_nat (List.length elements))%Z ->
       let stored := insert_at (Z.to_nat (k + 1)) v elements in
       visit (S fuel) assignment s
       = (Ok v, with_lists (update_nth a (fun _ => stored) (lists s3)) s3)
       /\ nth_error stored (Z.to_nat (k + 1)) = Some v
       /\ List.length stored = S (List.length elements)).
Proof.
  intros fuel s s1 s2 s3 array index value_node v a iv elements
    Hv Ha Hi Hl assignment.
  assert (Hup : forall g,
            update_nth a g (lists s3)
            = update_nth a (fun _ => g elements) (lists s3)).
  { intros g. revert Hl. generalize (lists s3). clear.
    induction a; intros [|l ls] H; simpl in *; try discriminate.
    - inversion H. reflexivity.
    - f_equal. apply IHa, H. }
  split.
  - intros i id -> Hr stored. split; [|split].
    + subst assignment. simpl. unfold visit_Assignment.
      unfold bind at 1. rewrite Hv.
      unfold bind at 1. rewrite Ha.
      unfold bind at 1. rewrite Hi. cbn [as_number].
      assert (H0 : (0 <=? i + 1)%Z = true) by (apply Z.leb_le; lia).
      assert (H1 : (i + 1 <? Z.of_nat (List.length elements))%Z = true)
        by (apply Z.ltb_lt; lia).
      rewrite H0. unfold bind, read_list. rewrite Hl, H1.
      unfold write_list, modify, ret. rewrite Hup. reflexivity.
    + destruct (nth_error_in_range elements (Z.to_nat (i + 1))) as [x Hx];
        [lia|].
      exact (nth_error_update_nth (fun _ => v) elements _ x Hx).
    + unfold stored. clear. generalize (Z.to_nat (i + 1)).
      induction elements as [|x l IH]; intros [|n]; simpl; auto.
  - intros f id k -> Hk Hr stored. split; [|split].
    + subst assignment. simpl. unfold visit_Assignment.
      unfold bind at 1. rewrite Hv.
      unfold bind at 1. rewrite Ha.
      unfold bind at 1. rewrite Hi.
      unfold bind at 1, lift. rewrite Hk.
      assert (H0 : (0 <=? k + 1)%Z = true) by (apply Z.leb_le; lia).
      assert (H1 : (k + 1 <=? Z.of_nat (List.length elements))%Z = true)
        by (apply Z.leb_le; lia).
      rewrite H0. unfold bind, read_list. rewrite Hl, H1.
      unfold write_list, modify, ret. rewrite Hup. reflexivity.
    + apply nth_error_insert_at. lia.
    + apply length_insert_at.
Qed.

(** X16 after [const const scores = [3, 2, 5]!]: storing 9 at the index 0
    replaces the second element. *)
Lemma array_store_witness :
  let s := state_after "const const scores = [3, 2, 5]!" in
  visit 3
    (Assignment
       (ArrayAccess (Identifier "scores") (NumberLiteral (LInt 0 Cached)))
       (NumberLiteral (LInt 9 Cached))) s
  = (Ok (VInt 9 Cached),
     with_lists [[VInt 3 Cached; VInt 9 Cached; VInt 5 Cached]] s).
Proof.
  intros s.
  refine (proj1 (proj1 (array_store_and_insert 2 s s s s
                          (Identifier "scores")
                          (NumberLiteral (LInt 0 Cached))
                          (NumberLiteral (LInt 9 Cached)) (VInt 9 Cached) 0
                          (VInt 0 Cached)
                          [VInt 3 Cached; VInt 2 Cached; VInt 5 Cached]
                          _ _ _ _) 0%Z Cached eq_refl _));
    try (vm_compute; reflexivity).
  simpl. lia.
Defined.

(** X17 (signals): [use(e)] makes a new signal that holds the value of
    [e].  Called without argument a signal returns the value it holds and
    changes nothing; called with arguments it holds the first one from
    then on and returns it. *)
Theorem signal_holds_the_last_value_set :
  forall fuel e s v s1,
    visit fuel e s = (Ok v, s1) ->
    let a := List.length (signals s1) in
    let s2 := with_signals (signals s1 ++ [v]) s1 in
    visit (S fuel) (UseExpression e) s = (Ok (VSignal a), s2)
    /\ call_signal a [] s2 = (Ok v, s2)
    /\ (forall v' more,
          let s3 := with_signals (signals s1 ++ [v']) s1 in
          call_signal a (v' :: more) s2 = (Ok v', s3)
          /\ call_signal a [] s3 = (Ok v', s3)).
Proof.
  intros fuel e s v s1 He a s2.
  assert (Hnth : forall x, nth_error (signals s1 ++ [x]) a = Some x).
  { intros x. unfold a. rewrite nth_error_app2 by lia.
    rewrite Nat.sub_diag. reflexivity. }
  assert (Hset : forall x y,
            update_nth a (fun _ => y) (signals s1 ++ [x]) = signals s1 ++ [y]).
  { intros x y. unfold a. clear. induction (signals s1); simpl; congruence. }
  split; [|split].
  - simpl. unfold visit_UseExpression, bind. rewrite He. reflexivity.
  - unfold call_signal, bind, get, lift. simpl. rewrite Hnth. reflexivity.
  - intros v' more s3. split.
    + unfold call_signal, bind, modify, ret. simpl. rewrite Hset.
      reflexivity.
    + unfold call_signal, bind, get, lift. simpl. rewrite Hnth.
      reflexivity.
Qed.

(** X17 through the interpreter: a signal made of 1 and set to 2 reads
    2. *)
Lemma signal_witness :
  run_dreamberd 8 zero_clock "const s = use(1)! print(s())! s(2)! print(s())!"
  = Ok ["1"; "2"]
  /\ call_signal 0 [] (with_signals [VInt 1 Cached] (new zero_clock))
     = (Ok (VInt 1 Cached), with_signals [VInt 1 Cached] (new zero_clock)).
Proof.
  split; [vm_compute; reflexivity|].
  exact (proj1 (proj2 (signal_holds_the_last_value_set 2
                         (NumberLiteral (LInt 1 Cached)) (new zero_clock)
                         (VInt 1 Cached) (new zero_clock) eq_refl))).
Defined.

(** The statements of a block, none of them a [return], run like the
    statements of a program. *)
Lemma run_block_without_return self_visit : forall body r s,
  forallb (fun n => negb (is_ReturnStatement n)) body = true ->
  run_block self_visit body r s = visit_all self_visit body r s.
Proof.
  induction body as [|stmt body IH]; intros r s H; simpl in *; [reflexivity|].
  apply andb_prop in H. destruct H as [Hs Hb].
  destruct (is_ReturnStatement stmt); [discriminate|].
  unfold bind. destruct (self_visit stmt s) as [[v|e| |] s']; auto.
Qed.

Lemma bind_assoc {A B C} (m : M A) (k : A -> M B) (h : B -> M C) s :
  bind (bind m k) h s = bind m (fun x => bind (k x) h) s.
Proof. unfold bind. destruct (m s) as [[a|e| |] s']; reflexivity. Qed.

(** X18 (return): the body of a function runs up to its first [return]
    statement, whose value is the result; the statements after it are
    not run.  A body without [return] runs to its end, and the result is
    the value of its last statement. *)
Theorem return_ends_the_block : forall self_visit before e after r s,
  forallb (fun n => negb (is_ReturnStatement n)) before = true ->
  run_block self_visit (before ++ ReturnStatement e :: after) r s
  = (visit_all self_visit before r ;;; self_visit (ReturnStatement e)) s
  /\ run_block self_visit before r s = visit_all self_visit before r s.
Proof.
  intros self_visit before e after r s H.
  split; [|apply run_block_without_return, H].
  revert r s H.
  induction before as [|stmt before IH]; intros r s H; simpl in *.
  - unfold bind, ret.
    destruct (self_visit (ReturnStatement e) s) as [[v|x| |] s']; reflexivity.
  - apply andb_prop in H. destruct H as [Hs Hb].
    destruct (is_ReturnStatement stmt); [discriminate|].
    rewrite bind_assoc. unfold bind at 1 2.
    destruct (self_visit stmt s) as [[v|x| |] s']; try reflexivity.
    apply IH, Hb.
Qed.

(** X18 through the interpreter: the second [print] of the body is not
    run. *)
Lemma return_witness :
  run_dreamberd 9 zero_clock
    "function g() => { print(1)! return 2! print(3)! }! print(g())!"
  = Ok ["1"; "2"]
  /\ run_block (visit 3)
       ([] ++ ReturnStatement (Some (NumberLiteral (LInt 2 Cached)))
           :: [NoopStatement "never"]) VNone (new zero_clock)
     = (Ok (VInt 2 Cached), new zero_clock).
Proof.
  split; [vm_compute; reflexivity|].
  rewrite (proj1 (return_ends_the_block (visit 3) []
                    (Some (NumberLiteral (LInt 2 Cached)))
                    [NoopStatement "never"] VNone (new zero_clock) eq_refl)).
  reflexivity.
Defined.

End InterpreterCoverage.

(** ** The interpreter: the scope stack *)

Section ScopeStack.

Import Interpreter.

Lemma balanced_ret {A} (a : A) : balanced (ret a).
Proof. intros s H. reflexivity. Qed.

Lemma balanced_raise {A} e : balanced (@raise A e).
Proof. intros s H. reflexivity. Qed.

Lemma balanced_lift {A} (r : result A) : balanced (lift r).
Proof. intros s H. unfold ends_at, lift. destruct r; simpl; lia. Qed.

(** A method that never changes the depth is balanced. *)
Lemma balanced_same {A} (m : M A) :
  (forall s, depth (snd (m s)) = depth s) -> balanced m.
Proof.
  intros E s H. unfold ends_at. specialize (E s).
  destruct (m s) as [[a|e| |] s']; simpl in *; lia.
Qed.

Lemma balanced_bind {A B} (m : M A) (k : A -> M B) :
  balanced m -> (forall a, balanced (k a)) -> balanced (bind m k).
Proof.
  intros Hm Hk s H. unfold bind. specialize (Hm s H). unfold ends_at in *.
  destruct (m s) as [[a|e| |] s1]; simpl in *; auto.
  assert (H1 : 1 <= depth s1) by lia. specialize (Hk a s1 H1).
  unfold ends_at in Hk. destruct (k a s1) as [[b|e| |] s2]; simpl in *; lia.
Qed.

Lemma balanced_try_except {A} (m : M A) h :
  balanced m -> (forall e, balanced (h e)) -> balanced (try_except m h).
Proof.
  intros Hm Hh s H. unfold try_except. specialize (Hm s H).
  unfold ends_at in *.
  destruct (m s) as [[a|e| |] s1]; simpl in *; auto.
  destruct (is_DreamBerdError e); simpl; auto.
  assert (H1 : 1 <= depth s1) by lia. specialize (Hh e s1 H1).
  unfold ends_at in Hh. destruct (h e s1) as [[b|e'| |] s2]; simpl in *; lia.
Qed.

Lemma balanced_for_each {A B} (f : A -> M B) l :
  (forall x, balanced (f x)) -> balanced (for_each f l).
Proof.
  intros Hf. induction l; simpl.
  - apply balanced_ret.
  - apply balanced_bind; auto. intros. apply balanced_bind; auto.
    intros. apply balanced_ret.
Qed.

Lemma depth_pop_scope s :
  2 <= depth s -> depth (snd (pop_scope s)) = depth s - 1.
Proof.
  unfold depth, pop_scope, modify. simpl.
  destruct (scope_stack s) as [|a [|b l]]; simpl; lia.
Qed.

(** [try: m finally: self.pop_scope()] pops the scope that was pushed for
    a balanced [m]. *)
Lemma unwinds_try_finally {A} (m : M A) :
  balanced m -> unwinds (try_finally m pop_scope).
Proof.
  intros Hm s H. unfold try_finally.
  assert (H1 : 1 <= depth s) by lia. specialize (Hm s H1).
  unfold ends_at in *.
  destruct (m s) as [[a|e| |] s1]; simpl in *; try lia.
  - pose proof (depth_pop_scope s1) as Hp.
    unfold bind, pop_scope, modify in *. simpl in *. lia.
  - pose proof (depth_pop_scope s1) as Hp.
    unfold bind, pop_scope, modify in *. simpl in *. lia.
Qed.

Lemma unwinds_bind {A B} (m : M A) (k : A -> M B) :
  unwinds m -> (forall a, balanced (k a)) -> unwinds (bind m k).
Proof.
  intros Hm Hk s H. unfold bind. specialize (Hm s H). unfold ends_at in *.
  destruct (m s) as [[a|e| |] s1]; simpl in *; auto.
  assert (H1 : 1 <= depth s1) by lia. specialize (Hk a s1 H1).
  unfold ends_at in Hk. destruct (k a s1) as [[b|e| |] s2]; simpl in *; lia.
Qed.

(** A scope pushed before a method that pops one. *)
Lemma balanced_push_scope {A} sc (m : M A) :
  unwinds m -> balanced (push_scope sc ;;; m).
Proof.
  intros Hm s H. unfold bind, push_scope, modify. simpl.
  assert (H2 : 2 <= depth (with_scope_stack (sc :: scope_stack s) s))
    by (unfold depth in *; simpl; lia).
  specialize (Hm _ H2). unfold ends_at in *.
  destruct (m (with_scope_stack (sc :: scope_stack s) s)) as [[a|e| |] s1];
    unfold depth in *; simpl in *; lia.
Qed.

Lemma length_update_last {A} (f : A -> A) : forall l,
  List.length (update_last f l) = List.length l.
Proof.
  induction l as [|x [|y l] IH]; simpl in *; auto.
Qed.

(** The lookup may remove expired bindings; it removes no scope. *)
Lemma depth_get_variable_from name : forall scopes skipped s,
  depth s = List.length skipped + List.length scopes ->
  depth (snd (get_variable_from name skipped scopes s)) = depth s.
Proof.
  induction scopes as [|sc outer IH]; intros skipped s H; simpl.
  - reflexivity.
  - destruct (dict_get name sc) as [ref|].
    + unfold bind, read_wrapper.
      destruct (nth_error (wrappers s) ref) as [w|]; [|reflexivity].
      unfold is_expired. destruct (lifetime w) as [limit|].
      * unfold bind, time_time, ret. simpl.
        destruct (SFltb limit _).
        -- unfold modify. simpl. rewrite IH.
           ++ unfold depth. simpl. rewrite length_app. simpl.
              unfold depth in H. simpl in H. lia.
           ++ unfold depth. simpl. rewrite !length_app. simpl. lia.
        -- destruct (deleted w); reflexivity.
      * unfold ret. destruct (deleted w); reflexivity.
    + rewrite IH; [reflexivity|]. rewrite length_app. simpl in *. lia.
Qed.

Lemma balanced_get_variable name : balanced (get_variable name).
Proof.
  apply balanced_same. intros s. unfold get_variable, bind, get.
  apply depth_get_variable_from. reflexivity.
Qed.

Lemma balanced_bind_current name ref : balanced (bind_current name ref).
Proof.
  apply balanced_same. intros s. unfold bind_current, modify, depth. simpl.
  destruct (scope_stack s) eqn:E; simpl; rewrite ?E; reflexivity.
Qed.

Lemma balanced_bind_global name ref : balanced (bind_global name ref).
Proof.
  apply balanced_same. intros s. unfold bind_global, modify, depth. simpl.
  apply length_update_last.
Qed.

Ltac same_depth := apply balanced_same; intros; reflexivity.

Ltac bal :=
  repeat first
    [ assumption
    | solve [ auto ]
    | apply balanced_ret
    | apply balanced_lift
    | apply balanced_raise
    | apply balanced_push_scope
    | apply unwinds_try_finally
    | apply unwinds_bind; [ | intros ]
    | apply balanced_bind; [ | intros ]
    | apply balanced_try_except; [ | intros ]
    | apply balanced_for_each; intros
    | solve [ same_depth ]
    | match goal with
      | |- balanced (if ?b then _ else _) => destruct b
      | |- balanced (match ?x with _ => _ end) => destruct x
      end ].

Lemma balanced_read_wrapper ref : balanced (read_wrapper ref).
Proof.
  apply balanced_same. intros s. unfold read_wrapper.
  destruct nth_error; reflexivity.
Qed.

Lemma balanced_read_list a : balanced (read_list a).
Proof.
  apply balanced_same. intros s. unfold read_list.
  destruct nth_error; reflexivity.
Qed.

Lemma balanced_get : balanced get.
Proof. same_depth. Qed.

#[local] Hint Resolve balanced_read_wrapper balanced_read_list balanced_get
  balanced_get_variable balanced_bind_current balanced_bind_global : core.

Lemma balanced_new_int z : balanced (new_int z).
Proof. unfold new_int. bal. Qed.

Lemma balanced_new_float z : balanced (new_float z).
Proof. unfold new_float. bal. Qed.

#[local] Hint Resolve balanced_new_int balanced_new_float : core.

Lemma balanced_truthy v : balanced (truthy v).
Proof. unfold truthy, unmodelled. bal. Qed.

Lemma balanced_current_scope : balanced current_scope.
Proof. unfold current_scope, unmodelled. bal. Qed.

Lemma balanced_set_variable name w b : balanced (set_variable name w b).
Proof. unfold set_variable. bal. Qed.

Lemma balanced_parse_lifetime t : balanced (parse_lifetime t).
Proof. unfold parse_lifetime, from_now, from_now_int, py_raise. bal. Qed.

Lemma balanced_str v : balanced (str v).
Proof. unfold str. bal. Qed.

Lemma balanced_equal a b : balanced (equal a b).
Proof. unfold equal. bal. Qed.

#[local] Hint Resolve balanced_truthy balanced_current_scope
  balanced_set_variable balanced_parse_lifetime balanced_str balanced_equal
  : core.

Lemma balanced_arith f g x y : balanced (arith f g x y).
Proof. unfold arith, py_raise. bal. Qed.

#[local] Hint Resolve balanced_arith : core.

Lemma balanced_py_add a b : balanced (py_add a b).
Proof. unfold py_add, py_raise, unmodelled. bal. Qed.

Lemma balanced_evaluate_arithmetic l o r :
  balanced (evaluate_arithmetic l o r).
Proof.
  unfold evaluate_arithmetic, in_deleted, fraction_operand, error, py_raise,
    py_add, py_sub, py_mul, py_div, py_pow, py_mod, py_repeat, unmodelled.
  bal.
Qed.

Lemma balanced_evaluate_comparison l o r :
  balanced (evaluate_comparison l o r).
Proof.
  unfold evaluate_comparison, close_enough, py_order, py_raise, unmodelled.
  bal.
Qed.

#[local] Hint Resolve balanced_py_add balanced_evaluate_arithmetic
  balanced_evaluate_comparison : core.

Section VisitorsAreBalanced.

Variable self_visit : node -> M value.
Hypothesis self_balanced : forall n, balanced (self_visit n).

Lemma balanced_visit_all body : forall r,
  balanced (visit_all self_visit body r).
Proof. induction body; intros; simpl; bal. Qed.

Lemma balanced_run_block body : forall r,
  balanced (run_block self_visit body r).
Proof. induction body; intros; simpl; bal. Qed.

Lemma balanced_bind_parameters ps : forall args sc,
  balanced (bind_parameters ps args sc).
Proof. induction ps; intros; simpl; bal. Qed.

Lemma balanced_instance_of sc : forall d, balanced (instance_of sc d).
Proof. induction sc as [|[n r] sc]; intros; simpl; bal. Qed.

#[local] Hint Resolve balanced_visit_all balanced_run_block
  balanced_bind_parameters balanced_instance_of : core.

Lemma balanced_dispatch n : balanced (dispatch self_visit n).
Proof.
  destruct n; simpl;
    unfold visit_Program, visit_NumberLiteral, visit_MaybeLiteral,
      visit_Identifier, visit_ArrayLiteral, visit_ArrayAccess, element_at,
      visit_BinaryOperation, visit_UnaryOperation, visit_Assignment,
      visit_FunctionCall, call_function, builtin_print, call_signal, emit,
      visit_MemberAccess, visit_VariableDeclaration,
      visit_FunctionDeclaration, visit_ClassDeclaration,
      visit_PrintStatement, debug_info, visit_ExpressionStatement,
      visit_ReturnStatement, visit_DeleteStatement, visit_ReverseStatement,
      visit_PreviousExpression, visit_CurrentExpression,
      visit_UseExpression, visit_NewExpression, visit_FileBlock,
      visit_GlobalConstantDeclaration, visit_IncrementExpression,
      visit_DecrementExpression, visit_step, generic_visit, write_list,
      alloc_list, time_time, error, py_raise, unmodelled;
    bal.
Qed.

End VisitorsAreBalanced.

Lemma balanced_visit fuel : forall n, balanced (visit fuel n).
Proof.
  induction fuel; intros n; simpl.
  - intros s H. unfold ends_at. simpl. lia.
  - apply balanced_dispatch. exact IHfuel.
Qed.

Lemma balanced_interpret fuel source : balanced (interpret fuel source).
Proof.
  intros s H. unfold interpret, ends_at.
  destruct (Parser.parse_dreamberd source (next_object s)) as [ast p|e| |];
    simpl; try lia.
  pose proof (balanced_visit fuel ast
                (with_next_object (Parser.next_object p) s) H) as Hv.
  unfold ends_at in Hv.
  destruct (visit fuel ast (with_next_object (Parser.next_object p) s))
    as [[v|e| |] s']; exact Hv.
Qed.

(** X19 (the scope stack is balanced): every visit that returns or raises
    leaves as many scopes on the stack as it found: the scope that a
    function call, a file block or the making of an instance pushes is
    popped again, also when the body raises, and the lookup that removes
    an expired binding removes no scope.  The global scope is never
    popped: a run of [interpret] on a new interpreter ends with the global
    scope alone. *)
Theorem scopes_are_balanced :
  (forall fuel n s r s',
     1 <= depth s -> visit fuel n s = (r, s') -> completed r ->
     depth s' = depth s)
  /\ (forall fuel source s r s',
        1 <= depth s -> interpret fuel source s = (r, s') -> completed r ->
        depth s' = depth s)
  /\ (forall clock, depth (new clock) = 1).
Proof.
  split; [|split].
  - intros fuel n s r s' H E Hr. pose proof (balanced_visit fuel n s H) as Hb.
    rewrite E in Hb. unfold ends_at in Hb. simpl in Hb.
    destruct r; simpl in Hr; try contradiction; exact Hb.
  - intros fuel source s r s' H E Hr.
    pose proof (balanced_interpret fuel source s H) as Hb.
    rewrite E in Hb. unfold ends_at in Hb. simpl in Hb.
    destruct r; simpl in Hr; try contradiction; exact Hb.
  - reflexivity.
Qed.

(** X19 at a call whose body raises: the run raises, and the scope of the
    call has been popped. *)
Lemma scopes_witness :
  let o :=
    interpret 9 "function g(x) => { print(nope)! }! g(1)!" (new zero_clock) in
  fst o
  = Raise (InterpretationError (DreamBerdError "Undefined variable: nope"))
  /\ depth (snd o) = 1.
Proof.
  intros o.
  assert (Hr : fst o
               = Raise
                   (InterpretationError
                      (DreamBerdError "Undefined variable: nope")))
    by (vm_compute; reflexivity).
  split; [exact Hr|].
  refine (proj1 (proj2 scopes_are_balanced) 9 _ (new zero_clock) (fst o)
            (snd o) (le_n 1) (surjective_pairing o) _).
  rewrite Hr. exact I.
Defined.

End ScopeStack.

(** ** The interpreter: what a run never forgets *)

Section NothingIsForgotten.

Import Interpreter.

Lemma keeps_names_refl {A} (d : dict A) : keeps_names d d.
Proof. intros k H. exact H. Qed.

Lemma dict_mem_dict_set {A} k k' (v : A) : forall d,
  dict_mem k (dict_set k' v d)
  = (String.eqb k k' || dict_mem k d).
Proof.
  unfold dict_mem, dict_get. induction d as [|[k0 v0] d IH]; simpl.
  - destruct (String.eqb k k'); reflexivity.
  - destruct (String.eqb k' k0) eqn:E'; simpl.
    + apply String.eqb_eq in E'. subst k0.
      destruct (String.eqb k k'); reflexivity.
    + destruct (String.eqb k k0) eqn:E; simpl.
      * destruct (String.eqb k k'); reflexivity.
      * exact IH.
Qed.

Lemma keeps_names_dict_set {A} k (v : A) d : keeps_names d (dict_set k v d).
Proof.
  intros k0 H. rewrite dict_mem_dict_set, H. apply orb_true_r.
Qed.

Lemma length_update_nth {A} (f : A -> A) : forall l n,
  List.length (update_nth n f l) = List.length l.
Proof. induction l; intros [|n]; simpl; auto. Qed.

Lemma incl_set_add x l : incl l (set_add x l).
Proof.
  unfold set_add. destruct (existsb (String.eqb x) l);
    [apply incl_refl|apply incl_appl, incl_refl].
Qed.

Lemma grows_refl s : grows s s.
Proof.
  unfold grows. repeat split; auto using keeps_names_refl, incl_refl.
  exists []. symmetry. apply app_nil_r.
Qed.

Lemma grows_trans a b c : grows a b -> grows b c -> grows a c.
Proof.
  unfold grows, keeps_names.
  intros [[m1 H1] [H2 [H3 [H4 [H5 [H6 [H7 [H8 H9]]]]]]]]
         [[m2 G1] [G2 [G3 [G4 [G5 [G6 [G7 [G8 G9]]]]]]]].
  repeat split; auto; try lia.
  - exists (m1 ++ m2). rewrite G1, H1, app_assoc. reflexivity.
  - eapply incl_tran; eauto.
  - eapply incl_tran; eauto.
Qed.

Lemma monotone_ret {A} (a : A) : monotone (ret a).
Proof. intros s. apply grows_refl. Qed.

Lemma monotone_raise {A} e : monotone (@raise A e).
Proof. intros s. apply grows_refl. Qed.

Lemma monotone_lift {A} (r : result A) : monotone (lift r).
Proof. intros s. apply grows_refl. Qed.

Lemma monotone_bind {A B} (m : M A) (k : A -> M B) :
  monotone m -> (forall a, monotone (k a)) -> monotone (bind m k).
Proof.
  intros Hm Hk s. unfold bind. specialize (Hm s).
  destruct (m s) as [[a|e| |] s1]; simpl in *; auto.
  eapply grows_trans; [exact Hm|]. apply Hk.
Qed.

Lemma monotone_try_except {A} (m : M A) h :
  monotone m -> (forall e, monotone (h e)) -> monotone (try_except m h).
Proof.
  intros Hm Hh s. unfold try_except. specialize (Hm s).
  destruct (m s) as [[a|e| |] s1]; simpl in *; auto.
  destruct (is_DreamBerdError e); simpl; auto.
  eapply grows_trans; [exact Hm|]. apply Hh.
Qed.

Lemma monotone_try_finally {A} (m : M A) c :
  monotone m -> monotone c -> monotone (try_finally m c).
Proof.
  intros Hm Hc s. unfold try_finally. specialize (Hm s).
  destruct (m s) as [[a|e| |] s1]; simpl in *; auto.
  - eapply grows_trans; [exact Hm|].
    apply (monotone_bind c (fun _ => ret a)); auto.
    intros; apply monotone_ret.
  - eapply grows_trans; [exact Hm|].
    apply (monotone_bind c (fun _ => raise e)); auto.
    intros; apply monotone_raise.
Qed.

Lemma monotone_for_each {A B} (f : A -> M B) l :
  (forall x, monotone (f x)) -> monotone (for_each f l).
Proof.
  intros Hf. induction l; simpl.
  - apply monotone_ret.
  - apply monotone_bind; auto. intros. apply monotone_bind; auto.
    intros. apply monotone_ret.
Qed.

(** The state a method leaves, built from the state it found. *)
Ltac grown :=
  intros; unfold grows; simpl;
  repeat match goal with |- _ /\ _ => split end;
  try solve
    [ exists []; symmetry; apply app_nil_r
    | eexists; reflexivity
    | apply keeps_names_refl
    | apply keeps_names_dict_set
    | apply incl_refl
    | apply incl_set_add
    | apply incl_tl, incl_refl
    | rewrite ?length_app, ?length_update_nth; simpl; lia ].

Lemma monotone_read_wrapper ref : monotone (read_wrapper ref).
Proof.
  intros s. unfold read_wrapper. destruct nth_error; apply grows_refl.
Qed.

Lemma monotone_read_list a : monotone (read_list a).
Proof. intros s. unfold read_list. destruct nth_error; apply grows_refl. Qed.

Lemma monotone_get : monotone get.
Proof. intros s. apply grows_refl. Qed.

Lemma monotone_scopes (f : DreamBerdInterpreter -> list scope) :
  monotone (modify (fun s => with_scope_stack (f s) s)).
Proof. intros s. grown. Qed.

Lemma monotone_bind_current name ref : monotone (bind_current name ref).
Proof.
  intros s. unfold bind_current, modify. simpl.
  destruct (scope_stack s); [apply grows_refl|grown].
Qed.

Lemma monotone_pop_scope : monotone pop_scope.
Proof.
  intros s. unfold pop_scope, modify. simpl.
  destruct (scope_stack s) as [|? [|? ?]]; try apply grows_refl. grown.
Qed.

Lemma monotone_get_variable_from name scopes : forall skipped,
  monotone (get_variable_from name skipped scopes).
Proof.
  induction scopes as [|sc outer IH]; intros skipped; simpl.
  - apply monotone_raise.
  - destruct (dict_get name sc) as [ref|]; [|apply IH].
    apply monotone_bind; [apply monotone_read_wrapper|]. intros w.
    apply monotone_bind.
    + unfold is_expired. destruct (lifetime w).
      * apply monotone_bind; [intros s; grown|intros; apply monotone_ret].
      * apply monotone_ret.
    + intros [|].
      * apply monotone_bind; [intros s; grown|intros; apply IH].
      * destruct (deleted w); [apply monotone_raise|apply monotone_ret].
Qed.

Lemma monotone_get_variable name : monotone (get_variable name).
Proof.
  unfold get_variable. apply monotone_bind; [apply monotone_get|].
  intros s. apply monotone_get_variable_from.
Qed.

Ltac mono :=
  repeat first
    [ assumption
    | solve [ auto ]
    | apply monotone_ret
    | apply monotone_lift
    | apply monotone_raise
    | apply monotone_bind; [ | intros ]
    | apply monotone_try_except; [ | intros ]
    | apply monotone_try_finally
    | apply monotone_for_each; intros
    | solve [ intros ?s; grown ]
    | match goal with
      | |- monotone (if ?b then _ else _) => destruct b
      | |- monotone (match ?x with _ => _ end) => destruct x
      end ].

#[local] Hint Resolve monotone_read_wrapper monotone_read_list monotone_get
  monotone_get_variable monotone_bind_current monotone_pop_scope : core.

Lemma monotone_new_int z : monotone (new_int z).
Proof. unfold new_int. mono. Qed.

Lemma monotone_new_float z : monotone (new_float z).
Proof. unfold new_float. mono. Qed.

#[local] Hint Resolve monotone_new_int monotone_new_float : core.

Lemma monotone_truthy v : monotone (truthy v).
Proof. unfold truthy, unmodelled. mono. Qed.

Lemma monotone_current_scope : monotone current_scope.
Proof. unfold current_scope, unmodelled. mono. Qed.

Lemma monotone_set_variable name w b : monotone (set_variable name w b).
Proof. unfold set_variable. mono. Qed.

Lemma monotone_parse_lifetime t : monotone (parse_lifetime t).
Proof. unfold parse_lifetime, from_now, from_now_int, py_raise. mono. Qed.

Lemma monotone_str v : monotone (str v).
Proof. unfold str. mono. Qed.

Lemma monotone_equal a b : monotone (equal a b).
Proof. unfold equal. mono. Qed.

#[local] Hint Resolve monotone_truthy monotone_current_scope
  monotone_set_variable monotone_parse_lifetime monotone_str monotone_equal
  : core.

Lemma monotone_arith f g x y : monotone (arith f g x y).
Proof. unfold arith, py_raise. mono. Qed.

#[local] Hint Resolve monotone_arith : core.

Lemma monotone_py_add a b : monotone (py_add a b).
Proof. unfold py_add, py_raise, unmodelled. mono. Qed.

Lemma monotone_evaluate_arithmetic l o r :
  monotone (evaluate_arithmetic l o r).
Proof.
  unfold evaluate_arithmetic, in_deleted, fraction_operand, error, py_raise,
    py_add, py_sub, py_mul, py_div, py_pow, py_mod, py_repeat, unmodelled.
  mono.
Qed.

Lemma monotone_evaluate_comparison l o r :
  monotone (evaluate_comparison l o r).
Proof.
  unfold evaluate_comparison, close_enough, py_order, py_raise, unmodelled.
  mono.
Qed.

#[local] Hint Resolve monotone_py_add monotone_evaluate_arithmetic
  monotone_evaluate_comparison : core.

Section VisitorsForgetNothing.

Variable self_visit : node -> M value.
Hypothesis self_monotone : forall n, monotone (self_visit n).

Lemma monotone_visit_all body : forall r,
  monotone (visit_all self_visit body r).
Proof. induction body; intros; simpl; mono. Qed.

Lemma monotone_run_block body : forall r,
  monotone (run_block self_visit body r).
Proof. induction body; intros; simpl; mono. Qed.

Lemma monotone_bind_parameters ps : forall args sc,
  monotone (bind_parameters ps args sc).
Proof. induction ps; intros; simpl; mono. Qed.

Lemma monotone_instance_of sc : forall d, monotone (instance_of sc d).
Proof. induction sc as [|[n r] sc]; intros; simpl; mono. Qed.

#[local] Hint Resolve monotone_visit_all monotone_run_block
  monotone_bind_parameters monotone_instance_of : core.

Lemma monotone_dispatch n : monotone (dispatch self_visit n).
Proof.
  destruct n; simpl;
    unfold visit_Program, visit_NumberLiteral, visit_MaybeLiteral,
      visit_Identifier, visit_ArrayLiteral, visit_ArrayAccess, element_at,
      visit_BinaryOperation, visit_UnaryOperation, visit_Assignment,
      visit_FunctionCall, call_function, builtin_print, call_signal, emit,
      visit_MemberAccess, visit_VariableDeclaration,
      visit_FunctionDeclaration, visit_ClassDeclaration,
      visit_PrintStatement, debug_info, visit_ExpressionStatement,
      visit_ReturnStatement, visit_DeleteStatement, visit_ReverseStatement,
      visit_PreviousExpression, visit_CurrentExpression,
      visit_UseExpression, visit_NewExpression, visit_FileBlock,
      visit_GlobalConstantDeclaration, visit_IncrementExpression,
      visit_DecrementExpression, visit_step, generic_visit, write_list,
      alloc_list, time_time, error, py_raise, unmodelled;
    mono.
Qed.

End VisitorsForgetNothing.

Lemma monotone_visit fuel : forall n, monotone (visit fuel n).
Proof.
  induction fuel; intros n; simpl.
  - intros s. apply grows_refl.
  - apply monotone_dispatch. exact IHfuel.
Qed.

Lemma monotone_interpret fuel source : monotone (interpret fuel source).
Proof.
  intros s. unfold interpret.
  destruct (Parser.parse_dreamberd source (next_object s)) as [ast p|e| |];
    try apply grows_refl.
  pose proof (monotone_visit fuel ast
                (with_next_object (Parser.next_object p) s)) as Hv.
  assert (H0 : grows s (with_next_object (Parser.next_object p) s))
    by grown.
  destruct (visit fuel ast (with_next_object (Parser.next_object p) s))
    as [[v|e| |] s']; simpl in *; eapply grows_trans; eauto.
Qed.

(** X20 (a run forgets nothing): whatever a visit or a run of [interpret]
    does, and however it ends, the lines already printed stay the first
    lines of the output, every class, function and class instance that
    was known stays known, every immutable global and deleted value stays
    one, and no wrapper, list or signal is lost. *)
Theorem nothing_is_forgotten : forall fuel s,
  (forall n, grows s (snd (visit fuel n s)))
  /\ (forall source, grows s (snd (interpret fuel source s)))
  /\ (forall n,
        exists more, output (snd (visit fuel n s)) = output s ++ more).
Proof.
  intros fuel s. split; [|split].
  - intros n. apply monotone_visit.
  - intros source. apply monotone_interpret.
  - intros n. exact (proj1 (monotone_visit fuel n s)).
Qed.

Lemma dict_mem_get {A} k (d : dict A) :
  dict_mem k d = true -> exists v, dict_get k d = Some v.
Proof.
  unfold dict_mem, dict_get. destruct (assoc k d) as [v|]; [eauto|].
  discriminate.
Qed.

(** X21 (one instance of a class): once [new] has made an instance of a
    class, every later [new] of that class raises, and changes nothing. *)
Theorem second_instance_is_refused :
  forall fuel class_name arguments s v s',
    visit (S fuel) (NewExpression class_name arguments) s = (Ok v, s') ->
    forall fuel' arguments',
      visit (S fuel') (NewExpression class_name arguments') s'
      = (Raise
           (DreamBerdError
              ("Can't have more than one '" ++ class_name ++ "' instance!")
              %string), s').
Proof.
  intros fuel class_name arguments s v s' H fuel' arguments'.
  assert (Hg : grows s s').
  { pose proof (monotone_visit (S fuel) (NewExpression class_name arguments) s)
      as Hm.
    rewrite H in Hm. exact Hm. }
  simpl in H. unfold visit_NewExpression in H.
  unfold bind at 1, get in H.
  destruct (dict_get class_name (classes s)) as [decl|] eqn:Hc;
    [|discriminate].
  destruct (dict_mem class_name (class_instances s)); [discriminate|].
  unfold bind at 1, push_scope, modify in H.
  unfold bind at 1 in H.
  match type of H with
  | context [try_finally ?m ?c ?st] =>
      destruct (try_finally m c st) as [[instance|e| |] s2]
  end; try discriminate.
  inversion H; subst v s'. clear H.
  assert (Hclass : dict_mem class_name (classes s) = true).
  { unfold dict_mem, dict_get in *. rewrite Hc. reflexivity. }
  destruct Hg as [_ [Hk _]].
  apply Hk in Hclass. apply dict_mem_get in Hclass.
  destruct Hclass as [decl' Hd].
  simpl. unfold visit_NewExpression. unfold bind at 1, get.
  rewrite Hd. cbn [class_instances with_class_instances].
  rewrite dict_mem_dict_set, String.eqb_refl. reflexivity.
Qed.

(** X21 through the interpreter. *)
Lemma second_instance_witness :
  let s := state_after "class Player { const const lives = 3! }" in
  let first := visit 4 (NewExpression "Player" []) s in
  fst first = Ok (VInstance 0)
  /\ visit 4 (NewExpression "Player" []) (snd first)
     = (Raise
          (DreamBerdError "Can't have more than one 'Player' instance!"),
        snd first).
Proof.
  intros s first.
  assert (H : first = (Ok (VInstance 0), snd first))
    by (vm_compute; reflexivity).
  split; [rewrite H; reflexivity|].
  exact (second_instance_is_refused 3 "Player" [] s (VInstance 0) (snd first)
           H 3 []).
Defined.

End NothingIsForgotten.

(** ** The parser *)

Section ParserCoverage.

Import Lexer Parser.

(** At the end of the input there is no newline to skip. *)
Lemma skip_newlines_at_the_end p :
  tok_type (current_token p) = T_EOF ->
  skip_newlines p = POk tt p.
Proof.
  intros H. unfold skip_newlines, skip.
  destruct p as [cur rest n]. simpl in *.
  destruct rest; simpl; rewrite H; reflexivity.
Qed.

(** At the end of the input [parse_statement] returns nothing and stays
    where it is. *)
Lemma parse_statement_at_the_end self p :
  tok_type (current_token p) = T_EOF ->
  parse_statement self p = POk None p.
Proof.
  intros H. unfold parse_statement. unfold bind at 1.
  rewrite (skip_newlines_at_the_end p H).
  unfold bind at 1, current. rewrite H. reflexivity.
Qed.

(** X22 (an unclosed block): at the end of the input the loop over the
    statements of a block body never ends: every iteration finds no
    closing brace, gets no statement, and leaves the parser where it is.
    The parser therefore neither returns nor raises on a block that the
    source does not close, however deep its calls may nest. *)
Theorem unclosed_block_never_ends : forall fuel body p,
  tok_type (current_token p) = T_EOF ->
  parse_block (methods_at fuel) body p = PTimeout.
Proof.
  induction fuel; intros body p H.
  - unfold parse_block. unfold bind at 1, match_. rewrite H.
    cbn [type_in existsb TokenType_eqb orb].
    change (TokenType_eqb T_EOF T_RBRACE || false) with false. cbv iota.
    unfold bind at 1. rewrite (skip_newlines_at_the_end p H).
    unfold bind at 1. rewrite H.
    change (type_in T_EOF [T_RBRACE]) with false. cbv iota.
    reflexivity.
  - unfold parse_block. unfold bind at 1, match_. rewrite H.
    change (type_in T_EOF [T_RBRACE]) with false. cbv iota.
    unfold bind at 1. rewrite (skip_newlines_at_the_end p H).
    unfold bind at 1. rewrite H.
    change (type_in T_EOF [T_RBRACE]) with false. cbv iota.
    unfold bind. cbn [methods_at self_parse_statement self_parse_block].
    rewrite (parse_statement_at_the_end _ p H). apply IHfuel, H.
Qed.

(** X22 at the source [if (x) {]. *)
Lemma unclosed_block_witness :
  parse_block (methods_at 5) [] (new (tokenize (Lexer.new EmptyString)) 0)
  = PTimeout
  /\ parse_dreamberd "if (x) {" 0 = PTimeout.
Proof.
  split; [|vm_compute; reflexivity].
  exact (unclosed_block_never_ends 5 []
           (new (tokenize (Lexer.new EmptyString)) 0) eq_refl).
Defined.

(** The loop of a level of binary operators builds a chain that leans to
    the left, of the operands it reads one after the other. *)
Lemma binary_loop_chain types operand : forall fuel expr p e p',
  binary_loop fuel types operand expr p = POk e p' ->
  exists more,
    operands_from types operand p more p' /\ e = chain expr more.
Proof.
  induction fuel; intros expr p e p' H; simpl in H; [discriminate|].
  unfold bind at 1, match_ in H.
  destruct (type_in (tok_type (current_token p)) types) eqn:Ht.
  - unfold bind at 1, current in H. unfold bind at 1 in H.
    destruct (advance p) as [[] p1| | |] eqn:Ha; try discriminate.
    unfold bind at 1 in H.
    destruct (operand p1) as [right p2| | |] eqn:Ho; try discriminate.
    apply IHfuel in H. destruct H as [more [Hm He]].
    exists ((tok_value (current_token p), right) :: more).
    split; [|exact He]. simpl. split; [exact Ht|]. split; [reflexivity|].
    exists p1, p2. auto.
  - unfold ret in H. inversion H. subst. exists []. simpl. auto.
Qed.

(** X23 (binary operators associate to the left): an expression of one
    level of binary operators, the power operator too, is the chain that
    leans to the left over the operands the level reads in the order of
    the source: the first operand is the innermost left operand, every
    operator is the text of a token of the level, every right operand is
    what the method of the next level returns right after that token, and
    the parser ends on a token that is no operator of the level.  So
    [2 ^ 3 ^ 2] is the tree of (2 ^ 3) ^ 2, never of 2 ^ (3 ^ 2). *)
Theorem binary_operators_associate_to_the_left :
  forall types operand p e p',
    binary_level types operand p = POk e p' ->
    exists first p1 more,
      operand p = POk first p1
      /\ operands_from types operand p1 more p'
      /\ e = chain first more.
Proof.
  intros types operand p e p' H. unfold binary_level in H.
  unfold bind at 1 in H.
  destruct (operand p) as [first p1| | |] eqn:Ho; try discriminate.
  unfold bind at 1, tokens_left in H.
  apply binary_loop_chain in H. destruct H as [more [Hm He]].
  exists first, p1, more. auto.
Qed.

(** X23 at the source [2 ^ 3 ^ 2]: the operands are 2, 3 and 2, the tree
    is (2 ^ 3) ^ 2, and the program that prints it writes 64. *)
Lemma left_association_witness :
  (exists first p1 more,
     parse_unary (methods_at 3) (new (tokenize (Lexer.new "2 ^ 3 ^ 2")) 0)
     = POk first p1
     /\ operands_from [T_POWER] (parse_unary (methods_at 3)) p1 more
          (mkParser (Token4 T_EOF EmptyString 1 10) [] 0)
     /\ BinaryOperation
          (BinaryOperation (NumberLiteral (LInt 2 Cached)) "^"
             (NumberLiteral (LInt 3 Cached)))
          "^" (NumberLiteral (LInt 2 Cached))
        = chain first more)
  /\ chain (NumberLiteral (LInt 2 Cached))
       [("^", NumberLiteral (LInt 3 Cached));
        ("^", NumberLiteral (LInt 2 Cached))]
     = BinaryOperation
         (BinaryOperation (NumberLiteral (LInt 2 Cached)) "^"
            (NumberLiteral (LInt 3 Cached)))
         "^" (NumberLiteral (LInt 2 Cached))
  /\ Interpreter.run_dreamberd 8 zero_clock "print(2 ^ 3 ^ 2)!"
     = Interpreter.Ok ["64"].
Proof.
  split; [|split; [reflexivity|vm_compute; reflexivity]].
  refine (binary_operators_associate_to_the_left [T_POWER]
            (parse_unary (methods_at 3))
            (new (tokenize (Lexer.new "2 ^ 3 ^ 2")) 0)
            (BinaryOperation
               (BinaryOperation (NumberLiteral (LInt 2 Cached)) "^"
                  (NumberLiteral (LInt 3 Cached)))
               "^" (NumberLiteral (LInt 2 Cached)))
            (mkParser (Token4 T_EOF EmptyString 1 10) [] 0) _).
  vm_compute. reflexivity.
Defined.

End ParserCoverage.

(** ** The trees the parser builds *)

Section ParsedTrees.

Import Lexer Parser.

Lemma yields_any {A} (m : M A) : yields_with (@shaped A (any_shape A)) m.
Proof. intros p a p' _. exact I. Qed.

Lemma yields_ret {A} (good : A -> Prop) (a : A) :
  good a -> yields_with good (ret a).
Proof. intros H p b p' E. inversion E. subst. exact H. Qed.

Lemma yields_raise {A} (good : A -> Prop) msg :
  yields_with good (raise msg).
Proof. intros p a p' E. discriminate E. Qed.

Lemma yields_timeout {A} (good : A -> Prop) : yields_with good timeout.
Proof. intros p a p' E. discriminate E. Qed.

Lemma yields_unmodelled {A} (good : A -> Prop) :
  yields_with good (fun _ => PUnmodelled).
Proof. intros p a p' E. discriminate E. Qed.

Lemma yields_bind {A B} `{Shape A} (good : B -> Prop) (m : M A)
  (k : A -> M B) :
  yields_with shaped m ->
  (forall a, shaped a -> yields_with good (k a)) ->
  yields_with good (bind m k).
Proof.
  intros Hm Hk p b p' E. unfold bind in E.
  destruct (m p) as [a p1| | |] eqn:Em; try discriminate.
  exact (Hk a (Hm p a p1 Em) p1 b p' E).
Qed.

Lemma forallb_snoc {A} (f : A -> bool) l a :
  forallb f l = true -> f a = true -> forallb f (l ++ [a]) = true.
Proof.
  intros Hl Ha. rewrite forallb_app, Hl. simpl. rewrite Ha. reflexivity.
Qed.

Ltac shapes :=
  cbv [shaped node_shape nodes_shape option_node_shape option_nodes_shape
       body_shape any_shape] in *.

Ltac shown :=
  shapes; cbn [parsed_shape top_shape forallb andb fst snd] in *;
  repeat match goal with
         | |- context [match ?x with _ => _ end] => is_var x; destruct x
         end;
  repeat match goal with
         | H : ?x = true |- context [?x] => rewrite H
         end;
  cbn [andb];
  first [ reflexivity | exact I | assumption
        | apply forallb_snoc; assumption ].

Ltac yield :=
  first
    [ assumption
    | apply yields_any
    | apply yields_ret; shown
    | apply yields_raise
    | apply yields_timeout
    | apply yields_unmodelled
    | match goal with
      | |- yields_with _ (bind _ _) =>
          apply yields_bind; [yield | intros ? ?; yield]
      | |- yields_with _ (if ?b then _ else _) => destruct b; yield
      | |- yields_with _ (let _ := _ in _) => cbv zeta; yield
      | |- yields_with _ (match ?x with _ => _ end) => destruct x; yield
      end ].

Lemma yields_number_literal value : yields_with shaped (number_literal value).
Proof. unfold number_literal. yield. Qed.

Lemma yields_binary_loop types operand :
  yields_with shaped operand ->
  forall fuel expr, shaped expr ->
    yields_with shaped (binary_loop fuel types operand expr).
Proof.
  intros Ho. induction fuel; intros expr He; simpl; [yield|].
  apply yields_bind; [yield|]. intros [] _; [|yield].
  apply yields_bind; [yield|]. intros tok _.
  apply yields_bind; [yield|]. intros _ _.
  apply yields_bind; [exact Ho|]. intros right Hr.
  apply IHfuel. shown.
Qed.

Lemma yields_binary_level types operand :
  yields_with shaped operand ->
  yields_with shaped (binary_level types operand).
Proof.
  intros Ho. unfold binary_level.
  apply yields_bind; [exact Ho|]. intros expr He.
  apply yields_bind; [yield|]. intros n _.
  apply yields_binary_loop; assumption.
Qed.

Section OneLevel.

Variable self : methods.
Hypothesis statement_ok : yields_with shaped (self_parse_statement self).
Hypothesis block_ok :
  forall body, shaped body -> yields_with shaped (self_parse_block self body).
Hypothesis expression_ok : yields_with shaped (self_parse_expression self).
Hypothesis unary_ok : yields_with shaped (self_parse_unary self).
Hypothesis primary_ok : yields_with shaped (self_parse_primary self).

Lemma yields_parse_sequence closing message :
  forall fuel items, shaped items ->
    yields_with shaped (parse_sequence fuel self closing message items).
Proof.
  induction fuel; intros items Hi; simpl; [yield|].
  apply yields_bind; [yield|]. intros [] _; [yield|].
  apply yields_bind; [yield|]. intros _ _.
  apply yields_bind; [yield|]. intros item Hitem.
  apply IHfuel. shown.
Qed.

Lemma yields_parse_primary : yields_with shaped (parse_primary self).
Proof.
  pose proof yields_number_literal. pose proof yields_parse_sequence.
  unfold parse_primary.
  apply yields_bind; [yield|]. intros tok _. cbv zeta.
  repeat match goal with
         | |- yields_with _ (if ?b then _ else _) => destruct b
         end;
    repeat first
      [ apply yields_parse_sequence; reflexivity
      | apply yields_number_literal
      | apply yields_bind; [|intros ? ?]
      | yield ].
Qed.

Lemma yields_postfix_loop :
  forall fuel expr, shaped expr ->
    yields_with shaped (postfix_loop fuel self expr).
Proof.
  induction fuel; intros expr He; simpl; [yield|].
  apply yields_bind; [yield|]. intros tok _. cbv zeta.
  repeat match goal with
         | |- yields_with _ (if ?b then _ else _) => destruct b
         end;
    repeat first
      [ apply IHfuel; shown
      | apply yields_parse_sequence; reflexivity
      | apply yields_bind; [|intros ? ?]
      | yield ].
Qed.

Lemma yields_parse_postfix : yields_with shaped (parse_postfix self).
Proof.
  unfold parse_postfix.
  apply yields_bind; [apply yields_parse_primary|]. intros expr He.
  apply yields_bind; [yield|]. intros n _.
  apply yields_postfix_loop, He.
Qed.

Lemma yields_parse_unary : yields_with shaped (parse_unary self).
Proof.
  unfold parse_unary.
  apply yields_bind; [yield|]. intros tok _. cbv zeta.
  repeat match goal with
         | |- yields_with _ (if ?b then _ else _) => destruct b
         end;
    repeat first
      [ apply yields_parse_postfix
      | apply yields_bind; [|intros ? ?]
      | yield ].
Qed.

Lemma yields_parse_expression : yields_with shaped (parse_expression self).
Proof.
  unfold parse_expression, parse_assignment, parse_or, parse_and,
    parse_equality, parse_comparison, parse_addition, parse_multiplication,
    parse_power.
  repeat apply yields_binary_level. apply yields_parse_unary.
Qed.

Lemma yields_parse_block :
  forall body, shaped body -> yields_with shaped (parse_block self body).
Proof.
  intros body Hb. unfold parse_block.
  apply yields_bind; [yield|]. intros [] _; [yield|].
  apply yields_bind; [yield|]. intros _ _.
  apply yields_bind; [yield|]. intros [] _; [yield|].
  apply yields_bind; [yield|]. intros [stmt|] Hs; apply block_ok; shown.
Qed.

Ltac statement :=
  repeat first
    [ apply yields_parse_expression
    | apply yields_parse_block; reflexivity
    | apply yields_bind; [|intros ? ?]
    | match goal with
      | |- yields_with _ (if ?b then _ else _) => destruct b
      end
    | yield ].

Lemma yields_parse_variable_declaration :
  yields_with shaped (parse_variable_declaration self).
Proof. unfold parse_variable_declaration. statement. Qed.

Lemma yields_parse_function_declaration is_async :
  yields_with shaped (parse_function_declaration self is_async).
Proof. unfold parse_function_declaration. statement. Qed.

Lemma yields_parse_class_declaration :
  yields_with shaped (parse_class_declaration self).
Proof. unfold parse_class_declaration. statement. Qed.

Lemma yields_parse_if_statement :
  yields_with shaped (parse_if_statement self).
Proof. unfold parse_if_statement. statement. Qed.

Lemma yields_parse_when_statement :
  yields_with shaped (parse_when_statement self).
Proof. unfold parse_when_statement. statement. Qed.

Lemma yields_parse_return_statement :
  yields_with shaped (parse_return_statement self).
Proof. unfold parse_return_statement. statement. Qed.

Lemma yields_parse_delete_statement :
  yields_with shaped (parse_delete_statement self).
Proof. unfold parse_delete_statement. statement. Qed.

Lemma yields_parse_import_statement :
  yields_with shaped parse_import_statement.
Proof. unfold parse_import_statement. statement. Qed.

Lemma yields_parse_export_statement :
  yields_with shaped parse_export_statement.
Proof. unfold parse_export_statement. statement. Qed.

Lemma yields_parse_other_statement :
  yields_with shaped (parse_other_statement self).
Proof.
  unfold parse_other_statement.
  apply yields_bind; [yield|]. intros tok _. cbv zeta.
  repeat match goal with
         | |- yields_with _ (if ?b then _ else _) => destruct b
         end;
    repeat first
      [ apply yields_parse_class_declaration
      | apply yields_parse_if_statement
      | apply yields_parse_when_statement
      | apply yields_parse_return_statement
      | apply yields_parse_delete_statement
      | apply yields_parse_import_statement
      | apply yields_parse_export_statement
      | apply yields_parse_expression
      | apply yields_bind; [|intros ? ?]
      | yield ].
Qed.

Lemma yields_parse_statement : yields_with shaped (parse_statement self).
Proof.
  unfold parse_statement.
  apply yields_bind; [yield|]. intros _ _.
  apply yields_bind; [yield|]. intros tok _. cbv zeta.
  repeat match goal with
         | |- yields_with _ (if ?b then _ else _) => destruct b
         end;
    repeat first
      [ apply yields_parse_variable_declaration
      | apply yields_parse_function_declaration
      | apply yields_parse_other_statement
      | apply yields_bind; [|intros ? ?]
      | match goal with
        | |- yields_with _ (if ?b then _ else _) => destruct b
        end
      | yield ].
Qed.

End OneLevel.

(** The methods of every depth build such trees. *)
Lemma yields_methods_at : forall fuel,
  yields_with shaped (self_parse_statement (methods_at fuel))
  /\ (forall body, shaped body ->
        yields_with shaped (self_parse_block (methods_at fuel) body))
  /\ yields_with shaped (self_parse_expression (methods_at fuel))
  /\ yields_with shaped (self_parse_unary (methods_at fuel))
  /\ yields_with shaped (self_parse_primary (methods_at fuel)).
Proof.
  induction fuel.
  - simpl. repeat split; try intros ? ?; apply yields_timeout.
  - destruct IHfuel as [Hs [Hb [He [Hu Hp]]]].
    cbn [methods_at self_parse_statement self_parse_block
         self_parse_expression self_parse_unary self_parse_primary].
    repeat split.
    + apply yields_parse_statement; assumption.
    + apply yields_parse_block; assumption.
    + apply yields_parse_expression; assumption.
    + apply yields_parse_unary; assumption.
    + apply yields_parse_primary; assumption.
Qed.

Lemma yields_parse_file_body self :
  yields_with shaped (self_parse_statement self) ->
  (forall body, shaped body ->
     yields_with shaped (self_parse_block self body)) ->
  yields_with shaped (self_parse_expression self) ->
  yields_with shaped (self_parse_unary self) ->
  yields_with shaped (self_parse_primary self) ->
  forall fuel file_body, shaped file_body ->
    yields_with shaped (parse_file_body fuel self file_body).
Proof.
  intros Hs Hb He Hu Hp.
  induction fuel; intros file_body Hf; simpl; [yield|].
  apply yields_bind; [yield|]. intros [] _; [yield|].
  apply yields_bind; [yield|]. intros _ _.
  apply yields_bind; [yield|]. intros [] _; [apply IHfuel, Hf|].
  apply yields_bind; [apply yields_parse_statement; assumption|].
  intros [stmt|] Hstmt; apply IHfuel; shown.
Qed.

Lemma yields_parse_loop self :
  yields_with shaped (self_parse_statement self) ->
  (forall body, shaped body ->
     yields_with shaped (self_parse_block self body)) ->
  yields_with shaped (self_parse_expression self) ->
  yields_with shaped (self_parse_unary self) ->
  yields_with shaped (self_parse_primary self) ->
  forall fuel statements, forallb top_shape statements = true ->
    yields_with (fun l => forallb top_shape l = true)
      (parse_loop fuel self statements).
Proof.
  intros Hs Hb He Hu Hp.
  induction fuel; intros statements Hf; simpl; [yield|].
  apply yields_bind; [yield|]. intros [] _; [yield|].
  apply yields_bind; [yield|]. intros _ _.
  apply yields_bind; [yield|]. intros [] _; [yield|].
  apply yields_bind; [yield|]. intros [] _.
  - apply yields_bind; [yield|]. intros _ _.
    apply yields_bind; [yield|]. intros tok _.
    apply yields_bind; [yield|]. intros file_name _.
    apply yields_bind;
      [apply yields_parse_file_body; try assumption; reflexivity|].
    intros file_body Hfb. apply IHfuel.
    apply forallb_snoc; [exact Hf|exact Hfb].
  - apply yields_bind; [apply yields_parse_statement; assumption|].
    intros [stmt|] Hstmt; apply IHfuel; [|exact Hf].
    apply forallb_snoc; [exact Hf|].
    shapes. destruct stmt; try exact Hstmt; discriminate Hstmt.
Qed.

(** X24 (the trees the parser builds): a program the parser accepts is a
    [Program] of statements and file blocks in which no node, at any
    depth, is an [Assignment], a [MethodCall], a [PrintStatement], a
    [SignalCall], a [StringInterpolation], a [DBXElement] or a
    [RichTextElement], no increment or decrement is a postfix one, and no
    [Program] or [FileBlock] lies below the top: the visitors of the
    interpreter for these nodes are never reached from a source text. *)
Theorem parser_builds_only_these_trees : forall source first_object ast p,
  parse_dreamberd source first_object = POk ast p ->
  exists statements,
    ast = Program statements /\ forallb top_shape statements = true.
Proof.
  intros source first_object ast p H. unfold parse_dreamberd, parse in H.
  unfold bind in H.
  destruct (yields_methods_at
              (parse_fuel (tokenize (Lexer.new source))))
    as [Hs [Hb [He [Hu Hp]]]].
  destruct (parse_loop _ _ [] _) as [statements p1| | |] eqn:E;
    try discriminate.
  unfold ret in H. inversion H. subst. exists statements. split; [reflexivity|].
  exact (yields_parse_loop _ Hs Hb He Hu Hp _ [] eq_refl _ _ _ E).
Qed.

(** X24 at the source [x = 5!], which is read as a binary operation. *)
Lemma parsed_trees_witness :
  exists statements,
    Program
      [ExpressionStatement
         (BinaryOperation (Identifier "x") "="
            (NumberLiteral (LInt 5 Cached)))
         1 false]
    = Program statements
    /\ forallb top_shape statements = true.
Proof.
  refine (parser_builds_only_these_trees "x = 5!" 0 _
            (mkParser (Token4 T_EOF EmptyString 1 7) [] 0) _).
  vm_compute. reflexivity.
Defined.

End ParsedTrees.

(** ** The three [const] *)

Section ThreeConsts.

Import Lexer.

Lemma lower_letter c : isalpha (lower_char c) = true -> isalpha c = true.
Proof.
  destruct c as [[] [] [] [] [] [] [] []]; vm_compute; intros H;
    first [reflexivity | discriminate H].
Qed.

(** A spelling of [const] is five letters. *)
Lemma const_spelling w :
  String.eqb (lower w) "const" = true ->
  forallb isalpha (list_ascii_of_string w) = true /\ String.length w = 5.
Proof.
  intros H. apply String.eqb_eq in H.
  destruct w as [|c1 [|c2 [|c3 [|c4 [|c5 [|c6 w]]]]]]; try discriminate H.
  simpl in H. injection H as H1 H2 H3 H4 H5. split; [|reflexivity].
  simpl.
  rewrite (lower_letter c1), (lower_letter c2), (lower_letter c3),
    (lower_letter c4), (lower_letter c5);
    [reflexivity| | | | |];
    first [rewrite H1|rewrite H2|rewrite H3|rewrite H4|rewrite H5];
    reflexivity.
Qed.

Lemma letters_are_identifier_chars w :
  forallb isalpha (list_ascii_of_string w) = true ->
  forallb is_identifier_char (list_ascii_of_string w) = true.
Proof.
  induction w as [|c w IH]; simpl; [reflexivity|].
  intros H. apply andb_prop in H. destruct H as [Hc Hw].
  rewrite (letter_is_identifier_char c Hc). exact (IH Hw).
Qed.

Lemma blank_is_no_identifier_char c :
  is_blank c = true ->
  is_identifier_char c = false /\ isalpha c = false
  /\ Ascii.eqb c newline = false.
Proof.
  destruct c as [[] [] [] [] [] [] [] []]; vm_compute; intros H;
    first [discriminate H | repeat split].
Qed.

Lemma blanks_no_newline b :
  forallb is_blank (list_ascii_of_string b) = true -> newlines b = 0.
Proof.
  induction b as [|c b IH]; simpl; [reflexivity|].
  intros H. apply andb_prop in H. destruct H as [Hc Hb].
  destruct (blank_is_no_identifier_char c Hc) as [_ [_ Hn]].
  rewrite Hn. exact (IH Hb).
Qed.

(** The lexer after the blanks at the head of its input. *)
Lemma skip_whitespace_text lx b tail :
  rest lx = (b ++ tail)%string ->
  forallb is_blank (list_ascii_of_string b) = true ->
  starts_with_a is_blank tail = false ->
  skip_whitespace lx
  = mkLexer tail (pos lx + String.length b) (line lx)
      (column lx + String.length b) (tokens lx).
Proof.
  intros Hr Hb Ht. unfold skip_whitespace.
  destruct (consume_while_spec is_blank lx EmptyString) as [_ Hl].
  rewrite Hr in Hl at 1.
  rewrite (take_while_app is_blank b tail Hb Ht) in Hl.
  rewrite (lexes_text _ _ _ _ _ Hr Hl).
  rewrite (blanks_no_newline b Hb), Nat.add_0_r, app_nil_r.
  rewrite (column_after_line _ _ (blanks_no_newline b Hb)). reflexivity.
Qed.

(** The lexer after it advanced over a text without newline. *)
Lemma iter_advance_text lx w tail :
  rest lx = (w ++ tail)%string -> newlines w = 0 ->
  Nat.iter (String.length w) advance lx
  = mkLexer tail (pos lx + String.length w) (line lx)
      (column lx + String.length w) (tokens lx).
Proof.
  intros Hr Hn.
  assert (Hk : String.length w <= String.length (rest lx)).
  { rewrite Hr, length_append. lia. }
  rewrite (lexes_text _ _ _ _ _ Hr (lexes_iter_advance _ lx Hk)).
  rewrite Hn, Nat.add_0_r, app_nil_r, (column_after_line _ _ Hn).
  reflexivity.
Qed.

Lemma starts_with_blank b tail :
  b <> EmptyString ->
  forallb is_blank (list_ascii_of_string b) = true ->
  starts_with_a is_identifier_char (b ++ tail) = false
  /\ starts_with_a isalpha (b ++ tail) = false.
Proof.
  destruct b as [|c b]; [congruence|]. simpl. intros _ H.
  apply andb_prop in H. destruct H as [Hc _].
  destruct (blank_is_no_identifier_char c Hc) as [H1 [H2 _]]. auto.
Qed.

Lemma starts_with_letter w tail :
  String.length w = 5 ->
  forallb isalpha (list_ascii_of_string w) = true ->
  starts_with_a is_blank (w ++ tail) = false
  /\ exists c r, (w ++ tail)%string = String c r /\ isalpha c = true.
Proof.
  destruct w as [|c w]; [discriminate|]. simpl. intros _ H.
  apply andb_prop in H. destruct H as [Hc _]. split.
  - destruct (is_blank c) eqn:Hb; [|reflexivity].
    destruct (blank_is_no_identifier_char c Hb) as [_ [H2 _]]. congruence.
  - exists c, (w ++ tail)%string. auto.
Qed.

(** X25 (const const const): three spellings of [const], in any letter
    case, with blanks and tabs between them, are one token of the text
    [const const const], whatever follows the third, a digit too, as long
    as it is no letter. *)
Theorem three_consts_are_one_token :
  forall lx first blanks second blanks' third tail,
    rest lx
    = (first ++ blanks ++ second ++ blanks' ++ third ++ tail)%string ->
    String.eqb (lower first) "const" = true ->
    String.eqb (lower second) "const" = true ->
    String.eqb (lower third) "const" = true ->
    blanks <> EmptyString ->
    blanks' <> EmptyString ->
    forallb is_blank (list_ascii_of_string blanks) = true ->
    forallb is_blank (list_ascii_of_string blanks') = true ->
    starts_with_a isalpha tail = false ->
    scan_token lx
    = (mkLexer tail
         (pos lx + (15 + String.length blanks + String.length blanks'))
         (line lx)
         (column lx + (15 + String.length blanks + String.length blanks'))
         (tokens lx
          ++ [Token4 T_CONST_CONST_CONST "const const const" (line lx)
                (column lx)]), true).
Proof.
  intros lx w1 b1 w2 b2 w3 tail Hr H1 H2 H3 Hn1 Hn2 Hb1 Hb2 Ht.
  destruct (const_spelling w1 H1) as [Ha1 L1].
  destruct (const_spelling w2 H2) as [Ha2 L2].
  destruct (const_spelling w3 H3) as [Ha3 L3].
  destruct (starts_with_letter w1
              (b1 ++ w2 ++ b2 ++ w3 ++ tail)%string L1 Ha1)
    as [_ [c [r [Hcr Hc]]]].
  destruct (scan_char_letter c lx Hc) as [Hb Hscan].
  rewrite Hcr in Hr. rewrite (scan_token_at lx c _ Hr Hb). f_equal.
  rewrite <- Hcr in Hr. rewrite Hscan. clear Hscan Hcr Hb Hc c r.
  unfold emit, read_identifier.
  destruct (consume_while_spec is_identifier_char lx EmptyString) as [Hv Hl].
  pose proof (letters_are_identifier_chars w1 Ha1) as Hi1.
  destruct (starts_with_blank b1 (w2 ++ b2 ++ w3 ++ tail)%string Hn1 Hb1)
    as [Hs1 _].
  rewrite Hr in Hv, Hl at 1.
  rewrite (take_while_app is_identifier_char w1 _ Hi1 Hs1) in Hv, Hl.
  destruct (consume_while is_identifier_char lx EmptyString) as [lx1 value].
  simpl in Hv. subst value. cbn [fst] in Hl. rewrite H1.
  pose proof (lexes_text _ _ _ _ _ Hr Hl) as E1.
  rewrite (identifier_chars_no_newline _ Hi1), Nat.add_0_r, app_nil_r in E1.
  rewrite (column_after_line _ _ (identifier_chars_no_newline _ Hi1)) in E1.
  subst lx1. unfold const_const_const.
  destruct (starts_with_letter w2 (b2 ++ w3 ++ tail)%string L2 Ha2)
    as [Hs2 [c2 [r2 [Hcr2 Hc2]]]].
  match goal with
  | |- context [skip_whitespace ?l] =>
      rewrite (skip_whitespace_text l b1 _ eq_refl Hb1 Hs2)
  end.
  assert (Hcc2 : forall p l c t,
             opt_test isalpha
               (current_char
                  (mkLexer (w2 ++ b2 ++ w3 ++ tail)%string p l c t)) = true).
  { intros. unfold current_char. cbn [rest]. rewrite Hcr2. exact Hc2. }
  rewrite Hcc2. cbn [rest pos line column tokens].
  destruct (starts_with_blank b2 (w3 ++ tail)%string Hn2 Hb2) as [_ Hs3].
  rewrite (take_while_app isalpha w2 _ Ha2 Hs3), H2.
  match goal with
  | |- context [Nat.iter _ advance ?l] =>
      rewrite (iter_advance_text l w2 _ eq_refl
                 (identifier_chars_no_newline _
                    (letters_are_identifier_chars w2 Ha2)))
  end.
  cbn [rest pos line column tokens].
  destruct (starts_with_letter w3 tail L3 Ha3)
    as [Hs4 [c3 [r3 [Hcr3 Hc3]]]].
  match goal with
  | |- context [skip_whitespace ?l] =>
      rewrite (skip_whitespace_text l b2 _ eq_refl Hb2 Hs4)
  end.
  assert (Hcc3 : forall p l c t,
             opt_test isalpha
               (current_char (mkLexer (w3 ++ tail)%string p l c t)) = true).
  { intros. unfold current_char. cbn [rest]. rewrite Hcr3. exact Hc3. }
  rewrite Hcc3. cbn [rest pos line column tokens].
  rewrite (take_while_app isalpha w3 _ Ha3 Ht), H3.
  match goal with
  | |- context [Nat.iter _ advance ?l] =>
      rewrite (iter_advance_text l w3 _ eq_refl
                 (identifier_chars_no_newline _
                    (letters_are_identifier_chars w3 Ha3)))
  end.
  unfold push_token. cbn [fst snd rest pos line column tokens].
  rewrite L1, L2, L3. f_equal; lia.
Qed.

(** X25 at a source in which a digit follows the third [const]. *)
Lemma three_consts_witness :
  scan_token (new "Const  const CONST1 = 5!")
  = (mkLexer "1 = 5!" 18 1 19
       [Token4 T_CONST_CONST_CONST "const const const" 1 1], true).
Proof.
  refine (three_consts_are_one_token (new "Const  const CONST1 = 5!")
            "Const" "  " "const" " " "CONST" "1 = 5!"
            eq_refl eq_refl eq_refl eq_refl _ _ eq_refl eq_refl eq_refl);
    discriminate.
Defined.

End ThreeConsts.

(** ** From the source text to the output *)

Section HelloWorld.

Import Lexer.

Lemma tokenize_loop_step fuel lx lx' c r :
  rest lx = String c r -> scan_token lx = (lx', true) ->
  tokenize_loop (S fuel) lx = tokenize_loop fuel lx'.
Proof. intros Hr H. simpl. rewrite Hr, H. reflexivity. Qed.

(** The tokens of [print("text")!]. *)
Lemma tokenize_print text :
  text <> EmptyString ->
  char_in quote_double text = false ->
  tokenize
    (new ("print(" ++ String quote_double (text ++ String quote_double ")!")))
  = [ Token4 T_PRINT "print" 1 1; Token4 T_LPAREN "(" 1 6;
      Token4 T_STRING text 1 7;
      Token4 T_RPAREN ")" (1 + newlines text) (column_after 8 text + 1);
      mkToken T_EXCLAMATION "!" (1 + newlines text)
        (column_after 8 text + 2) 1;
      Token4 T_EOF EmptyString (1 + newlines text)
        (column_after 8 text + 3) ].
Proof.
  intros Hne Hq. unfold tokenize.
  change (String.length
            (rest
               (new
                  ("print("
                   ++ String quote_double
                        (text ++ String quote_double ")!")))))
    with (7 + String.length (text ++ String quote_double ")!")).
  cbn [Nat.add].
  rewrite (tokenize_loop_step _ _
             (mkLexer
                ("(" ++ String quote_double (text ++ String quote_double ")!"))
                5 1 6 [Token4 T_PRINT "print" 1 1]) "p"
             ("rint("
              ++ String quote_double (text ++ String quote_double ")!")))
    by (vm_compute; reflexivity).
  rewrite (tokenize_loop_step _ _
             (mkLexer
                (String quote_double (text ++ String quote_double ")!"))
                6 1 7 [Token4 T_PRINT "print" 1 1; Token4 T_LPAREN "(" 1 6])
             "("
             (String quote_double (text ++ String quote_double ")!")))
    by (vm_compute; reflexivity).
  rewrite (tokenize_loop_step _ _
             (mkLexer ")!" (6 + (1 + String.length text + 1))
                (1 + newlines text) (column_after (7 + 1) text + 1)
                [Token4 T_PRINT "print" 1 1; Token4 T_LPAREN "(" 1 6;
                 Token4 T_STRING text 1 7])
             quote_double (text ++ String quote_double ")!")).
  2: reflexivity.
  2: { rewrite (scan_token_at
                  (mkLexer
                     (String quote_double
                        (text ++ String quote_double ")!"))
                     6 1 7
                     [Token4 T_PRINT "print" 1 1; Token4 T_LPAREN "(" 1 6])
                  quote_double
                  (text ++ String quote_double ")!") eq_refl eq_refl).
       f_equal.
       exact (read_string_text
                (mkLexer
                   (String quote_double (text ++ String quote_double ")!"))
                   6 1 7
                   [Token4 T_PRINT "print" 1 1; Token4 T_LPAREN "(" 1 6])
                quote_double 0 text ")!" eq_refl eq_refl Hne Hq). }
  rewrite (tokenize_loop_step _ _
             (mkLexer "!" (S (6 + (1 + String.length text + 1)))
                (1 + newlines text) (S (column_after (7 + 1) text + 1))
                [Token4 T_PRINT "print" 1 1; Token4 T_LPAREN "(" 1 6;
                 Token4 T_STRING text 1 7;
                 Token4 T_RPAREN ")" (1 + newlines text)
                   (column_after (7 + 1) text + 1)])
             ")" "!") by reflexivity.
  rewrite (tokenize_loop_step _ _
             (mkLexer EmptyString (S (S (6 + (1 + String.length text + 1))))
                (1 + newlines text) (S (S (column_after (7 + 1) text + 1)))
                [Token4 T_PRINT "print" 1 1; Token4 T_LPAREN "(" 1 6;
                 Token4 T_STRING text 1 7;
                 Token4 T_RPAREN ")" (1 + newlines text)
                   (column_after (7 + 1) text + 1);
                 mkToken T_EXCLAMATION "!" (1 + newlines text)
                   (S (column_after (7 + 1) text + 1)) 1])
             "!" EmptyString) by reflexivity.
  cbn [tokenize_loop rest push_token tokens line column app].
  change (7 + 1) with 8.
  replace (S (S (column_after 8 text + 1))) with (column_after 8 text + 3)
    by lia.
  replace (S (column_after 8 text + 1)) with (column_after 8 text + 2)
    by lia.
  reflexivity.
Qed.

(** The tree of [print("text")!]. *)
Lemma parse_print text first_object :
  text <> EmptyString ->
  char_in quote_double text = false ->
  exists i p,
    Parser.parse_dreamberd
      ("print(" ++ String quote_double (text ++ String quote_double ")!"))
      first_object
    = Parser.POk
        (Program
           [ExpressionStatement
              (FunctionCall (Identifier "print") [StringLiteral text i])
              1 false]) p.
Proof.
  intros Hne Hq. unfold Parser.parse_dreamberd.
  rewrite (tokenize_print text Hne Hq).
  generalize (1 + newlines text) (column_after 8 text). intros l c.
  destruct text as [|c1 [|c2 text]]; [congruence| |].
  - exists Unknown. eexists. lazy. reflexivity.
  - exists (Object first_object). eexists. lazy. reflexivity.
Qed.

(** X26 (hello world): the program [print("text")!], for every text
    that is not empty and has no double quote in it, runs to its end and
    writes one line, the text as it stands in the source: the lexer, the
    parser and the interpreter process no escape sequence and no
    interpolation in it. *)
Theorem print_writes_the_text_as_it_is : forall clock fuel text,
  text <> EmptyString ->
  char_in quote_double text = false ->
  Interpreter.run_dreamberd (4 + fuel) clock
    ("print(" ++ String quote_double (text ++ String quote_double ")!"))
  = Interpreter.Ok [text].
Proof.
  intros clock fuel text Hne Hq.
  unfold Interpreter.run_dreamberd, Interpreter.interpret.
  destruct (parse_print text
              (Interpreter.next_object (Interpreter.new clock)) Hne Hq)
    as [i [p Hp]].
  rewrite Hp. vm_compute. reflexivity.
Qed.

(** X26 at a text with an interpolation and an escape sequence. *)
Lemma print_witness :
  Interpreter.run_dreamberd 4 zero_clock
    ("print(" ++ String quote_double
                   ("Hello ${name}\n" ++ String quote_double ")!"))
  = Interpreter.Ok ["Hello ${name}\n"].
Proof.
  refine (print_writes_the_text_as_it_is zero_clock 0 "Hello ${name}\n" _
            eq_refl).
  discriminate.
Defined.

End HelloWorld.
